(** * SocketManager and MuseBotDashboard: reconnection, dispatch and fallback

    A shallow embedding of [static/js/socket.js] (class [SocketManager]) and
    of [MuseBotDashboard.executeCommand] from [static/js/script.js].

    Conventions of the embedding.
    - A callback is a JavaScript function object; [indexOf] compares function
      objects by identity, so a callback is represented by its identity, a
      [CallbackId].  What a callback does when invoked is given by a table
      [Handlers]: the registry calls ([on] / [off]) it makes on the manager
      while it runs, and whether it ends by raising.  Callbacks that re-enter
      the manager in other ways are outside the model.
    - [eventCallbacks] is a JS [Map] from event names to arrays; arrays are
      mutated in place by [push] and [splice], which the finite map records by
      replacing the entry of the event.  Nothing a callback can do in the model
      removes or replaces the array of an event, so during a dispatch the
      entry of an event stands for one array object.
    - What the manager does to its surroundings (callback invocations, console
      lines, transport calls, timers, HTTP requests) is appended to [trace],
      oldest first.  [Dispatch] is a marker: it records that [triggerEvent]
      was called, whether or not a callback is registered.
    - The libraries ([io], the transport, [Math.random], [fetch]) answer
      through [Env] and through the inputs of the event loop; a call on the
      transport library may raise.
    - Numbers are rationals.  The state of the manager keeps the exact value
      [calculateReconnectDelay] of a delay.  The source computes on IEEE
      doubles, which round every arithmetic result:
      [calculateReconnectDelay_rounded fl] is the same expression with each
      result rounded by [fl], [Binary64.double] is the rounding of doubles
      (nearest, ties to even), and with [fl := id] the exact value is back.
      The bounds proved of delays are closed intervals between doubles, so
      that they hold of every rounding and in particular of the source: a
      sum that is below a bound in exact arithmetic can reach it once it is
      rounded.  The animated counters take their rounding as a parameter in
      the same way. *)

From Stdlib Require Import ZArith QArith Qminmax Qpower Qround Lia Lqa Ascii.
From stdpp Require Import base option list strings gmap fin_maps.

Open Scope string_scope.
Open Scope list_scope.

(** ** Event callback registry (socket.js, "EVENT MANAGEMENT") *)

Definition CallbackId := nat.

(** [Array.prototype.indexOf]: the first index holding [cb], or [-1]. *)
Fixpoint indexOf (cb : CallbackId) (callbacks : list CallbackId) : Z :=
  match callbacks with
  | [] => (-1)%Z
  | c :: rest =>
      if decide (c = cb) then 0%Z
      else let i := indexOf cb rest in
           if (i >? -1)%Z then (i + 1)%Z else (-1)%Z
  end.

(** [callbacks.splice(index, 1)] for an index that is in range. *)
Definition splice1 (index : Z) (callbacks : list CallbackId) : list CallbackId :=
  delete (Z.to_nat index) callbacks.

(** [on(event, callback)]: create the array on first use, then [push]. *)
Definition on (event : string) (callback : CallbackId)
    (reg : gmap string (list CallbackId)) : gmap string (list CallbackId) :=
  let reg1 := if decide (is_Some (reg !! event)) then reg else <[event := []]> reg in
  match reg1 !! event with
  | Some callbacks => <[event := callbacks ++ [callback]]> reg1
  | None => reg1
  end.

(** [off(event, callback)]: [indexOf] then [splice(index, 1)] when found. *)
Definition off (event : string) (callback : CallbackId)
    (reg : gmap string (list CallbackId)) : gmap string (list CallbackId) :=
  match reg !! event with
  | Some callbacks =>
      let index := indexOf callback callbacks in
      if (index >? -1)%Z then <[event := splice1 index callbacks]> reg else reg
  | None => reg
  end.

(** Number of registrations of a callback in an array. *)
Definition registrations (cb : CallbackId) (callbacks : list CallbackId) : nat :=
  length (filter (λ c, c = cb) callbacks).

(** The other callbacks of an array, in order. *)
Definition others (cb : CallbackId) (callbacks : list CallbackId) : list CallbackId :=
  filter (λ c, c ≠ cb) callbacks.

(** ** Payloads, effects and the manager's state *)

(** The [data] argument of an event. *)
Inductive Payload :=
| PUndefined                                              (* no argument *)
| PConnection (connected : bool) (reason : option string) (* { connected, reason } *)
| PError (error : option string)                          (* { error } *)
| PAttempt (attempt : nat)                                (* { attempt } *)
| PData (data : string).                                  (* JSON sent by the server *)

(** What leaves the manager, in the order it happens. *)
Inductive Effect :=
| Dispatch (event : string) (data : Payload)       (* triggerEvent(event, data) is entered *)
| Invoke (cb : CallbackId) (event : string) (data : Payload)   (* callback(data) *)
| Console (msg : string)                           (* console.log / console.error *)
| ConsoleScheduling (delay : Q)                    (* `Scheduling reconnect in ${delay}ms...` *)
| ConsoleAttempt (n max : nat)                     (* `Reconnection attempt ${n}/${max}` *)
| ConsoleCallbackError (event : string)            (* `Error in ${event} callback:` *)
| IoOpen                                           (* io({...}) *)
| SocketHandlers                                   (* the this.socket.on(...) registrations *)
| SocketConnect                                    (* this.socket.connect() *)
| SocketDisconnect                                 (* this.socket.disconnect() *)
| SocketEmit (event : string) (data : Payload)     (* this.socket.emit(event, data) *)
| SetTimeout (delay : Q)                           (* setTimeout(() => attemptReconnect(), delay) *)
| SetInterval (handle : nat) (period : Z)          (* setInterval(..., period) *)
| ClearInterval (handle : nat)
| Fetch (url : string).                            (* fetch(url) *)

Record SocketManager := mkSocketManager {
  socket : bool;                      (* this.socket holds a transport (true) or null *)
  reconnectAttempts : nat;
  maxReconnectAttempts : nat;
  reconnectDelay : Q;
  isConnected : bool;
  eventCallbacks : gmap string (list CallbackId);
  pollingInterval : option nat;
  (* the part of the browser runtime the manager's calls act on *)
  timers : list Q;                    (* pending reconnect timeouts, by delay *)
  intervals : list nat;               (* live interval handles *)
  nextHandle : nat;                   (* the handle the next setInterval returns *)
  trace : list Effect
}.

(** The fields set by [constructor()], before [init()] runs. *)
Definition constructed : SocketManager :=
  {| socket := false; reconnectAttempts := 0; maxReconnectAttempts := 10;
     reconnectDelay := 1000%Q; isConnected := false; eventCallbacks := ∅;
     pollingInterval := None; timers := []; intervals := []; nextHandle := 1;
     trace := [] |}.

Definition set_socket (v : bool) (s : SocketManager) : SocketManager :=
  {| socket := v; reconnectAttempts := reconnectAttempts s;
     maxReconnectAttempts := maxReconnectAttempts s; reconnectDelay := reconnectDelay s;
     isConnected := isConnected s; eventCallbacks := eventCallbacks s;
     pollingInterval := pollingInterval s; timers := timers s;
     intervals := intervals s; nextHandle := nextHandle s; trace := trace s |}.

Definition set_reconnectAttempts (v : nat) (s : SocketManager) : SocketManager :=
  {| socket := socket s; reconnectAttempts := v;
     maxReconnectAttempts := maxReconnectAttempts s; reconnectDelay := reconnectDelay s;
     isConnected := isConnected s; eventCallbacks := eventCallbacks s;
     pollingInterval := pollingInterval s; timers := timers s;
     intervals := intervals s; nextHandle := nextHandle s; trace := trace s |}.

Definition set_isConnected (v : bool) (s : SocketManager) : SocketManager :=
  {| socket := socket s; reconnectAttempts := reconnectAttempts s;
     maxReconnectAttempts := maxReconnectAttempts s; reconnectDelay := reconnectDelay s;
     isConnected := v; eventCallbacks := eventCallbacks s;
     pollingInterval := pollingInterval s; timers := timers s;
     intervals := intervals s; nextHandle := nextHandle s; trace := trace s |}.

Definition set_eventCallbacks (v : gmap string (list CallbackId)) (s : SocketManager)
    : SocketManager :=
  {| socket := socket s; reconnectAttempts := reconnectAttempts s;
     maxReconnectAttempts := maxReconnectAttempts s; reconnectDelay := reconnectDelay s;
     isConnected := isConnected s; eventCallbacks := v;
     pollingInterval := pollingInterval s; timers := timers s;
     intervals := intervals s; nextHandle := nextHandle s; trace := trace s |}.

Definition set_timers (v : list Q) (s : SocketManager) : SocketManager :=
  {| socket := socket s; reconnectAttempts := reconnectAttempts s;
     maxReconnectAttempts := maxReconnectAttempts s; reconnectDelay := reconnectDelay s;
     isConnected := isConnected s; eventCallbacks := eventCallbacks s;
     pollingInterval := pollingInterval s; timers := v;
     intervals := intervals s; nextHandle := nextHandle s; trace := trace s |}.

(** [setInterval] hands out [nextHandle]; the manager keeps it in
    [this.pollingInterval]. *)
Definition start_interval (s : SocketManager) : SocketManager :=
  {| socket := socket s; reconnectAttempts := reconnectAttempts s;
     maxReconnectAttempts := maxReconnectAttempts s; reconnectDelay := reconnectDelay s;
     isConnected := isConnected s; eventCallbacks := eventCallbacks s;
     pollingInterval := Some (nextHandle s); timers := timers s;
     intervals := intervals s ++ [nextHandle s]; nextHandle := S (nextHandle s);
     trace := trace s ++ [SetInterval (nextHandle s) 5000] |}.

Definition clearInterval (handle : nat) (s : SocketManager) : SocketManager :=
  {| socket := socket s; reconnectAttempts := reconnectAttempts s;
     maxReconnectAttempts := maxReconnectAttempts s; reconnectDelay := reconnectDelay s;
     isConnected := isConnected s; eventCallbacks := eventCallbacks s;
     pollingInterval := pollingInterval s; timers := timers s;
     intervals := filter (λ h, h ≠ handle) (intervals s); nextHandle := nextHandle s;
     trace := trace s ++ [ClearInterval handle] |}.

Definition log (e : Effect) (s : SocketManager) : SocketManager :=
  {| socket := socket s; reconnectAttempts := reconnectAttempts s;
     maxReconnectAttempts := maxReconnectAttempts s; reconnectDelay := reconnectDelay s;
     isConnected := isConnected s; eventCallbacks := eventCallbacks s;
     pollingInterval := pollingInterval s; timers := timers s;
     intervals := intervals s; nextHandle := nextHandle s; trace := trace s ++ [e] |}.

(** A call either returns or raises; the state reached is kept in both cases. *)
Inductive Completion :=
| Normal (s : SocketManager)
| Abrupt (s : SocketManager).

Definition state_of (c : Completion) : SocketManager :=
  match c with Normal s | Abrupt s => s end.

Definition throws (c : Completion) : bool :=
  match c with Normal _ => false | Abrupt _ => true end.

(** ** The environment *)

(** A call a callback makes on the manager's registry while it runs. *)
Inductive RegistryCall :=
| CallOn (event : string) (cb : CallbackId)
| CallOff (event : string) (cb : CallbackId).

(** What a callback does with its argument: registry calls, then it returns or
    raises. *)
Record Behaviour := { calls : list RegistryCall; raises : bool }.

Definition Handlers := CallbackId → Payload → Behaviour.

(** What the libraries answer during one run of a handler of the manager. *)
Record Env := {
  random : Q;                     (* the value of Math.random(), 0 <= random < 1 *)
  io_throws : bool;               (* io({...}) raises *)
  socket_on_throws : bool;        (* a this.socket.on(...) registration raises *)
  socket_connect_throws : bool    (* this.socket.connect() raises *)
}.

Definition runCall (reg : gmap string (list CallbackId)) (c : RegistryCall)
    : gmap string (list CallbackId) :=
  match c with
  | CallOn event cb => on event cb reg
  | CallOff event cb => off event cb reg
  end.

(** ** The operations of [SocketManager] *)

Section manager.
Variable handlers : Handlers.

(** [callback(data)]: the callback's registry calls take effect on the live
    arrays; it then returns or raises. *)
Definition call_callback (cb : CallbackId) (event : string) (data : Payload)
    (s : SocketManager) : Completion :=
  let b := handlers cb data in
  let s1 := log (Invoke cb event data) s in
  let s2 := set_eventCallbacks (foldl runCall (eventCallbacks s1) (calls b)) s1 in
  if raises b then Abrupt s2 else Normal s2.

(** The body of the [forEach] in [triggerEvent]: [try { callback(data) }
    catch (error) { console.error(...) }]. *)
Definition guarded_callback (cb : CallbackId) (event : string) (data : Payload)
    (s : SocketManager) : SocketManager :=
  match call_callback cb event data s with
  | Normal s' => s'
  | Abrupt s' => log (ConsoleCallbackError event) s'
  end.

(** [Array.prototype.forEach] on the live array of [event]: the length is read
    once, before the first call; index [k] is visited only if the array still
    has an element there when its turn comes ([splice] by a callback shifts
    the later elements down).  [n] indices remain. *)
Fixpoint forEach_live (n k : nat) (event : string) (data : Payload)
    (s : SocketManager) : SocketManager :=
  match n with
  | 0 => s
  | S n' =>
      let s' := match eventCallbacks s !! event with
                | Some callbacks =>
                    match callbacks !! k with
                    | Some cb => guarded_callback cb event data s
                    | None => s
                    end
                | None => s
                end in
      forEach_live n' (S k) event data s'
  end.

Definition triggerEvent (event : string) (data : Payload) (s : SocketManager)
    : SocketManager :=
  let s0 := log (Dispatch event data) s in
  match eventCallbacks s0 !! event with
  | Some callbacks => forEach_live (length callbacks) 0 event data s0
  | None => s0
  end.

(** [Math.min(this.reconnectDelay * Math.pow(1.5, this.reconnectAttempts), 30000)
    + Math.random() * 1000], in exact arithmetic; [calculateReconnectDelay_rounded]
    is the same computation on doubles. *)
Definition calculateReconnectDelay (rnd : Q) (s : SocketManager) : Q :=
  let baseDelay :=
    Qmin (reconnectDelay s * Qpower (3 # 2) (Z.of_nat (reconnectAttempts s)))%Q 30000%Q in
  let jitter := (rnd * 1000)%Q in
  (baseDelay + jitter)%Q.

Definition setupPollingFallback (s : SocketManager) : SocketManager :=
  let s1 := log (Console "Setting up polling fallback...") s in
  let s2 := triggerEvent "polling_started" PUndefined s1 in
  start_interval s2.

Definition handleReconnectFailed (s : SocketManager) : SocketManager :=
  setupPollingFallback (triggerEvent "reconnect_failed" PUndefined s).

Definition scheduleReconnect (env : Env) (s : SocketManager) : SocketManager :=
  if (maxReconnectAttempts s <=? reconnectAttempts s)%nat then
    handleReconnectFailed (log (Console "Max reconnection attempts reached") s)
  else
    let delay := calculateReconnectDelay (random env) s in
    let s1 := log (ConsoleScheduling delay) s in
    set_timers (timers s1 ++ [delay]) (log (SetTimeout delay) s1).

Definition handleConnectionError (env : Env) (error : option string)
    (s : SocketManager) : SocketManager :=
  scheduleReconnect env (triggerEvent "connection_error" (PError error) s).

(** [this.socket.emit('get_initial_data')] raises a TypeError when
    [this.socket] is null. *)
Definition handleConnect (s : SocketManager) : Completion :=
  let s1 := set_isConnected true s in
  let s2 := set_reconnectAttempts 0 s1 in
  let s3 := triggerEvent "connection_change" (PConnection true None) s2 in
  if socket s3 then Normal (log (SocketEmit "get_initial_data" PUndefined) s3)
  else Abrupt s3.

Definition handleDisconnect (env : Env) (reason : string) (s : SocketManager)
    : SocketManager :=
  let s1 := set_isConnected false s in
  let s2 := triggerEvent "connection_change" (PConnection false (Some reason)) s1 in
  if decide (reason ≠ "io client disconnect") then scheduleReconnect env s2 else s2.

Definition handleReconnect (attempt : nat) (s : SocketManager) : SocketManager :=
  triggerEvent "reconnect" (PAttempt attempt) (set_reconnectAttempts 0 s).

Definition handleReconnectAttempt (attempt : nat) (s : SocketManager) : SocketManager :=
  triggerEvent "reconnect_attempt" (PAttempt attempt) (set_reconnectAttempts attempt s).

Definition handleOffline (s : SocketManager) : SocketManager :=
  triggerEvent "offline" PUndefined s.

(** [connect()]: everything in the [try] block is covered by the [catch],
    which calls [handleConnectionError()] without an argument. *)
Definition connect (env : Env) (s : SocketManager) : SocketManager :=
  let failed s' :=
    handleConnectionError env None (log (Console "WebSocket connection failed:") s') in
  let s1 := log IoOpen (log (Console "Connecting to WebSocket server...") s) in
  if io_throws env then failed s1
  else
    let s2 := log SocketHandlers (set_socket true s1) in
    if socket_on_throws env then failed s2 else s2.

Definition attemptReconnect (env : Env) (s : SocketManager) : Completion :=
  if isConnected s then Normal s
  else
    let s1 := set_reconnectAttempts (S (reconnectAttempts s)) s in
    let s2 := log (ConsoleAttempt (reconnectAttempts s1) (maxReconnectAttempts s1)) s1 in
    if socket s2 then
      let s3 := log SocketConnect s2 in
      if socket_connect_throws env then Abrupt s3 else Normal s3
    else Normal (connect env s2).

(** The outcome of [fetch(url)] followed by [response.json()]. *)
Inductive FetchResult :=
| FetchRejected                                   (* the fetch promise rejects *)
| FetchResponse (ok : bool) (json : option string). (* json = None: response.json() rejects *)

(** [pollForUpdates()] up to its first [await]. *)
Definition pollForUpdates (s : SocketManager) : SocketManager :=
  log (Fetch "/api/poll") s.

(** [pollForUpdates()] once the fetch has settled. *)
Definition pollForUpdates_settled (r : FetchResult) (s : SocketManager) : SocketManager :=
  match r with
  | FetchRejected => log (Console "Polling failed:") s
  | FetchResponse true (Some data) => triggerEvent "polling_update" (PData data) s
  | FetchResponse true None => log (Console "Polling failed:") s
  | FetchResponse false _ => s
  end.

(** The function given to [setInterval] by [setupPollingFallback]; [handle] is
    its [pollInterval]. *)
Definition pollingTick (handle : nat) (s : SocketManager) : SocketManager :=
  if isConnected s then clearInterval handle s
  else pollForUpdates s.

Definition emit (event : string) (data : Payload) (s : SocketManager) : SocketManager :=
  if isConnected s && socket s then log (SocketEmit event data) s else s.

Definition disconnect (s : SocketManager) : SocketManager :=
  let s1 := if socket s then log SocketDisconnect s else s in
  set_isConnected false s1.

(** [constructor()] followed by [init()]; the window listeners of
    [setupEventListeners] are the inputs [BrowserOnline], [BrowserOffline]
    and [VisibilityChange] below. *)
Definition new_SocketManager (env : Env) : SocketManager := connect env constructed.

(** ** The event loop *)

(** What the browser can deliver to the manager. *)
Inductive Input :=
| OnConnect                                    (* transport 'connect' *)
| OnDisconnect (reason : string)               (* transport 'disconnect' *)
| OnConnectError (error : string)              (* transport 'connect_error' *)
| OnReconnect (attempt : nat)
| OnReconnectAttempt (attempt : nat)
| OnReconnectError
| OnReconnectFailed
| OnServerEvent (event : string) (data : string) (* stats_update, activity_update, ... *)
| BrowserOnline
| BrowserOffline
| VisibilityChange (hidden : bool)
| TimerFires (k : nat)                         (* the k-th pending reconnect timeout expires *)
| IntervalFires (handle : nat)
| PollSettles (r : FetchResult).

(** One turn of the event loop.  Transport events need a transport; a timer or
    an interval fires only while it is pending.  An exception that leaves a
    handler ends the turn and is reported by the runtime; the state stays as
    the handler left it. *)
Definition step (env : Env) (i : Input) (s : SocketManager) : SocketManager :=
  match i with
  | OnConnect =>
      if socket s then
        state_of (handleConnect (log (Console "WebSocket connected successfully") s))
      else s
  | OnDisconnect reason =>
      if socket s then handleDisconnect env reason (log (Console "WebSocket disconnected:") s)
      else s
  | OnConnectError error =>
      if socket s then
        handleConnectionError env (Some error) (log (Console "WebSocket connection error:") s)
      else s
  | OnReconnect attempt =>
      if socket s then handleReconnect attempt (log (Console "Reconnected") s) else s
  | OnReconnectAttempt attempt =>
      if socket s then handleReconnectAttempt attempt (log (Console "Reconnection attempt") s)
      else s
  | OnReconnectError =>
      if socket s then log (Console "Reconnection error:") s else s
  | OnReconnectFailed =>
      if socket s then handleReconnectFailed (log (Console "Reconnection failed") s) else s
  | OnServerEvent event data =>
      if socket s then
        if decide (event ∈ ["stats_update"; "activity_update"; "command_result"; "system_alert"])
        then triggerEvent event (PData data) s else s
      else s
  | BrowserOnline =>
      state_of (attemptReconnect env
                  (log (Console "Browser came online, attempting reconnect...") s))
  | BrowserOffline => handleOffline (log (Console "Browser went offline") s)
  | VisibilityChange hidden =>
      if negb hidden && negb (isConnected s) then state_of (attemptReconnect env s) else s
  | TimerFires k =>
      match timers s !! k with
      | Some _ => state_of (attemptReconnect env (set_timers (delete k (timers s)) s))
      | None => s
      end
  | IntervalFires handle =>
      if decide (handle ∈ intervals s) then pollingTick handle s else s
  | PollSettles r => pollForUpdates_settled r s
  end.

Definition run (inputs : list (Env * Input)) (s : SocketManager) : SocketManager :=
  foldl (λ s' ei, step ei.1 ei.2 s') s inputs.

End manager.

(** ** Reading the trace *)

(** The effects added to the trace between two states. *)
Definition since (s s' : SocketManager) : list Effect :=
  drop (length (trace s)) (trace s').

(** The callbacks invoked for [event], in the order of their invocation. *)
Definition invoked (event : string) (t : list Effect) : list CallbackId :=
  omap (λ e, match e with
             | Invoke cb event' _ => if decide (event' = event) then Some cb else None
             | _ => None
             end) t.

(** The payloads with which [triggerEvent(event, _)] was called. *)
Definition dispatched (event : string) (t : list Effect) : list Payload :=
  omap (λ e, match e with
             | Dispatch event' data => if decide (event' = event) then Some data else None
             | _ => None
             end) t.

(** The handles and periods of the intervals started. *)
Definition intervals_started (t : list Effect) : list (nat * Z) :=
  omap (λ e, match e with SetInterval h p => Some (h, p) | _ => None end) t.

(** The delays of the reconnect timeouts scheduled. *)
Definition timeouts (t : list Effect) : list Q :=
  omap (λ e, match e with SetTimeout d => Some d | _ => None end) t.

(** The messages handed to the transport. *)
Definition sent (t : list Effect) : list (string * Payload) :=
  omap (λ e, match e with SocketEmit event data => Some (event, data) | _ => None end) t.


(** What the [forEach] of [triggerEvent] adds to the trace when it visits the
    callbacks [callbacks] one after the other. *)
Definition visits (handlers : Handlers) (event : string) (data : Payload)
    (callbacks : list CallbackId) : list Effect :=
  callbacks ≫= λ cb,
    Invoke cb event data ::
    (if raises (handlers cb data) then [ConsoleCallbackError event] else []).

(** Two states that agree on everything but the registry and the trace. *)
Definition same_machine (s s' : SocketManager) : Prop :=
  socket s' = socket s ∧ reconnectAttempts s' = reconnectAttempts s ∧
  maxReconnectAttempts s' = maxReconnectAttempts s ∧
  reconnectDelay s' = reconnectDelay s ∧ isConnected s' = isConnected s ∧
  pollingInterval s' = pollingInterval s ∧ timers s' = timers s ∧
  intervals s' = intervals s ∧ nextHandle s' = nextHandle s.

(** A callback that never calls [off] for [event] on the given payload. *)
Definition keeps_subscriptions (handlers : Handlers) (event : string) (data : Payload)
    (cb : CallbackId) : Prop :=
  ∀ cb', CallOff event cb' ∉ calls (handlers cb data).

(** The effects produced by running callbacks, as opposed to the manager's own. *)
Definition is_callback_effect (e : Effect) : bool :=
  match e with
  | Invoke _ _ _ | ConsoleCallbackError _ => true
  | _ => false
  end.

(** The trace without the effects of callbacks. *)
Definition silent (t : list Effect) : list Effect :=
  filter (λ e, is_callback_effect e = false) t.

(** Two states that differ at most in what is registered and in what the
    callbacks did. *)
Definition similar (s s' : SocketManager) : Prop :=
  same_machine s s' ∧ silent (trace s') = silent (trace s).

(** The same machine with nothing registered. *)
Definition strip (s : SocketManager) : SocketManager := set_eventCallbacks ∅ s.

(** ** Sample environments *)

(** Callbacks that return without touching the registry. *)
Definition quiet : Handlers := λ _ _, {| calls := []; raises := false |}.

(** Callback 2 raises; callback 1 subscribes callback 9 to the same event. *)
Definition second_raises : Handlers := λ cb data,
  {| calls := if decide (cb = 1) then [CallOn "stats_update" 9] else [];
     raises := bool_decide (cb = 2) |}.

(** Callback 1 unsubscribes itself when it is called, as a one-shot listener
    does. *)
Definition first_unsubscribes : Handlers := λ cb data,
  {| calls := if decide (cb = 1) then [CallOff "stats_update" 1] else [];
     raises := false |}.

(** Libraries that raise nothing; [Math.random()] returns [rnd]. *)
Definition calm (rnd : Q) : Env :=
  {| random := rnd; io_throws := false; socket_on_throws := false;
     socket_connect_throws := false |}.

(** As [calm], but [this.socket.connect()] raises. *)
Definition connect_raises (rnd : Q) : Env :=
  {| random := rnd; io_throws := false; socket_on_throws := false;
     socket_connect_throws := true |}.

(** The manager once [new SocketManager()] has returned with the transport
    created, after the page has subscribed the callbacks of [reg] with [on]. *)
Definition opened (reg : gmap string (list CallbackId)) : SocketManager :=
  set_eventCallbacks reg (new_SocketManager quiet (calm 0)).

(** One failed attempt as the manager sees it: the transport reports
    [connect_error], then the timeout scheduled for it expires. *)
Definition failed_attempt (rnd : Q) : list (Env * Input) :=
  [(calm rnd, OnConnectError "timeout"); (calm rnd, TimerFires 0)].

(** The transport never connects: each of the timeouts in [rnds] (given by the
    jitter drawn for it) expires after a [connect_error], and a last
    [connect_error] follows. *)
Definition failures (rnds : list Q) (last : Q) : list (Env * Input) :=
  (rnds ≫= failed_attempt) ++ [(calm last, OnConnectError "timeout")].


(** ** Teardown and further readings of the trace (socket.js, "CLEANUP") *)

(** [destroy()]: [disconnect()], [eventCallbacks.clear()], then
    [clearInterval(this.pollingInterval)] when that field is truthy (an
    interval handle other than 0).  Reconnect timeouts are not touched. *)
Definition destroy (s : SocketManager) : SocketManager :=
  let s1 := set_eventCallbacks ∅ (disconnect s) in
  match pollingInterval s1 with
  | Some handle => if decide (handle = 0) then s1 else clearInterval handle s1
  | None => s1
  end.

(** The number of calls of [io({...})]. *)
Definition io_calls (t : list Effect) : nat :=
  length (omap (λ e, match e with IoOpen => Some e | _ => None end) t).

(** The number of calls of [this.socket.connect()]. *)
Definition connect_calls (t : list Effect) : nat :=
  length (omap (λ e, match e with SocketConnect => Some e | _ => None end) t).

(** All callback invocations, with the event and the payload of each. *)
Definition invocations (t : list Effect) : list (CallbackId * string * Payload) :=
  omap (λ e, match e with Invoke cb event data => Some (cb, event, data) | _ => None end) t.

(** [Math.random()] answers with a number in [0, 1). *)
Definition fair (env : Env) : Prop := (0 <= random env)%Q ∧ (random env < 1)%Q.

(** A delay between the base delay and the cap plus the largest jitter, both
    included. *)
Definition in_backoff_range (delay : Q) : Prop := (1000 <= delay)%Q ∧ (delay <= 31000)%Q.

(** What holds of the manager's fields whenever the event loop is idle. *)
Definition well_formed (s : SocketManager) : Prop :=
  (isConnected s = true → socket s = true) ∧
  maxReconnectAttempts s = 10 ∧ reconnectDelay s = 1000%Q ∧
  (pollingInterval s = None → intervals s = []).

(** [io] is not available (the library failed to load): every call raises. *)
Definition no_io (rnd : Q) : Env :=
  {| random := rnd; io_throws := true; socket_on_throws := false;
     socket_connect_throws := false |}.

(** Every reconnect timeout set so far, and every pending one, is in range. *)
Definition delays_in_range (s : SocketManager) : Prop :=
  Forall in_backoff_range (timeouts (trace s)) ∧ Forall in_backoff_range (timers s).

(** The reconnect timeouts expire one after the other while [io] keeps raising. *)
Definition io_retries (rnds : list Q) : list (Env * Input) :=
  (λ rnd, (no_io rnd, TimerFires 0)) <$> rnds.

(** Between [s] and [s'] nothing is registered and no callback was invoked. *)
Definition mute_after (s s' : SocketManager) : Prop :=
  eventCallbacks s' = ∅ ∧ invocations (trace s') = invocations (trace s).

(** ** Binary64 arithmetic *)

(** JavaScript numbers are IEEE 754 doubles: every arithmetic operation
    returns the double nearest to the exact result, ties going to the even
    significand.  The definitions below round a rational number to 53
    significant bits in this way; the exponent is not bounded, so they
    describe the doubles as long as nothing overflows or becomes subnormal. *)
Module Binary64.

(** The exponent [k] of the binade of a positive number:
    [2 ^ k <= x < 2 ^ (k + 1)]. *)
Definition binade (x : Q) : Z :=
  let k := (Z.log2 (Qnum x) - Z.log2 (Zpos (Qden x)))%Z in
  if Qle_bool (2 ^ k)%Q x then k else (k - 1)%Z.

(** The nearest integer, ties to even. *)
Definition nearest_even (x : Q) : Z :=
  let f := Qfloor x in
  match (x - inject_Z f ?= 1 # 2)%Q with
  | Lt => f
  | Gt => (f + 1)%Z
  | Eq => if Z.even f then f else (f + 1)%Z
  end.

(** A positive number rounded to 53 significant bits. *)
Definition round_positive (x : Q) : Q :=
  let e := (binade x - 52)%Z in
  (inject_Z (nearest_even (x / 2 ^ e)) * 2 ^ e)%Q.

(** The double nearest to [x]. *)
Definition double (x : Q) : Q :=
  match (x ?= 0)%Q with
  | Gt => round_positive x
  | Eq => 0%Q
  | Lt => (- round_positive (- x))%Q
  end.

(** The finite doubles: a significand of at most 53 bits and an exponent
    between -1074 and 971. *)
Definition representable (x : Q) : Prop :=
  ∃ m e : Z, (Z.abs m < 2 ^ 53)%Z ∧ (-1074 ≤ e ≤ 971)%Z ∧ (x == inject_Z m * 2 ^ e)%Q.

(** What the proofs use of a rounding [fl]: it keeps the order, and it
    returns every double unchanged.  Both hold of the rounding of IEEE
    arithmetic, whatever its direction, and of [double]. *)
Definition monotone (fl : Q → Q) : Prop :=
  ∀ x y, (x <= y)%Q → (fl x <= fl y)%Q.

Definition rounding (fl : Q → Q) : Prop :=
  monotone fl ∧ ∀ x, representable x → (fl x == x)%Q.

End Binary64.

(** [calculateReconnectDelay()] on floating-point numbers: the expression of
    [calculateReconnectDelay] with the result of [Math.pow], of both
    products and of the sum rounded by [fl] ([Math.min] and the constants
    need no rounding).  [Math.pow] is taken to return the double nearest to
    the power.  Where the power overflows, the source goes on with
    [Infinity] and the model with a large number; [Math.min] cuts both to
    30000. *)
Definition calculateReconnectDelay_rounded (fl : Q → Q) (rnd : Q) (s : SocketManager) : Q :=
  let baseDelay :=
    Qmin (fl (reconnectDelay s * fl (Qpower (3 # 2) (Z.of_nat (reconnectAttempts s)))))%Q
      30000%Q in
  let jitter := fl (rnd * 1000)%Q in
  fl (baseDelay + jitter)%Q.

(** ** MuseBotDashboard.executeCommand (script.js, "COMMAND EXECUTION") *)

Module MuseBotDashboard.

(** What the dashboard does to the page, the network and the console. *)
Inductive Effect :=
| ShowNotification (message : option string) (type : string)
| HttpPost (url contentType command : string)  (* body: JSON.stringify({ command }) *)
| ConsoleError (msg : string).

(** The fields [executeCommand] reads, and what it has done so far. *)
Record Dashboard := { isConnected : bool; effects : list Effect }.

Definition perform (e : Effect) (d : Dashboard) : Dashboard :=
  {| isConnected := isConnected d; effects := effects d ++ [e] |}.

(** How [fetch('/api/execute', ...)] and [response.json()] settle. *)
Inductive ExecuteResult :=
| FetchRejects                                   (* the fetch promise rejects *)
| JsonRejects                                    (* response.json() rejects *)
| JsonNull                                       (* the body is null: data.message raises *)
| JsonData (message : option string) (success : bool). (* success: truthiness of data.success *)

Inductive Outcome :=
| Returned (d : Dashboard)
| Raised (d : Dashboard).

(** The [try] block. *)
Definition execute_try (command : string) (r : ExecuteResult) (d : Dashboard) : Outcome :=
  let d1 := perform (HttpPost "/api/execute" "application/json" command) d in
  match r with
  | FetchRejects | JsonRejects | JsonNull => Raised d1
  | JsonData message success =>
      Returned (perform (ShowNotification message (if success then "success" else "error")) d1)
  end.

Definition executeCommand (command : string) (r : ExecuteResult) (d : Dashboard) : Outcome :=
  if negb (isConnected d) then
    Returned (perform (ShowNotification (Some "Not connected to bot") "error") d)
  else
    match execute_try command r d with
    | Returned d' => Returned d'
    | Raised d' =>
        Returned (perform (ShowNotification (Some "Failed to execute command") "error")
                    (perform (ConsoleError "Command execution failed:") d'))
    end.

(** The HTTP requests issued: URL and command of each POST. *)
Definition requests (t : list Effect) : list (string * string) :=
  omap (λ e, match e with HttpPost url _ command => Some (url, command) | _ => None end) t.

(** The notifications shown: message and type. *)
Definition notifications (t : list Effect) : list (option string * string) :=
  omap (λ e, match e with ShowNotification m type => Some (m, type) | _ => None end) t.

(** The final state of a call. *)
Definition final (o : Outcome) : Dashboard :=
  match o with Returned d | Raised d => d end.

End MuseBotDashboard.

(** ** The page around the dashboard (script.js) *)

Module Page.

(** [str.replace(pat, '')] with a string pattern: the first occurrence of
    [pat] is removed. *)
Fixpoint skip (n : nat) (s : string) : string :=
  match n, s with
  | S n', String _ rest => skip n' rest
  | _, _ => s
  end.

Fixpoint replace_first (pat s : string) : string :=
  if String.prefix pat s then skip (String.length pat) s
  else match s with
       | EmptyString => EmptyString
       | String c rest => String c (replace_first pat rest)
       end.

(** [str.replace(/'/g, '')]: every apostrophe is removed. *)
Fixpoint remove_apostrophes (s : string) : string :=
  match s with
  | EmptyString => EmptyString
  | String c rest =>
      if Ascii.eqb c "'"%char then remove_apostrophes rest
      else String c (remove_apostrophes rest)
  end.

(** Whether [pat] occurs in [s]. *)
Fixpoint occurs (pat s : string) : bool :=
  String.prefix pat s ||
  match s with
  | EmptyString => false
  | String _ rest => occurs pat rest
  end.

(** The command the click listener of an [.action-button] derives from the
    button's [onclick] attribute:
    [action.replace('onclick=', '').replace(/'/g, '')]. *)
Definition button_command (action : string) : string :=
  remove_apostrophes (replace_first "onclick=" action).

(** What the browser answers while the page loads. *)
Record Browser := {
  storage_throws : bool;       (* localStorage.getItem raises *)
  io_throws : bool;            (* io({...}) raises *)
  has_indicator : bool         (* an element 'connectionIndicator' exists *)
}.

Inductive PageEffect :=
| ConsoleLog (msg : string)
| ConsoleError (msg : string)
| SetInterval (period : Z)                 (* setInterval(() => fetchStats(), period) *)
| FetchStats                               (* fetchStats() is called *)
| Uncaught (msg : string).                 (* an exception nobody caught *)

Record Page := {
  instance : MuseBotDashboard.Dashboard;   (* the object the listeners close over *)
  listeners : bool;                        (* setupEventListeners() has run *)
  themed : bool;                           (* setupTheme() has run *)
  socket : bool;                           (* this.socket is set, its handlers registered *)
  indicator : option bool;                 (* what 'connectionIndicator' was last told *)
  window_dashboard : bool;                 (* window.dashboard holds the instance *)
  page_log : list PageEffect
}.

Definition say (e : PageEffect) (p : Page) : Page :=
  {| instance := instance p; listeners := listeners p; themed := themed p;
     socket := socket p; indicator := indicator p;
     window_dashboard := window_dashboard p; page_log := page_log p ++ [e] |}.

Definition with_instance (d : MuseBotDashboard.Dashboard) (p : Page) : Page :=
  {| instance := d; listeners := listeners p; themed := themed p;
     socket := socket p; indicator := indicator p;
     window_dashboard := window_dashboard p; page_log := page_log p |}.

(** The page before [DOMContentLoaded]: the fields of [constructor()]. *)
Definition blank : Page :=
  {| instance := {| MuseBotDashboard.isConnected := false; MuseBotDashboard.effects := [] |};
     listeners := false; themed := false; socket := false; indicator := None;
     window_dashboard := false; page_log := [] |}.

Inductive Outcome :=
| Returned (p : Page)
| Raised (error : string) (p : Page).

(** [connectWebSocket()]: the [try] covers [io] and the registrations; the
    [catch] starts the polling fallback. *)
Definition connectWebSocket (b : Browser) (p : Page) : Page :=
  if io_throws b then
    say (SetInterval 5000)
      (say (ConsoleLog "Setting up polling fallback...")
         (say (ConsoleError "WebSocket connection failed:") p))
  else
    {| instance := instance p; listeners := listeners p; themed := themed p;
       socket := true; indicator := indicator p;
       window_dashboard := window_dashboard p; page_log := page_log p |}.

(** [init()]: [setupEventListeners()], [setupSidebar()] (DOM only),
    [setupTheme()], [connectWebSocket()], [loadInitialData()].  The class
    defines no method [loadInitialData], so the call [this.loadInitialData()]
    raises a TypeError; the [console.log] after it is never reached. *)
Definition init (b : Browser) (p : Page) : Outcome :=
  let p1 := {| instance := instance p; listeners := true; themed := themed p;
               socket := socket p; indicator := indicator p;
               window_dashboard := window_dashboard p; page_log := page_log p |} in
  if storage_throws b then Raised "SecurityError" p1
  else
    let p2 := {| instance := instance p1; listeners := listeners p1; themed := true;
                 socket := socket p1; indicator := indicator p1;
                 window_dashboard := window_dashboard p1; page_log := page_log p1 |} in
    let p3 := connectWebSocket b p2 in
    Raised "TypeError: this.loadInitialData is not a function" p3.

(** The [DOMContentLoaded] listener: [window.dashboard = new MuseBotDashboard()].
    The assignment happens only if the constructor returns. *)
Definition domContentLoaded (b : Browser) : Page :=
  match init b blank with
  | Returned p =>
      {| instance := instance p; listeners := listeners p; themed := themed p;
         socket := socket p; indicator := indicator p;
         window_dashboard := true; page_log := page_log p |}
  | Raised error p => say (Uncaught error) p
  end.

(** The global [executeCommand(command)] of the HTML [onclick] attributes. *)
Definition executeCommand (command : string) (r : MuseBotDashboard.ExecuteResult)
    (p : Page) : Page :=
  if window_dashboard p then
    with_instance
      (MuseBotDashboard.final (MuseBotDashboard.executeCommand command r (instance p))) p
  else p.

(** The click listener [setupEventListeners] puts on an [.action-button];
    [onclick] is the button's attribute ([None] when it has none). *)
Definition click_action_button (onclick : option string)
    (r : MuseBotDashboard.ExecuteResult) (p : Page) : Page :=
  if listeners p then
    match onclick with
    | Some action =>
        if String.eqb action "" then p
        else with_instance
               (MuseBotDashboard.final
                  (MuseBotDashboard.executeCommand (button_command action) r (instance p)))
               p
    | None => p
    end
  else p.

(** The events of the dashboard's own socket. *)
Inductive SocketEvent :=
| Connect
| Disconnect
| CommandResult (message : option string) (success : bool)
| SocketError
| StatsUpdate                  (* its DOM updates are not part of the model *)
| ActivityUpdate.              (* its DOM updates are not part of the model *)

(** [updateConnectionStatus(connected)]. *)
Definition updateConnectionStatus (b : Browser) (connected : bool) (p : Page) : Page :=
  if has_indicator b then
    {| instance := instance p; listeners := listeners p; themed := themed p;
       socket := socket p; indicator := Some connected;
       window_dashboard := window_dashboard p; page_log := page_log p |}
  else p.

Definition set_connected (v : bool) (p : Page) : Page :=
  with_instance {| MuseBotDashboard.isConnected := v;
                   MuseBotDashboard.effects := MuseBotDashboard.effects (instance p) |} p.

(** The handlers registered by [connectWebSocket]; they exist only when the
    socket does. *)
Definition on_socket_event (b : Browser) (ev : SocketEvent) (p : Page) : Page :=
  if socket p then
    match ev with
    | Connect =>
        updateConnectionStatus b true
          (set_connected true (say (ConsoleLog "Connected to server via WebSocket") p))
    | Disconnect =>
        updateConnectionStatus b false
          (set_connected false (say (ConsoleLog "Disconnected from server") p))
    | CommandResult message success =>
        with_instance
          (MuseBotDashboard.perform
             (MuseBotDashboard.ShowNotification message
                (if success then "success" else "error")) (instance p)) p
    | SocketError =>
        with_instance
          (MuseBotDashboard.perform
             (MuseBotDashboard.ShowNotification (Some "Connection error") "error")
             (instance p))
          (say (ConsoleError "WebSocket error:") p)
    | StatsUpdate | ActivityUpdate => p
    end
  else p.

Definition socket_events (b : Browser) (evs : list SocketEvent) (p : Page) : Page :=
  foldl (λ p' ev, on_socket_event b ev p') p evs.

(** Whether an event is one of the two that report the connection. *)
Definition reports_connection (ev : SocketEvent) : bool :=
  match ev with Connect | Disconnect => true | _ => false end.

(** [refreshCommands()]: [fetchStats()] and a notification, through
    [window.dashboard]. *)
Definition refreshCommands (p : Page) : Page :=
  if window_dashboard p then
    with_instance
      (MuseBotDashboard.perform
         (MuseBotDashboard.ShowNotification (Some "Commands refreshed") "success")
         (instance p))
      (say FetchStats p)
  else p.

(** What can happen on the page once it has loaded. *)
Inductive Action :=
| Socket (ev : SocketEvent)                                   (* an event of the socket *)
| Click (onclick : option string) (r : MuseBotDashboard.ExecuteResult)
                                                              (* the click listener of a button *)
| Inline (command : string) (r : MuseBotDashboard.ExecuteResult)
                                                              (* executeCommand(...) of an onclick attribute *)
| Refresh.                                                    (* refreshCommands() *)

Definition act (b : Browser) (a : Action) (p : Page) : Page :=
  match a with
  | Socket ev => on_socket_event b ev p
  | Click onclick r => click_action_button onclick r p
  | Inline command r => executeCommand command r p
  | Refresh => refreshCommands p
  end.

(** The page after loading and a series of actions. *)
Definition session (b : Browser) (actions : list Action) : Page :=
  foldl (λ p a, act b a p) (domContentLoaded b) actions.

(** The connection an event reports. *)
Definition connected_by (ev : SocketEvent) : bool :=
  match ev with Connect => true | _ => false end.

(** A page without a socket: nothing is connected, published or sent. *)
Definition offline (p : Page) : Prop :=
  socket p = false
  ∧ window_dashboard p = false
  ∧ MuseBotDashboard.isConnected (instance p) = false
  ∧ MuseBotDashboard.requests (MuseBotDashboard.effects (instance p)) = [].

End Page.

(** ** The animated counters of the dashboard (script.js, [animateValue]) *)

Module Counter.

(** The closure of one [animateValue(element, start, end, duration)] call:
    its [startTimestamp] ([None] for [null]), the number last written to the
    element and whether a frame is requested. *)
Record Animation := {
  startTimestamp : option Q;
  shown : option Z;
  pending : bool
}.

(** Right after [animateValue] has requested its first frame. *)
Definition begun : Animation :=
  {| startTimestamp := None; shown := None; pending := true |}.

(** The callback [step(timestamp)], on floating-point numbers: [fl] rounds
    the result of each subtraction, division, product and sum.
    [!startTimestamp] holds for [null] and for 0. *)
Definition step (fl : Q → Q) (start end_ : Z) (duration timestamp : Q)
    (a : Animation) : Animation :=
  let st := match startTimestamp a with
            | Some t => if Qeq_bool t 0 then timestamp else t
            | None => timestamp
            end in
  let progress := Qmin (fl (fl (timestamp - st) / duration))%Q 1 in
  let value :=
    Qfloor (fl (fl (progress * fl (inject_Z end_ - inject_Z start)) + inject_Z start))%Q in
  {| startTimestamp := Some st; shown := Some value;
     pending := negb (Qle_bool 1 progress) |}.

(** The frames the browser delivers, at the given timestamps; the callback
    runs only while a frame is requested. *)
Definition frames (fl : Q → Q) (start end_ : Z) (duration : Q) (timestamps : list Q)
    (a : Animation) : Animation :=
  foldl (λ a' t, if pending a' then step fl start end_ duration t a' else a') a timestamps.

(** A number between [start] and [end_], whichever is larger. *)
Definition between (start end_ v : Z) : Prop :=
  (start ≤ v ≤ end_)%Z ∨ (end_ ≤ v ≤ start)%Z.

(** What holds of an animation after each of its frames: it remembers its
    first timestamp, it shows a number between [start] and [end_], and if no
    further frame is requested that number is [end_]. *)
Definition on_course (start end_ : Z) (t0 : Q) (a : Animation) : Prop :=
  startTimestamp a = Some t0 ∧
  ∃ v, shown a = Some v ∧ between start end_ v ∧ (pending a = false → v = end_).

End Counter.

(** ** ChartManager (charts.js) *)

Module ChartManager.

(** [datasets[0].data] of the two charts that are updated; [None] when the
    canvas of a chart is missing and the chart was not created. *)
Record Charts := {
  commandChart : option (list Q);
  growthChart : option (list Q)
}.

(** [createCharts()] with its placeholder data. *)
Definition createCharts (has_command has_growth : bool) : Charts :=
  {| commandChart :=
       if has_command then Some (inject_Z <$> [65; 59; 80; 81; 56; 55]%Z) else None;
     growthChart :=
       if has_growth then Some (inject_Z <$> [65; 78; 90; 81; 96; 105; 120]%Z) else None |}.

(** [Math.floor(Math.random() * span) + lo]. *)
Definition draw (lo span : Z) (rnd : Q) : Q :=
  inject_Z (Qfloor (rnd * inject_Z span) + lo).

(** [updateChartsWithRandomData()]; [random i] is what the [i]-th call of
    [Math.random()] of this update returns.  The command chart draws one
    number per point, then the growth chart draws one. *)
Definition updateChartsWithRandomData (random : nat → Q) (c : Charts) : Charts :=
  let calls := match commandChart c with Some data => length data | None => 0 end in
  {| commandChart := (λ data, imap (λ i _, draw 20 100 (random i)) data) <$> commandChart c;
     growthChart :=
       (λ data, drop 1 data ++ [draw 80 50 (random calls)]) <$> growthChart c |}.

(** [updateChartsWithRealData(stats)]: a series present in [stats] replaces
    the data of its chart (an empty array is truthy and replaces it too). *)
Definition updateChartsWithRealData (command_usage growth_data : option (list Q))
    (c : Charts) : Charts :=
  {| commandChart :=
       match commandChart c, command_usage with
       | Some _, Some data => Some data
       | chart, _ => chart
       end;
     growthChart :=
       match growthChart c, growth_data with
       | Some _, Some data => Some data
       | chart, _ => chart
       end |}.

(** The ticks of [setupChartUpdates], one oracle per tick. *)
Definition ticks (randoms : list (nat → Q)) (c : Charts) : Charts :=
  foldl (λ c' random, updateChartsWithRandomData random c') c randoms.

(** An oracle that answers in [0, 1). *)
Definition fair (random : nat → Q) : Prop := ∀ i, (0 <= random i)%Q ∧ (random i < 1)%Q.

(** An integer between [lo] and [hi]. *)
Definition integer_in (lo hi : Z) (q : Q) : Prop :=
  ∃ z, q = inject_Z z ∧ (lo ≤ z ≤ hi)%Z.

End ChartManager.

(** * Properties *)

(** ** The registry *)

Section registry_facts.
Implicit Types (cb : CallbackId) (l : list CallbackId)
               (reg : gmap string (list CallbackId)).

Lemma indexOf_absent cb l : cb ∉ l → indexOf cb l = (-1)%Z.
Proof.
  induction l as [|c l IH]; [done|].
  intros Hnin. apply not_elem_of_cons in Hnin as [Hne Hnin].
  simpl. rewrite decide_False by congruence. by rewrite (IH Hnin).
Qed.

Lemma indexOf_first cb l1 l2 :
  cb ∉ l1 → indexOf cb (l1 ++ cb :: l2) = Z.of_nat (length l1).
Proof.
  induction l1 as [|c l1 IH]; intros Hnin; simpl.
  - by rewrite decide_True.
  - apply not_elem_of_cons in Hnin as [Hne Hnin].
    rewrite decide_False by congruence. rewrite (IH Hnin).
    destruct (Z.gtb_spec (Z.of_nat (length l1)) (-1)); lia.
Qed.

Lemma splice1_first cb l1 l2 :
  splice1 (Z.of_nat (length l1)) (l1 ++ cb :: l2) = l1 ++ l2.
Proof.
  unfold splice1. rewrite Nat2Z.id. induction l1 as [|c l1 IH]; [done|].
  simpl. by rewrite IH.
Qed.

Lemma registrations_app cb l1 l2 :
  registrations cb (l1 ++ l2) = registrations cb l1 + registrations cb l2.
Proof. unfold registrations. by rewrite filter_app, length_app. Qed.

Lemma registrations_absent cb l : cb ∉ l → registrations cb l = 0.
Proof.
  unfold registrations. induction l as [|c l IH]; [done|].
  intros Hnin. apply not_elem_of_cons in Hnin as [Hne Hnin].
  rewrite filter_cons_False by congruence. auto.
Qed.

Lemma others_middle cb l1 l2 : others cb (l1 ++ cb :: l2) = others cb (l1 ++ l2).
Proof.
  unfold others. rewrite !filter_app. f_equal.
  rewrite filter_cons_False; [done|]. intros H. by apply H.
Qed.
End registry_facts.

Lemma on_lookup event cb (reg : gmap string (list CallbackId)) :
  on event cb reg !! event = Some (default [] (reg !! event) ++ [cb]).
Proof.
  unfold on. case_decide as Hs.
  - destruct Hs as [l Hl]. rewrite Hl. simpl. by rewrite lookup_insert_eq.
  - apply eq_None_not_Some in Hs. rewrite Hs, lookup_insert_eq. simpl.
    by rewrite lookup_insert_eq.
Qed.

Lemma on_lookup_ne event event' cb (reg : gmap string (list CallbackId)) :
  event ≠ event' → on event cb reg !! event' = reg !! event'.
Proof.
  intros Hne. unfold on. case_decide as Hs.
  - destruct Hs as [l Hl]. rewrite Hl. by rewrite lookup_insert_ne.
  - rewrite lookup_insert_eq. by rewrite !lookup_insert_ne.
Qed.

Lemma off_lookup_ne event event' cb (reg : gmap string (list CallbackId)) :
  event ≠ event' → off event cb reg !! event' = reg !! event'.
Proof.
  intros Hne. unfold off. destruct (reg !! event) as [l|]; [|done].
  destruct (indexOf cb l >? -1)%Z; [|done]. by rewrite lookup_insert_ne.
Qed.

Lemma off_absent event cb (reg : gmap string (list CallbackId)) :
  cb ∉ default [] (reg !! event) → off event cb reg = reg.
Proof.
  unfold off. destruct (reg !! event) as [l|]; [|done]. simpl.
  intros Hnin. by rewrite (indexOf_absent _ _ Hnin).
Qed.

Lemma off_first event cb (reg : gmap string (list CallbackId)) l1 l2 :
  reg !! event = Some (l1 ++ cb :: l2) → cb ∉ l1 →
  off event cb reg = <[event := l1 ++ l2]> reg.
Proof.
  intros Hl Hnin. unfold off. rewrite Hl, (indexOf_first _ _ _ Hnin).
  destruct (Z.gtb_spec (Z.of_nat (length l1)) (-1)); [|lia].
  by rewrite splice1_first.
Qed.

Lemma registrations_zero cb l : registrations cb l = 0 → cb ∉ l.
Proof.
  unfold registrations. intros Hz Hin.
  apply length_zero_iff_nil in Hz.
  by apply (filter_nil_not_elem_of _ l cb Hz).
Qed.

(** C5.  [off(event, callback)] on a registry where the callback is registered
    [k + 1] times for the event removes the first of these registrations and
    nothing else: the array keeps its order, [k] registrations of the callback
    remain and the other callbacks are untouched, as are the arrays of the
    other events.  With no registration of the callback for the event
    (whether the event is known or not) the registry is returned unchanged.
    [on] appends without looking for duplicates. *)
Theorem off_removes_first_instance event cb (reg : gmap string (list CallbackId)) :
  (∀ l k, reg !! event = Some l → registrations cb l = S k →
     ∃ l1 l2, (l = l1 ++ cb :: l2) ∧ (cb ∉ l1) ∧
       off event cb reg = <[event := l1 ++ l2]> reg ∧
       registrations cb (l1 ++ l2) = k ∧
       others cb (l1 ++ l2) = others cb l) ∧
  (registrations cb (default [] (reg !! event)) = 0 → off event cb reg = reg) ∧
  (∀ event', event ≠ event' → off event cb reg !! event' = reg !! event') ∧
  on event cb reg !! event = Some (default [] (reg !! event) ++ [cb]).
Proof.
  split_and!.
  - intros l k Hl Hk.
    assert (cb ∈ l) as Hin.
    { destruct (decide (cb ∈ l)) as [|Hnin]; [done|].
      apply registrations_absent in Hnin. congruence. }
    apply list_elem_of_split_l in Hin as (l1 & l2 & -> & Hnin).
    exists l1, l2. split_and!; [done|done| | |].
    + by apply off_first.
    + rewrite registrations_app in Hk |- *.
      unfold registrations in Hk |- *. rewrite filter_cons_True in Hk by done.
      simpl in Hk. lia.
    + by rewrite others_middle.
  - intros Hz. apply off_absent. by apply registrations_zero.
  - intros event' Hne. by apply off_lookup_ne.
  - apply on_lookup.
Qed.

Lemma off_removes_first_instance_witness :
  let reg : gmap string (list CallbackId) := {[ "stats_update" := [7; 3; 7; 5; 7] ]} in
  reg !! "stats_update" = Some [7; 3; 7; 5; 7] ∧
  registrations 7 [7; 3; 7; 5; 7] = 3 ∧
  off "stats_update" 7 reg = {[ "stats_update" := [3; 7; 5; 7] ]}.
Proof.
  intros reg. split_and!; [reflexivity|reflexivity|].
  destruct (off_removes_first_instance "stats_update" 7 reg) as (Hoff & _).
  destruct (Hoff [7; 3; 7; 5; 7] 2) as (l1 & l2 & Hl & Hnin & -> & _);
    [reflexivity|reflexivity|].
  destruct l1 as [|c l1].
  - injection Hl as <-. subst reg. by rewrite insert_singleton_eq.
  - injection Hl as <- _. exfalso. apply Hnin. left.
Defined.

(** ** Dispatch *)

Section dispatch_facts.
Variable handlers : Handlers.

Lemma same_machine_refl s : same_machine s s.
Proof. by unfold same_machine. Qed.

Lemma same_machine_trans s1 s2 s3 :
  same_machine s1 s2 → same_machine s2 s3 → same_machine s1 s3.
Proof. unfold same_machine. intuition congruence. Qed.

Lemma since_app s s' t : trace s' = trace s ++ t → since s s' = t.
Proof. unfold since. intros ->. by rewrite drop_app_length. Qed.

Lemma visits_cons event data cb l :
  visits handlers event data (cb :: l) =
  visits handlers event data [cb] ++ visits handlers event data l.
Proof. unfold visits. simpl. by rewrite app_nil_r. Qed.

Lemma guarded_callback_trace cb event data s :
  trace (guarded_callback handlers cb event data s) =
  trace s ++ visits handlers event data [cb].
Proof.
  unfold guarded_callback, call_callback, visits. simpl.
  destruct (raises (handlers cb data)); simpl; by rewrite <- ?app_assoc.
Qed.

Lemma guarded_callback_registry cb event data s :
  eventCallbacks (guarded_callback handlers cb event data s) =
  foldl runCall (eventCallbacks s) (calls (handlers cb data)).
Proof.
  unfold guarded_callback, call_callback.
  by destruct (raises (handlers cb data)).
Qed.

Lemma guarded_callback_same cb event data s :
  same_machine s (guarded_callback handlers cb event data s).
Proof.
  unfold guarded_callback, call_callback, same_machine.
  by destruct (raises (handlers cb data)).
Qed.

Lemma forEach_live_frame n : ∀ k event data s,
  same_machine s (forEach_live handlers n k event data s) ∧
  ∃ visited, trace (forEach_live handlers n k event data s) =
             trace s ++ visits handlers event data visited.
Proof.
  induction n as [|n IH]; intros k event data s; simpl.
  - split; [apply same_machine_refl|]. exists []. by rewrite app_nil_r.
  - destruct (eventCallbacks s !! event) as [l|]; [destruct (l !! k) as [cb|]|];
      try apply IH.
    destruct (IH (S k) event data (guarded_callback handlers cb event data s))
      as (Hsame & visited & Ht).
    split.
    + eapply same_machine_trans; [apply guarded_callback_same|exact Hsame].
    + exists (cb :: visited).
      rewrite Ht, guarded_callback_trace, (visits_cons _ _ cb visited).
      by rewrite <- app_assoc.
Qed.

Lemma triggerEvent_frame event data s :
  same_machine s (triggerEvent handlers event data s) ∧
  ∃ visited, trace (triggerEvent handlers event data s) =
             trace s ++ Dispatch event data :: visits handlers event data visited.
Proof.
  unfold triggerEvent. simpl.
  destruct (eventCallbacks s !! event) as [l|].
  - destruct (forEach_live_frame (length l) 0 event data (log (Dispatch event data) s))
      as (Hsame & visited & Ht).
    split; [eapply same_machine_trans; [|exact Hsame]; by unfold same_machine|].
    exists visited. rewrite Ht. simpl. by rewrite <- app_assoc.
  - split; [by unfold same_machine|]. by exists [].
Qed.

(** Registry calls other than [off(event, _)] keep what an array of [event]
    already holds, in place. *)
Lemma runCalls_keep_prefix event l cs : ∀ (reg : gmap string (list CallbackId)) ext,
  reg !! event = Some (l ++ ext) →
  (∀ cb', CallOff event cb' ∉ cs) →
  ∃ ext', foldl runCall reg cs !! event = Some (l ++ ext').
Proof.
  induction cs as [|c cs IH]; intros reg ext Hreg Hoff; simpl; [by exists ext|].
  assert (∀ cb', CallOff event cb' ∉ cs) as Hoff'.
  { intros cb' Hin. apply (Hoff cb'). by right. }
  destruct c as [e cb|e cb]; simpl.
  - destruct (decide (e = event)) as [->|Hne].
    + apply (IH _ (ext ++ [cb])); [|done].
      rewrite on_lookup, Hreg. simpl. by rewrite app_assoc.
    + apply (IH _ ext); [|done]. by rewrite on_lookup_ne.
  - destruct (decide (e = event)) as [->|Hne].
    + exfalso. apply (Hoff cb). by left.
    + apply (IH _ ext); [|done]. by rewrite off_lookup_ne.
Qed.

Lemma forEach_live_visits_all event data l n : ∀ k s ext,
  eventCallbacks s !! event = Some (l ++ ext) →
  k + n = length l →
  (∀ cb, cb ∈ l → keeps_subscriptions handlers event data cb) →
  trace (forEach_live handlers n k event data s) =
  trace s ++ visits handlers event data (drop k l).
Proof.
  induction n as [|n IH]; intros k s ext Hreg Hlen Hkeep; simpl.
  - rewrite drop_ge by lia. by rewrite app_nil_r.
  - rewrite Hreg.
    destruct (lookup_lt_is_Some_2 l k) as [cb Hcb]; [lia|].
    rewrite (lookup_app_l_Some _ _ _ _ Hcb).
    assert (cb ∈ l) as Hin by (apply list_elem_of_lookup; eauto).
    destruct (runCalls_keep_prefix event l (calls (handlers cb data))
                (eventCallbacks s) ext Hreg (Hkeep cb Hin)) as [ext' Hreg'].
    rewrite (IH (S k) _ ext'); [| |lia|done].
    + rewrite guarded_callback_trace, (drop_S _ _ _ Hcb).
      rewrite (visits_cons _ _ cb (drop (S k) l)). by rewrite <- app_assoc.
    + by rewrite guarded_callback_registry.
Qed.

End dispatch_facts.

(** C4, as amended.  When no callback registered for the event unsubscribes a
    callback of that event while the dispatch runs, [triggerEvent] invokes
    every registered callback once, with the payload, in registration order;
    a callback that raises is followed by the console line of the [catch] and
    then by the next callback.  Nothing else is added to the trace and no
    other field of the manager changes. *)
Theorem triggerEvent_invokes_all handlers event data s l :
  eventCallbacks s !! event = Some l →
  (∀ cb, cb ∈ l → keeps_subscriptions handlers event data cb) →
  since s (triggerEvent handlers event data s) =
    Dispatch event data :: visits handlers event data l ∧
  invoked event (since s (triggerEvent handlers event data s)) = l ∧
  same_machine s (triggerEvent handlers event data s).
Proof.
  intros Hreg Hkeep.
  assert (since s (triggerEvent handlers event data s) =
          Dispatch event data :: visits handlers event data l) as Hsince.
  { apply since_app. unfold triggerEvent. simpl. rewrite Hreg.
    rewrite (forEach_live_visits_all handlers event data l (length l) 0 _ []);
      [|by simpl; rewrite app_nil_r|done|done].
    simpl. by rewrite <- app_assoc. }
  split_and!; [done| |apply triggerEvent_frame].
  rewrite Hsince. simpl. clear.
  induction l as [|cb l IH]; [done|].
  rewrite (visits_cons _ _ _ cb l), (omap_app _ _ _ : invoked event (_ ++ _) = _).
  fold (invoked event (visits handlers event data l)). rewrite IH.
  unfold visits. simpl. rewrite decide_True by done.
  by destruct (raises (handlers cb data)).
Qed.

Lemma triggerEvent_invokes_all_witness :
  let s := set_eventCallbacks {[ "stats_update" := [1; 2; 3] ]} constructed in
  since s (triggerEvent second_raises "stats_update" (PData "{}") s) =
    [Dispatch "stats_update" (PData "{}");
     Invoke 1 "stats_update" (PData "{}");
     Invoke 2 "stats_update" (PData "{}"); ConsoleCallbackError "stats_update";
     Invoke 3 "stats_update" (PData "{}")] ∧
  invoked "stats_update" (since s (triggerEvent second_raises "stats_update" (PData "{}") s))
    = [1; 2; 3].
Proof.
  intros s.
  destruct (triggerEvent_invokes_all second_raises "stats_update" (PData "{}") s [1; 2; 3])
    as (Hsince & Hinv & _).
  - reflexivity.
  - intros cb _ cb'. unfold second_raises. simpl.
    case_decide; [|apply not_elem_of_nil].
    intros Hin. apply list_elem_of_singleton in Hin. discriminate.
  - split; [exact Hsince|exact Hinv].
Defined.

(** C4, as stated, fails: with callbacks [1; 2] registered, callback 1
    unsubscribing itself shifts callback 2 to index 0, which [forEach] has
    already passed; callback 2 is never invoked. *)
Lemma triggerEvent_skips_after_unsubscribe :
  let s := set_eventCallbacks {[ "stats_update" := [1; 2] ]} constructed in
  eventCallbacks s !! "stats_update" = Some [1; 2] ∧
  invoked "stats_update"
    (since s (triggerEvent first_unsubscribes "stats_update" (PData "{}") s)) = [1] ∧
  ¬ (invoked "stats_update"
       (since s (triggerEvent first_unsubscribes "stats_update" (PData "{}") s)) = [1; 2]).
Proof.
  intros s. split_and!; [reflexivity|reflexivity|].
  intros Heq. vm_compute in Heq. discriminate.
Qed.

(** ** Callbacks cannot steer the state machine *)

Section similar_facts.
Variables h1 h2 : Handlers.

Lemma silent_app t1 t2 : silent (t1 ++ t2) = silent t1 ++ silent t2.
Proof. apply filter_app. Qed.

Lemma silent_visits handlers event data l : silent (visits handlers event data l) = [].
Proof.
  induction l as [|cb l IH]; [done|].
  rewrite visits_cons, silent_app, IH. unfold visits. simpl.
  by destruct (raises (handlers cb data)).
Qed.

Lemma omap_silent {B} (f : Effect → option B) t :
  (∀ e, is_callback_effect e = true → f e = None) →
  omap f (silent t) = omap f t.
Proof.
  intros Hf. induction t as [|e t IH]; [done|].
  unfold silent in *. destruct (is_callback_effect e) eqn:He.
  - rewrite filter_cons_False by (rewrite He; discriminate).
    simpl. by rewrite (Hf e He).
  - rewrite filter_cons_True by done. simpl.
    unfold omap in IH. by rewrite IH.
Qed.


Lemma similar_refl s : similar s s.
Proof. split; [apply same_machine_refl|done]. Qed.

Lemma similar_sym s s' : similar s s' → similar s' s.
Proof. unfold similar, same_machine. intuition congruence. Qed.

Lemma similar_trans s1 s2 s3 : similar s1 s2 → similar s2 s3 → similar s1 s3.
Proof. unfold similar, same_machine. intuition congruence. Qed.

Lemma similar_log e s1 s2 :
  similar s1 s2 → similar (log e s1) (log e s2).
Proof.
  unfold similar, same_machine. simpl. rewrite !silent_app. intuition congruence.
Qed.

Lemma similar_set_socket v s1 s2 :
  similar s1 s2 → similar (set_socket v s1) (set_socket v s2).
Proof. unfold similar, same_machine. simpl. intuition congruence. Qed.

Lemma similar_set_reconnectAttempts v s1 s2 :
  similar s1 s2 → similar (set_reconnectAttempts v s1) (set_reconnectAttempts v s2).
Proof. unfold similar, same_machine. simpl. intuition congruence. Qed.

Lemma similar_set_isConnected v s1 s2 :
  similar s1 s2 → similar (set_isConnected v s1) (set_isConnected v s2).
Proof. unfold similar, same_machine. simpl. intuition congruence. Qed.

Lemma similar_set_timers v s1 s2 :
  similar s1 s2 → similar (set_timers v s1) (set_timers v s2).
Proof. unfold similar, same_machine. simpl. intuition congruence. Qed.

Lemma similar_start_interval s1 s2 :
  similar s1 s2 → similar (start_interval s1) (start_interval s2).
Proof.
  unfold similar, same_machine. simpl. rewrite !silent_app. intuition congruence.
Qed.

Lemma similar_clearInterval handle s1 s2 :
  similar s1 s2 → similar (clearInterval handle s1) (clearInterval handle s2).
Proof.
  unfold similar, same_machine. simpl. rewrite !silent_app. intuition congruence.
Qed.

Lemma triggerEvent_similar handlers event data s :
  similar (log (Dispatch event data) s) (triggerEvent handlers event data s).
Proof.
  destruct (triggerEvent_frame handlers event data s) as (Hsame & visited & Ht).
  split; [exact Hsame|].
  rewrite Ht. simpl. rewrite !silent_app.
  change (Dispatch event data :: visits handlers event data visited)
    with ([Dispatch event data] ++ visits handlers event data visited).
  by rewrite silent_app, silent_visits, app_nil_r.
Qed.

Lemma similar_triggerEvent event data s1 s2 :
  similar s1 s2 → similar (triggerEvent h1 event data s1) (triggerEvent h2 event data s2).
Proof.
  intros Hsim.
  eapply similar_trans; [apply similar_sym, triggerEvent_similar|].
  eapply similar_trans; [|apply triggerEvent_similar].
  by apply similar_log.
Qed.

End similar_facts.

Create HintDb similar.

#[local] Hint Resolve similar_refl similar_log similar_set_socket
  similar_set_reconnectAttempts similar_set_isConnected similar_set_timers
  similar_start_interval similar_clearInterval similar_triggerEvent : similar.

(** The fields that decide the manager's branches agree on similar states. *)
Ltac similar_fields H :=
  let Hs := fresh "Hfields" in
  pose proof H as Hs;
  destruct Hs as [(?Hsocket & ?Hattempts & ?Hmax & ?Hdelay & ?Hconnected & ?Hpolling
                   & ?Htimers & ?Hintervals & ?Hnext) ?Htrace].

Section similar_handlers.
Variables h1 h2 : Handlers.

Lemma similar_setupPollingFallback s1 s2 :
  similar s1 s2 → similar (setupPollingFallback h1 s1) (setupPollingFallback h2 s2).
Proof. intros. unfold setupPollingFallback. auto 6 with similar. Qed.

Lemma similar_handleReconnectFailed s1 s2 :
  similar s1 s2 → similar (handleReconnectFailed h1 s1) (handleReconnectFailed h2 s2).
Proof.
  intros. unfold handleReconnectFailed.
  apply similar_setupPollingFallback. auto with similar.
Qed.

Lemma similar_scheduleReconnect env s1 s2 :
  similar s1 s2 → similar (scheduleReconnect h1 env s1) (scheduleReconnect h2 env s2).
Proof.
  intros Hsim. similar_fields Hsim. unfold scheduleReconnect, calculateReconnectDelay.
  simpl. rewrite Hattempts, Hmax, Hdelay, Htimers.
  destruct (maxReconnectAttempts s1 <=? reconnectAttempts s1)%nat.
  - apply similar_handleReconnectFailed. auto with similar.
  - auto 6 with similar.
Qed.

Lemma similar_handleConnectionError env error s1 s2 :
  similar s1 s2 →
  similar (handleConnectionError h1 env error s1) (handleConnectionError h2 env error s2).
Proof.
  intros. unfold handleConnectionError.
  apply similar_scheduleReconnect. auto with similar.
Qed.

Lemma similar_handleConnect s1 s2 :
  similar s1 s2 →
  similar (state_of (handleConnect h1 s1)) (state_of (handleConnect h2 s2)) ∧
  throws (handleConnect h1 s1) = throws (handleConnect h2 s2).
Proof.
  intros Hsim. unfold handleConnect.
  assert (similar
    (triggerEvent h1 "connection_change" (PConnection true None)
       (set_reconnectAttempts 0 (set_isConnected true s1)))
    (triggerEvent h2 "connection_change" (PConnection true None)
       (set_reconnectAttempts 0 (set_isConnected true s2)))) as Hsim3
    by auto with similar.
  similar_fields Hsim3. rewrite Hsocket.
  clear - Hsim3. destruct (socket _); simpl; (split; [auto with similar|done]).
Qed.

Lemma similar_handleDisconnect env reason s1 s2 :
  similar s1 s2 →
  similar (handleDisconnect h1 env reason s1) (handleDisconnect h2 env reason s2).
Proof.
  intros. unfold handleDisconnect. case_decide.
  - apply similar_scheduleReconnect. auto with similar.
  - auto with similar.
Qed.

Lemma similar_connect env s1 s2 :
  similar s1 s2 → similar (connect h1 env s1) (connect h2 env s2).
Proof.
  intros. unfold connect.
  destruct (io_throws env); [|destruct (socket_on_throws env)];
    try apply similar_handleConnectionError; auto 6 with similar.
Qed.

Lemma similar_attemptReconnect env s1 s2 :
  similar s1 s2 →
  similar (state_of (attemptReconnect h1 env s1)) (state_of (attemptReconnect h2 env s2)) ∧
  throws (attemptReconnect h1 env s1) = throws (attemptReconnect h2 env s2).
Proof.
  intros Hsim. similar_fields Hsim. unfold attemptReconnect. simpl.
  rewrite Hconnected, Hsocket, Hattempts, Hmax.
  destruct (isConnected s1); [done|].
  destruct (socket s1).
  - destruct (socket_connect_throws env); simpl; (split; [auto with similar|done]).
  - simpl. split; [|done]. apply similar_connect. auto with similar.
Qed.

Lemma similar_pollForUpdates_settled r s1 s2 :
  similar s1 s2 →
  similar (pollForUpdates_settled h1 r s1) (pollForUpdates_settled h2 r s2).
Proof.
  intros. unfold pollForUpdates_settled.
  destruct r as [|[] []]; auto with similar.
Qed.

Lemma similar_step env i s1 s2 :
  similar s1 s2 → similar (step h1 env i s1) (step h2 env i s2).
Proof.
  intros Hsim. similar_fields Hsim. unfold step.
  destruct i; rewrite ?Hsocket, ?Hconnected, ?Htimers, ?Hintervals.
  - destruct (socket s1); [|done]. apply similar_handleConnect. auto with similar.
  - destruct (socket s1); [|done]. apply similar_handleDisconnect. auto with similar.
  - destruct (socket s1); [|done]. apply similar_handleConnectionError. auto with similar.
  - destruct (socket s1); [|done]. unfold handleReconnect. auto with similar.
  - destruct (socket s1); [|done]. unfold handleReconnectAttempt. auto with similar.
  - destruct (socket s1); auto with similar.
  - destruct (socket s1); [|done]. apply similar_handleReconnectFailed. auto with similar.
  - destruct (socket s1); [|done]. case_decide; auto with similar.
  - apply similar_attemptReconnect. auto with similar.
  - unfold handleOffline. auto with similar.
  - destruct (negb hidden && negb (isConnected s1)); [|done].
    by apply similar_attemptReconnect.
  - destruct (timers s1 !! k); [|done].
    apply similar_attemptReconnect. auto with similar.
  - case_decide; [|done]. unfold pollingTick, pollForUpdates. rewrite Hconnected.
    destruct (isConnected s1); auto with similar.
  - by apply similar_pollForUpdates_settled.
Qed.

Lemma similar_run inputs : ∀ s1 s2,
  similar s1 s2 → similar (run h1 inputs s1) (run h2 inputs s2).
Proof.
  induction inputs as [|[env i] inputs IH]; intros s1 s2 Hsim; [done|].
  simpl. apply IH. by apply similar_step.
Qed.

End similar_handlers.

(** ** Binary64 rounding *)

Section binary64_facts.
Import Binary64.

Lemma Qcompare_lt (p q : Q) : (p < q)%Q → Qcompare p q = Lt.
Proof. apply Qlt_alt. Qed.

Lemma Qcompare_gt (p q : Q) : (q < p)%Q → Qcompare p q = Gt.
Proof. apply Qgt_alt. Qed.

Lemma Qcompare_eq (p q : Q) : (p == q)%Q → Qcompare p q = Eq.
Proof. apply Qeq_alt. Qed.

Lemma pow2_pos (k : Z) : (0 < 2 ^ k)%Q.
Proof. by apply Qpower_0_lt. Qed.

Lemma pow2_add (a b : Z) : (2 ^ (a + b) == 2 ^ a * 2 ^ b)%Q.
Proof. apply Qpower_plus. by intros H. Qed.

Lemma pow2_le (a b : Z) : (a ≤ b)%Z → (2 ^ a <= 2 ^ b)%Q.
Proof. intros H. by apply Qpower_le_compat_l. Qed.

Lemma pow2_lt_inv (a b : Z) : (2 ^ a < 2 ^ b)%Q → (a < b)%Z.
Proof. intros H. by apply (Qpower_lt_compat_l_inv 2). Qed.

Lemma pow2_Z (a : Z) : (0 ≤ a)%Z → (inject_Z (2 ^ a) == 2 ^ a)%Q.
Proof. apply (Zpower_Qpower 2). Qed.

Lemma Qnum_den (x : Q) : (x * inject_Z (Zpos (Qden x)) == inject_Z (Qnum x))%Q.
Proof. destruct x as [n d]. unfold Qeq. cbn. rewrite Pos.mul_1_r. ring. Qed.

Lemma binade_spec (x : Q) :
  (0 < x)%Q → (2 ^ binade x <= x)%Q ∧ (x < 2 ^ (binade x + 1))%Q.
Proof.
  intros Hx.
  assert (Hn : (0 < Qnum x)%Z).
  { destruct x as [n d]. unfold Qlt in Hx. cbn in *. lia. }
  destruct (Z.log2_spec _ Hn) as [Hn1 Hn2].
  destruct (Z.log2_spec (Zpos (Qden x)) ltac:(lia)) as [Hd1 Hd2].
  pose proof (Z.log2_nonneg (Qnum x)) as Ha.
  pose proof (Z.log2_nonneg (Zpos (Qden x))) as Hb.
  set (a := Z.log2 (Qnum x)) in *. set (b := Z.log2 (Zpos (Qden x))) in *.
  rewrite Zle_Qle, pow2_Z in Hn1, Hd1 by done.
  rewrite Zlt_Qlt, pow2_Z in Hn2, Hd2 by lia.
  pose proof (Qnum_den x) as Hxd.
  set (N := inject_Z (Qnum x)) in *. set (D := inject_Z (Zpos (Qden x))) in *.
  assert (HD : (0 < D)%Q) by (pose proof (pow2_pos b); lra).
  unfold binade. fold a b.
  destruct (Qle_bool (2 ^ (a - b)) x) eqn:E.
  - apply Qle_bool_iff in E. split; [done|].
    pose proof (pow2_add (a - b + 1) b) as Hp.
    replace (a - b + 1 + b)%Z with (Z.succ a) in Hp by lia.
    pose proof (pow2_pos (a - b + 1)) as Hpos.
    apply Qnot_le_lt. intros Hle.
    assert (2 ^ (a - b + 1) * 2 ^ b <= x * D)%Q; [|lra].
    apply Qle_trans with (2 ^ (a - b + 1) * D)%Q.
    + apply Qmult_le_l; done.
    + apply Qmult_le_r; done.
  - assert (Hlt : (x < 2 ^ (a - b))%Q).
    { apply Qnot_le_lt. intros Hle%Qle_bool_iff. congruence. }
    replace (a - b - 1 + 1)%Z with (a - b)%Z by lia. split; [|done].
    pose proof (pow2_add (a - b - 1) (Z.succ b)) as Hp.
    replace (a - b - 1 + Z.succ b)%Z with a in Hp by lia.
    pose proof (pow2_pos (a - b - 1)) as Hpos.
    apply Qnot_lt_le. intros Hlt'.
    assert (x * D < 2 ^ (a - b - 1) * 2 ^ Z.succ b)%Q; [|lra].
    apply Qlt_trans with (2 ^ (a - b - 1) * D)%Q.
    + apply Qmult_lt_r; done.
    + apply Qmult_lt_l; done.
Qed.

Lemma binade_unique (k : Z) (x : Q) :
  (2 ^ k <= x)%Q → (x < 2 ^ (k + 1))%Q → binade x = k.
Proof.
  intros H1 H2.
  assert (Hx : (0 < x)%Q) by (pose proof (pow2_pos k); lra).
  destruct (binade_spec x Hx) as [H3 H4].
  assert (binade x < k + 1)%Z by (apply pow2_lt_inv; lra).
  assert (k < binade x + 1)%Z by (apply pow2_lt_inv; lra).
  lia.
Qed.

Lemma binade_le (x y : Q) : (0 < x)%Q → (x <= y)%Q → (binade x ≤ binade y)%Z.
Proof.
  intros Hx Hxy.
  destruct (binade_spec x Hx) as [H1 _].
  destruct (binade_spec y ltac:(lra)) as [_ H2].
  assert (binade x < binade y + 1)%Z by (apply pow2_lt_inv; lra).
  lia.
Qed.

Lemma nearest_even_comp (x y : Q) : (x == y)%Q → nearest_even x = nearest_even y.
Proof.
  intros H. unfold nearest_even. rewrite (Qfloor_comp _ _ H).
  assert (Hc : (x - inject_Z (Qfloor y) ?= 1 # 2)%Q = (y - inject_Z (Qfloor y) ?= 1 # 2)%Q).
  { apply Qcompare_comp; [by rewrite H|reflexivity]. }
  by rewrite Hc.
Qed.

Lemma nearest_even_Z (z : Z) : nearest_even (inject_Z z) = z.
Proof.
  unfold nearest_even. rewrite Qfloor_Z.
  assert (Hlt : (inject_Z z - inject_Z z < 1 # 2)%Q).
  { generalize (inject_Z z). intros q. lra. }
  by rewrite (Qcompare_lt _ _ Hlt).
Qed.

Lemma nearest_even_floor (x : Q) :
  (Qfloor x ≤ nearest_even x ≤ Qfloor x + 1)%Z.
Proof.
  unfold nearest_even.
  destruct (x - inject_Z (Qfloor x) ?= 1 # 2)%Q; [destruct (Z.even _)| |]; lia.
Qed.

Lemma nearest_even_le (x y : Q) : (x <= y)%Q → (nearest_even x ≤ nearest_even y)%Z.
Proof.
  intros Hxy.
  pose proof (Qfloor_resp_le _ _ Hxy) as Hf.
  destruct (Z.eq_dec (Qfloor x) (Qfloor y)) as [E|E].
  - unfold nearest_even. rewrite E. generalize (inject_Z (Qfloor y)). intros q.
    destruct (Qcompare_spec (x - q) (1 # 2)) as [H1|H1|H1];
      destruct (Qcompare_spec (y - q) (1 # 2)) as [H2|H2|H2];
      try destruct (Z.even (Qfloor y)); try lia; exfalso; lra.
  - pose proof (nearest_even_floor x). pose proof (nearest_even_floor y). lia.
Qed.

Lemma nearest_even_ge_Z (z : Z) (x : Q) : (inject_Z z <= x)%Q → (z ≤ nearest_even x)%Z.
Proof. intros H%nearest_even_le. by rewrite nearest_even_Z in H. Qed.

Lemma nearest_even_le_Z (z : Z) (x : Q) : (x <= inject_Z z)%Q → (nearest_even x ≤ z)%Z.
Proof. intros H%nearest_even_le. by rewrite nearest_even_Z in H. Qed.

(** The significand of a positive number lies between [2 ^ 52] and
    [2 ^ 53]. *)
Lemma significand_range (x : Q) :
  (0 < x)%Q →
  let e := (binade x - 52)%Z in
  (x / 2 ^ e * 2 ^ e == x)%Q ∧ (2 ^ 52 <= x / 2 ^ e)%Q ∧ (x / 2 ^ e < 2 ^ 53)%Q.
Proof.
  intros Hx e. destruct (binade_spec x Hx) as [H1 H2].
  pose proof (pow2_pos e) as He.
  assert (Hs : (x / 2 ^ e * 2 ^ e == x)%Q) by (field; lra).
  pose proof (pow2_add 52 e) as Hlo. replace (52 + e)%Z with (binade x) in Hlo by lia.
  pose proof (pow2_add 53 e) as Hhi. replace (53 + e)%Z with (binade x + 1)%Z in Hhi by lia.
  split_and!; [done| |].
  - apply Qnot_lt_le. intros Hlt.
    assert (x / 2 ^ e * 2 ^ e < 2 ^ 52 * 2 ^ e)%Q by (by apply Qmult_lt_r). lra.
  - apply Qnot_le_lt. intros Hle.
    assert (2 ^ 53 * 2 ^ e <= x / 2 ^ e * 2 ^ e)%Q by (by apply Qmult_le_r). lra.
Qed.

Lemma round_positive_range (x : Q) :
  (0 < x)%Q →
  (2 ^ binade x <= round_positive x)%Q ∧ (round_positive x <= 2 ^ (binade x + 1))%Q.
Proof.
  intros Hx. destruct (significand_range x Hx) as (_ & Hlo & Hhi).
  unfold round_positive. set (e := (binade x - 52)%Z) in *.
  pose proof (pow2_pos e) as He.
  pose proof (pow2_add 52 e) as Hlo'. replace (52 + e)%Z with (binade x) in Hlo' by lia.
  pose proof (pow2_add 53 e) as Hhi'. replace (53 + e)%Z with (binade x + 1)%Z in Hhi' by lia.
  rewrite <- (pow2_Z 52) in Hlo, Hlo' by done.
  rewrite <- (pow2_Z 53) in Hhi, Hhi' by done.
  apply nearest_even_ge_Z in Hlo. apply Qlt_le_weak, nearest_even_le_Z in Hhi.
  rewrite Zle_Qle in Hlo, Hhi.
  split.
  - rewrite Hlo'. by apply Qmult_le_r.
  - rewrite Hhi'. by apply Qmult_le_r.
Qed.

Lemma round_positive_le (x y : Q) :
  (0 < x)%Q → (x <= y)%Q → (round_positive x <= round_positive y)%Q.
Proof.
  intros Hx Hxy. assert (Hy : (0 < y)%Q) by lra.
  pose proof (binade_le x y Hx Hxy) as Hb.
  destruct (Z.eq_dec (binade x) (binade y)) as [E|E].
  - unfold round_positive. rewrite E. set (e := (binade y - 52)%Z).
    pose proof (pow2_pos e) as He.
    apply Qmult_le_r; [done|]. rewrite <- Zle_Qle. apply nearest_even_le.
    apply Qmult_le_r with (2 ^ e)%Q; [done|].
    assert (x / 2 ^ e * 2 ^ e == x)%Q as -> by (field; lra).
    assert (y / 2 ^ e * 2 ^ e == y)%Q as -> by (field; lra).
    done.
  - destruct (round_positive_range x Hx) as [_ H1].
    destruct (round_positive_range y Hy) as [H2 _].
    pose proof (pow2_le (binade x + 1) (binade y) ltac:(lia)). lra.
Qed.

Lemma round_positive_exact (m e : Z) :
  (0 < m < 2 ^ 53)%Z →
  (round_positive (inject_Z m * 2 ^ e) == inject_Z m * 2 ^ e)%Q.
Proof.
  intros [Hm1 Hm2]. set (x := (inject_Z m * 2 ^ e)%Q).
  pose proof (pow2_pos e) as He.
  assert (Hm1' : (1 <= inject_Z m)%Q).
  { change 1%Q with (inject_Z 1). rewrite <- Zle_Qle. lia. }
  assert (Hm2' : (inject_Z m < 2 ^ 53)%Q).
  { rewrite <- (pow2_Z 53) by done. by rewrite <- Zlt_Qlt. }
  assert (Hx : (0 < x)%Q) by (unfold x; nra).
  destruct (binade_spec x Hx) as [H1 H2].
  set (k := binade x) in *.
  assert (Hek : (k - 52 ≤ e)%Z).
  { assert (k < 53 + e)%Z; [|lia]. apply pow2_lt_inv.
    rewrite pow2_add. unfold x in H1.
    apply Qle_lt_trans with (inject_Z m * 2 ^ e)%Q; [done|].
    by apply Qmult_lt_r. }
  unfold round_positive. fold k.
  pose proof (pow2_add (e - (k - 52)) (k - 52)) as Hsplit.
  replace (e - (k - 52) + (k - 52))%Z with e in Hsplit by lia.
  pose proof (pow2_pos (k - 52)) as Hk.
  assert (Hs : (x / 2 ^ (k - 52) == inject_Z (m * 2 ^ (e - (k - 52))))%Q).
  { rewrite inject_Z_mult, pow2_Z by lia. unfold x. rewrite Hsplit. field. lra. }
  rewrite (nearest_even_comp _ _ Hs), nearest_even_Z.
  rewrite inject_Z_mult, pow2_Z by lia. unfold x. rewrite Hsplit. ring.
Qed.

Lemma double_positive (x : Q) : (0 < x)%Q → double x = round_positive x.
Proof. intros H. unfold double. by rewrite (Qcompare_gt _ _ H). Qed.

Lemma double_negative (x : Q) : (x < 0)%Q → double x = (- round_positive (- x))%Q.
Proof. intros H. unfold double. by rewrite (Qcompare_lt _ _ H). Qed.

Lemma double_zero (x : Q) : (x == 0)%Q → double x = 0%Q.
Proof. intros H. unfold double. by rewrite (Qcompare_eq _ _ H). Qed.

Lemma round_positive_pos (x : Q) : (0 < x)%Q → (0 < round_positive x)%Q.
Proof.
  intros Hx. destruct (round_positive_range x Hx) as [H _].
  pose proof (pow2_pos (binade x)). lra.
Qed.

Lemma double_monotone : monotone double.
Proof.
  intros x y Hxy.
  destruct (Q_dec x 0) as [[Hx|Hx]|Hx], (Q_dec y 0) as [[Hy|Hy]|Hy];
    rewrite ?(double_negative x), ?(double_positive x), ?(double_zero x),
            ?(double_negative y), ?(double_positive y), ?(double_zero y) by done;
    try lra.
  - assert (round_positive (- y) <= round_positive (- x))%Q
      by (apply round_positive_le; lra).
    lra.
  - pose proof (round_positive_pos (- x)). pose proof (round_positive_pos y). lra.
  - pose proof (round_positive_pos (- x)). lra.
  - by apply round_positive_le.
  - pose proof (round_positive_pos y). lra.
Qed.

Lemma round_positive_comp (x y : Q) :
  (0 < x)%Q → (x == y)%Q → (round_positive x == round_positive y)%Q.
Proof.
  intros Hx Hxy. apply Qle_antisym; apply round_positive_le; lra.
Qed.

Lemma double_exact (x : Q) : representable x → (double x == x)%Q.
Proof.
  intros (m & e & Hm & _ & Hx). pose proof (pow2_pos e) as He.
  destruct (Z.lt_trichotomy m 0) as [Hneg|[->|Hpos]].
  - rewrite Z.abs_neq in Hm by lia.
    assert (Hm' : (inject_Z m < 0)%Q) by (change 0%Q with (inject_Z 0); by rewrite <- Zlt_Qlt).
    assert (Hlt : (x < 0)%Q) by (rewrite Hx; nra).
    rewrite (double_negative x Hlt).
    assert (Hopp : (- x == inject_Z (- m) * 2 ^ e)%Q) by (rewrite inject_Z_opp, Hx; ring).
    assert (Hpos : (0 < - x)%Q) by lra.
    rewrite (round_positive_comp _ _ Hpos Hopp).
    rewrite round_positive_exact by lia. rewrite Hx, inject_Z_opp. ring.
  - assert (H0 : (x == 0)%Q) by (rewrite Hx; ring).
    rewrite (double_zero x H0). by rewrite H0.
  - rewrite Z.abs_eq in Hm by lia.
    assert (Hm' : (0 < inject_Z m)%Q) by (change 0%Q with (inject_Z 0); by rewrite <- Zlt_Qlt).
    assert (Hgt : (0 < x)%Q) by (rewrite Hx; nra).
    rewrite (double_positive x Hgt).
    rewrite (round_positive_comp _ _ Hgt Hx).
    rewrite round_positive_exact by lia. by rewrite Hx.
Qed.

Lemma double_rounding : rounding double.
Proof. split; [apply double_monotone|apply double_exact]. Qed.

Lemma exact_rounding : rounding id.
Proof. split; [by intros x y H|by intros x _]. Qed.

(** What a rounding does to a result between two doubles. *)
Lemma rounding_between (fl : Q → Q) (lo hi x : Q) :
  rounding fl → representable lo → representable hi →
  (lo <= x)%Q → (x <= hi)%Q → (lo <= fl x)%Q ∧ (fl x <= hi)%Q.
Proof.
  intros [Hmono Hexact] Hlo Hhi H1 H2.
  pose proof (Hmono _ _ H1) as H1'. pose proof (Hmono _ _ H2) as H2'.
  rewrite (Hexact _ Hlo) in H1'. rewrite (Hexact _ Hhi) in H2'. done.
Qed.

Lemma rounding_exact (fl : Q → Q) (v x : Q) :
  rounding fl → representable v → (x == v)%Q → (fl x == v)%Q.
Proof.
  intros Hfl Hv Hx.
  destruct (rounding_between fl v v x Hfl Hv Hv) as [H1 H2]; [lra|lra|].
  by apply Qle_antisym.
Qed.

Lemma representable_Z (z : Z) : (Z.abs z < 2 ^ 53)%Z → representable (inject_Z z).
Proof.
  intros H. exists z, 0%Z. split_and!; [done|lia|lia|].
  change (2 ^ 0)%Q with 1%Q. ring.
Qed.

End binary64_facts.

(** ** Backoff delays *)

Lemma uncapped_le_cap (n : nat) :
  (n ≤ 8)%nat → (1000 * (3 # 2) ^ Z.of_nat n <= 30000)%Q.
Proof.
  intros Hn.
  apply Qle_trans with (1000 * (3 # 2) ^ 8)%Q; [|by vm_compute].
  apply Qmult_le_l; [reflexivity|].
  apply Qpower_le_compat_l; [lia|by vm_compute].
Qed.

Lemma uncapped_gt_cap (n : nat) :
  (9 ≤ n)%nat → (31000 < 1000 * (3 # 2) ^ Z.of_nat n)%Q.
Proof.
  intros Hn.
  apply Qlt_le_trans with (1000 * (3 # 2) ^ 9)%Q; [reflexivity|].
  apply Qmult_le_l; [reflexivity|].
  apply Qpower_le_compat_l; [lia|by vm_compute].
Qed.

Section scheduling_facts.
Variable handlers : Handlers.

Lemma scheduleReconnect_below env s :
  (reconnectAttempts s < maxReconnectAttempts s)%nat →
  scheduleReconnect handlers env s =
    set_timers (timers s ++ [calculateReconnectDelay (random env) s])
      (log (SetTimeout (calculateReconnectDelay (random env) s))
         (log (ConsoleScheduling (calculateReconnectDelay (random env) s)) s)).
Proof.
  intros Hlt. unfold scheduleReconnect.
  destruct (Nat.leb_spec (maxReconnectAttempts s) (reconnectAttempts s)); [lia|done].
Qed.

Lemma scheduleReconnect_exhausted env s :
  (maxReconnectAttempts s ≤ reconnectAttempts s)%nat →
  scheduleReconnect handlers env s =
    handleReconnectFailed handlers (log (Console "Max reconnection attempts reached") s).
Proof.
  intros Hle. unfold scheduleReconnect.
  destruct (Nat.leb_spec (maxReconnectAttempts s) (reconnectAttempts s)); [done|lia].
Qed.

Lemma calculateReconnectDelay_same rnd s s' :
  same_machine s s' → calculateReconnectDelay rnd s' = calculateReconnectDelay rnd s.
Proof.
  intros (_ & Ha & _ & Hd & _). unfold calculateReconnectDelay. by rewrite Ha, Hd.
Qed.

End scheduling_facts.

(** ** Failed attempts *)

Section attempts_facts.
Variable handlers : Handlers.

Lemma strip_similar s : similar (strip s) s.
Proof. split; [by unfold same_machine|done]. Qed.

Lemma triggerEvent_empty h event data s :
  eventCallbacks s = ∅ → triggerEvent h event data s = log (Dispatch event data) s.
Proof. intros Hreg. unfold triggerEvent. simpl. by rewrite Hreg, lookup_empty. Qed.

(** What a blind reading of the trace gains when the silent trace grows. *)
Lemma observe_silent {B} (f : Effect → option B) s s' t :
  (∀ e, is_callback_effect e = true → f e = None) →
  silent (trace s') = silent (trace s) ++ t →
  omap f (trace s') = omap f (trace s) ++ omap f t.
Proof.
  intros Hf Htr.
  by rewrite <- (omap_silent f (trace s')), Htr, omap_app, omap_silent.
Qed.

Lemma timeouts_grow s s' t :
  silent (trace s') = silent (trace s) ++ t →
  timeouts (trace s') = timeouts (trace s) ++ timeouts t.
Proof. apply observe_silent. by intros []. Qed.

Lemma dispatched_grow event s s' t :
  silent (trace s') = silent (trace s) ++ t →
  dispatched event (trace s') = dispatched event (trace s) ++ dispatched event t.
Proof. apply observe_silent. by intros []. Qed.

Lemma intervals_started_grow s s' t :
  silent (trace s') = silent (trace s) ++ t →
  intervals_started (trace s') = intervals_started (trace s) ++ intervals_started t.
Proof. apply observe_silent. by intros []. Qed.


(** A [connect_error] below the limit leaves one more timeout pending. *)
Lemma connect_error_below env error s :
  socket s = true →
  (reconnectAttempts s < maxReconnectAttempts s)%nat →
  let s' := step handlers env (OnConnectError error) s in
  let delay := calculateReconnectDelay (random env) s in
  same_machine (set_timers (timers s ++ [delay]) s) s' ∧
  silent (trace s') = silent (trace s) ++
    [Console "WebSocket connection error:";
     Dispatch "connection_error" (PError (Some error));
     ConsoleScheduling delay; SetTimeout delay].
Proof.
  intros Hsock Hlt s' delay.
  pose proof (similar_step quiet handlers env (OnConnectError error) _ _ (strip_similar s))
    as Hsim.
  fold s' in Hsim. clearbody s'. simpl in Hsim. rewrite Hsock in Hsim.
  unfold handleConnectionError in Hsim.
  rewrite triggerEvent_empty in Hsim by done.
  rewrite scheduleReconnect_below in Hsim by (simpl; lia).
  destruct Hsim as [Hsame Htr]. split; [exact Hsame|].
  rewrite Htr. simpl. rewrite !silent_app. by rewrite <- !app_assoc.
Qed.

(** [scheduleReconnect] at the limit: no timeout; one dispatch of
    [reconnect_failed] and one new interval, each time it is called. *)
Lemma scheduleReconnect_at_limit env s :
  (maxReconnectAttempts s ≤ reconnectAttempts s)%nat →
  let s' := scheduleReconnect handlers env s in
  socket s' = socket s ∧ isConnected s' = isConnected s ∧ timers s' = timers s ∧
  reconnectAttempts s' = reconnectAttempts s ∧
  maxReconnectAttempts s' = maxReconnectAttempts s ∧
  reconnectDelay s' = reconnectDelay s ∧
  intervals s' = intervals s ++ [nextHandle s] ∧
  nextHandle s' = S (nextHandle s) ∧
  pollingInterval s' = Some (nextHandle s) ∧
  silent (trace s') = silent (trace s) ++
    [Console "Max reconnection attempts reached";
     Dispatch "reconnect_failed" PUndefined;
     Console "Setting up polling fallback...";
     Dispatch "polling_started" PUndefined;
     SetInterval (nextHandle s) 5000].
Proof.
  intros Hle s'.
  pose proof (similar_scheduleReconnect quiet handlers env _ _ (strip_similar s)) as Hsim.
  fold s' in Hsim. clearbody s'.
  rewrite scheduleReconnect_exhausted in Hsim by (simpl; lia).
  unfold handleReconnectFailed, setupPollingFallback in Hsim.
  rewrite !triggerEvent_empty in Hsim by done.
  destruct Hsim as [(H1 & H2 & H3 & H4 & H5 & H6 & H7 & H8 & H9) Htr].
  simpl in *. split_and!; try done.
  rewrite Htr, !silent_app. by rewrite <- !app_assoc.
Qed.

(** A reconnect timeout expires while the transport exists and is not
    connected: [attemptReconnect] counts the attempt and calls
    [this.socket.connect()]. *)
Lemma timer_fires_effect env s delay :
  timers s = [delay] → isConnected s = false → socket s = true →
  socket_connect_throws env = false →
  let s' := step handlers env (TimerFires 0) s in
  same_machine (set_reconnectAttempts (S (reconnectAttempts s)) (set_timers [] s)) s' ∧
  trace s' = trace s ++
    [ConsoleAttempt (S (reconnectAttempts s)) (maxReconnectAttempts s); SocketConnect].
Proof.
  intros Htm Hconn Hsock Hthrow. unfold step. rewrite Htm.
  change ([delay] !! 0) with (Some delay). change (delete 0 [delay]) with (@nil Q).
  unfold attemptReconnect.
  change (isConnected (set_timers [] s)) with (isConnected s). rewrite Hconn.
  cbn [socket log set_reconnectAttempts set_timers]. rewrite Hsock, Hthrow.
  cbn [state_of]. split; [by unfold same_machine|].
  cbn [trace log]. by rewrite <- app_assoc.
Qed.

(** One failed attempt below the limit: the counter grows by one, the timeout
    set for it has expired, and the trace gains, callbacks aside, the lines of
    [handleConnectionError], [scheduleReconnect] and [attemptReconnect]. *)
Lemma failed_attempt_effect rnd s :
  socket s = true → isConnected s = false → timers s = [] →
  (reconnectAttempts s < maxReconnectAttempts s)%nat →
  let s' := run handlers (failed_attempt rnd) s in
  let delay := calculateReconnectDelay rnd s in
  socket s' = true ∧ isConnected s' = false ∧ timers s' = [] ∧
  reconnectAttempts s' = S (reconnectAttempts s) ∧
  maxReconnectAttempts s' = maxReconnectAttempts s ∧
  reconnectDelay s' = reconnectDelay s ∧
  intervals s' = intervals s ∧ nextHandle s' = nextHandle s ∧
  pollingInterval s' = pollingInterval s ∧
  silent (trace s') = silent (trace s) ++
    [Console "WebSocket connection error:";
     Dispatch "connection_error" (PError (Some "timeout"));
     ConsoleScheduling delay; SetTimeout delay;
     ConsoleAttempt (S (reconnectAttempts s)) (maxReconnectAttempts s);
     SocketConnect].
Proof.
  intros Hsock Hconn Htimers Hlt s' delay.
  pose proof (connect_error_below (calm rnd) "timeout" s Hsock Hlt) as Herr.
  cbv zeta in Herr. fold delay in Herr.
  set (s1 := step handlers (calm rnd) (OnConnectError "timeout") s) in *.
  destruct Herr as [(H1 & H2 & H3 & H4 & H5 & H6 & H7 & H8 & H9) Htr1].
  cbn [set_timers socket reconnectAttempts maxReconnectAttempts reconnectDelay
       isConnected pollingInterval timers intervals nextHandle] in *.
  rewrite Htimers in H7.
  pose proof (timer_fires_effect (calm rnd) s1 delay H7
                ltac:(congruence) ltac:(congruence) eq_refl) as Hfire.
  cbv zeta in Hfire.
  change (step handlers (calm rnd) (TimerFires 0) s1) with s' in Hfire.
  clearbody s' s1.
  destruct Hfire as [(G1 & G2 & G3 & G4 & G5 & G6 & G7 & G8 & G9) Htr2].
  cbn [set_timers set_reconnectAttempts socket reconnectAttempts maxReconnectAttempts
       reconnectDelay isConnected pollingInterval timers intervals nextHandle] in *.
  split_and!; try congruence.
  rewrite Htr2, silent_app, Htr1, <- app_assoc, H2, H3. reflexivity.
Qed.

Lemma run_app inputs1 inputs2 s :
  run handlers (inputs1 ++ inputs2) s = run handlers inputs2 (run handlers inputs1 s).
Proof. unfold run. apply foldl_app. Qed.

End attempts_facts.

Lemma calculateReconnectDelay_uncapped rnd s (n : nat) :
  reconnectDelay s = 1000%Q → reconnectAttempts s = n → (n ≤ 8)%nat →
  (calculateReconnectDelay rnd s == 1000 * (3 # 2) ^ Z.of_nat n + rnd * 1000)%Q.
Proof.
  intros Hd Hn Hle. unfold calculateReconnectDelay. rewrite Hd, Hn.
  apply Qplus_inj_r, Q.min_l, uncapped_le_cap, Hle.
Qed.

(** Two failed attempts from a fresh manager: two timeouts were set, none is
    pending, and the counter stands at 2. *)
Lemma two_failed_attempts handlers reg r1 r2 :
  let s := run handlers (failed_attempt r1 ++ failed_attempt r2) (opened reg) in
  socket s = true ∧ timers s = [] ∧ reconnectAttempts s = 2 ∧
  maxReconnectAttempts s = 10 ∧ reconnectDelay s = 1000%Q ∧
  ∃ d1 d2, timeouts (trace s) = [d1; d2] ∧
    (d1 == 1000 + r1 * 1000)%Q ∧ (d2 == 1500 + r2 * 1000)%Q.
Proof.
  intros s. subst s. rewrite run_app.
  pose proof (failed_attempt_effect handlers r1 (opened reg)
                eq_refl eq_refl eq_refl ltac:(simpl; lia)) as Hfirst.
  cbv zeta in Hfirst.
  destruct Hfirst as (Hs1 & Hc1 & Ht1 & Ha1 & Hm1 & Hd1 & _ & _ & _ & Htr1).
  set (s1 := run handlers (failed_attempt r1) (opened reg)) in *. clearbody s1.
  pose proof (failed_attempt_effect handlers r2 s1 Hs1 Hc1 Ht1
                ltac:(rewrite Ha1, Hm1; simpl; lia)) as Hsecond.
  cbv zeta in Hsecond.
  destruct Hsecond as (Hs2 & Hc2 & Ht2 & Ha2 & Hm2 & Hd2 & _ & _ & _ & Htr2).
  set (s2 := run handlers (failed_attempt r2) s1) in *. clearbody s2.
  simpl in Ha1, Hm1, Hd1.
  split_and!; try congruence.
  exists (calculateReconnectDelay r1 (opened reg)), (calculateReconnectDelay r2 s1).
  split_and!.
  - by rewrite (timeouts_grow _ _ _ Htr2), (timeouts_grow _ _ _ Htr1).
  - rewrite (calculateReconnectDelay_uncapped r1 _ 0) by (done || lia). reflexivity.
  - rewrite (calculateReconnectDelay_uncapped r2 s1 1) by (congruence || lia).
    apply Qplus_inj_r. reflexivity.
Qed.

(** Every number the delay meets below the cap is a double: [1.5 ^ n],
    [1000 * 1.5 ^ n] and [1000 * 1.5 ^ n + 1000] for [n] up to 9. *)
Lemma backoff_representable (n : nat) :
  (n ≤ 9)%nat →
  Binary64.representable ((3 # 2) ^ Z.of_nat n)%Q ∧
  Binary64.representable (1000 * (3 # 2) ^ Z.of_nat n)%Q ∧
  Binary64.representable (1000 * (3 # 2) ^ Z.of_nat n + 1000)%Q.
Proof.
  intros Hn.
  assert (Hrep : ∀ m : Z, (Z.abs m < 2 ^ 53)%Z →
            Binary64.representable (inject_Z m * 2 ^ (- Z.of_nat n))%Q).
  { intros m Hm. exists m, (- Z.of_nat n)%Z. split_and!; [done|lia|lia|done]. }
  assert (Hpow : ((3 # 2) ^ Z.of_nat n == inject_Z (3 ^ Z.of_nat n) * 2 ^ (- Z.of_nat n))%Q).
  { rewrite Zpower_Qpower by lia. rewrite Qpower_opp, <- Qinv_power.
    rewrite <- Qmult_power. apply Qpower_comp; [reflexivity|done]. }
  assert (Htwo : (2 ^ Z.of_nat n * 2 ^ (- Z.of_nat n) == 1)%Q).
  { rewrite <- pow2_add. by replace (Z.of_nat n + - Z.of_nat n)%Z with 0%Z by lia. }
  assert (H3 : (0 < 3 ^ Z.of_nat n ≤ 3 ^ 9)%Z).
  { split; [apply Z.pow_pos_nonneg; lia|apply Z.pow_le_mono_r; lia]. }
  assert (H2 : (0 < 2 ^ Z.of_nat n ≤ 2 ^ 9)%Z).
  { split; [apply Z.pow_pos_nonneg; lia|apply Z.pow_le_mono_r; lia]. }
  change (3 ^ 9)%Z with 19683%Z in H3. change (2 ^ 9)%Z with 512%Z in H2.
  change (2 ^ 53)%Z with 9007199254740992%Z in Hrep.
  split_and!.
  - destruct (Hrep (3 ^ Z.of_nat n)%Z ltac:(lia)) as (m & e & Hm & Hr & He).
    exists m, e. split_and!; [done|lia|lia|]. by rewrite Hpow.
  - destruct (Hrep (1000 * 3 ^ Z.of_nat n)%Z ltac:(lia)) as (m & e & Hm & Hr & He).
    exists m, e. split_and!; [done|lia|lia|]. rewrite <- He, Hpow, inject_Z_mult. ring.
  - destruct (Hrep (1000 * 3 ^ Z.of_nat n + 1000 * 2 ^ Z.of_nat n)%Z ltac:(lia))
      as (m & e & Hm & Hr & He).
    exists m, e. split_and!; [done|lia|lia|].
    rewrite <- He, Hpow, inject_Z_plus, !inject_Z_mult, (pow2_Z (Z.of_nat n)) by lia.
    rewrite Qmult_plus_distr_l, <- (Qmult_assoc (inject_Z 1000) (2 ^ Z.of_nat n)), Htwo.
    ring.
Qed.

(** The delay computed with any rounding lies between the capped base delay
    and that delay plus 1000, both included. *)
Lemma calculateReconnectDelay_rounded_range (fl : Q → Q) (rnd : Q) (s : SocketManager) :
  Binary64.rounding fl →
  (0 <= rnd)%Q → (rnd < 1)%Q → reconnectDelay s = 1000%Q →
  let uncapped := (1000 * (3 # 2) ^ Z.of_nat (reconnectAttempts s))%Q in
  (Qmin uncapped 30000 <= calculateReconnectDelay_rounded fl rnd s)%Q ∧
  (calculateReconnectDelay_rounded fl rnd s <= Qmin uncapped 30000 + 1000)%Q.
Proof.
  intros Hfl H0 H1 Hd uncapped. pose proof Hfl as [Hmono Hexact].
  unfold calculateReconnectDelay_rounded. rewrite Hd.
  set (n := reconnectAttempts s) in *.
  assert (Hj : (0 <= fl (rnd * 1000))%Q ∧ (fl (rnd * 1000) <= 1000)%Q).
  { apply rounding_between; [done| | |lra|lra].
    - by apply (representable_Z 0).
    - by apply (representable_Z 1000). }
  set (jitter := fl (rnd * 1000)%Q) in *.
  destruct (le_lt_dec n 8) as [Hn|Hn].
  - destruct (backoff_representable n ltac:(lia)) as (Hr1 & Hr2 & Hr3).
    fold uncapped in Hr2, Hr3.
    pose proof (uncapped_le_cap n Hn) as Hcap. fold uncapped in Hcap.
    assert (Hbase : (fl (1000 * fl ((3 # 2) ^ Z.of_nat n)) == uncapped)%Q).
    { apply rounding_exact; [done|done|]. unfold uncapped. by rewrite (Hexact _ Hr1). }
    set (base := fl (1000 * fl ((3 # 2) ^ Z.of_nat n))%Q) in *.
    rewrite (Q.min_l uncapped 30000 Hcap).
    assert (Hmin : (Qmin base 30000 == uncapped)%Q).
    { rewrite Q.min_l; [done|]. by rewrite Hbase. }
    apply rounding_between; [done|done|done| |]; rewrite Hmin; lra.
  - pose proof (uncapped_gt_cap n ltac:(lia)) as Hcap. fold uncapped in Hcap.
    destruct (backoff_representable 9 ltac:(lia)) as (Hr1 & _ & _).
    assert (Hp : ((3 # 2) ^ 9 <= fl ((3 # 2) ^ Z.of_nat n))%Q).
    { rewrite <- (Hexact _ Hr1) at 1. apply Hmono.
      apply Qpower_le_compat_l; [lia|done]. }
    assert (Hbase : (30000 <= fl (1000 * fl ((3 # 2) ^ Z.of_nat n)))%Q).
    { rewrite <- (Hexact 30000%Q (representable_Z 30000 ltac:(done))).
      apply Hmono. apply Qle_trans with (1000 * (3 # 2) ^ 9)%Q; [done|].
      by apply Qmult_le_l. }
    set (base := fl (1000 * fl ((3 # 2) ^ Z.of_nat n))%Q) in *.
    rewrite (Q.min_r uncapped 30000) by lra.
    assert (Hmin : (Qmin base 30000 == 30000)%Q) by (by apply Q.min_r).
    apply rounding_between; [done| | | |]; rewrite ?Hmin; try lra.
    + by apply (representable_Z 30000).
    + by apply (representable_Z 31000).
Qed.


(** C1, as amended.  With the configured base of 1000 ms and
    [Math.random()] in [0, 1), the delay lies in [b, b + 1000], where [b] is
    [1000 * 1.5 ^ n] cut off at 30000: the cap applies to the base part, the
    jitter comes on top of it.  This holds of the delay computed with any
    rounding [fl], so of the doubles of the source as of the exact value that
    the model keeps ([fl := id]).  For [n] up to 8 the cap is not reached and
    the delay lies in [1000 * 1.5 ^ n, 1000 * 1.5 ^ n + 1000]; from [n = 9]
    on it lies in [30000, 31000], below [1000 * 1.5 ^ n].  When the transport
    fails three times in a row from a fresh manager, the third timeout is the
    delay for [n = 2], which lies in [2250, 3250]. *)
Theorem calculateReconnectDelay_bounds fl rnd s :
  Binary64.rounding fl →
  (0 <= rnd)%Q → (rnd < 1)%Q → reconnectDelay s = 1000%Q →
  let n := reconnectAttempts s in
  let delay := calculateReconnectDelay_rounded fl rnd s in
  let uncapped := (1000 * (3 # 2) ^ Z.of_nat n)%Q in
  (Qmin uncapped 30000 <= delay ∧ delay <= Qmin uncapped 30000 + 1000)%Q ∧
  ((n ≤ 8)%nat → (uncapped <= delay ∧ delay <= uncapped + 1000)%Q) ∧
  ((9 ≤ n)%nat → (30000 <= delay ∧ delay <= 31000 ∧ delay < uncapped)%Q) ∧
  calculateReconnectDelay rnd s = calculateReconnectDelay_rounded id rnd s ∧
  (∀ handlers reg r1 r2,
     s = run handlers (failed_attempt r1 ++ failed_attempt r2) (opened reg) →
     let s' := step handlers (calm rnd) (OnConnectError "timeout") s in
     n = 2%nat ∧ (2250 <= delay ∧ delay <= 3250)%Q ∧
     timers s' = [calculateReconnectDelay rnd s] ∧
     ∃ d1 d2, timeouts (trace s') = [d1; d2; calculateReconnectDelay rnd s]).
Proof.
  intros Hfl H0 H1 Hd n delay uncapped.
  destruct (calculateReconnectDelay_rounded_range fl rnd s Hfl H0 H1 Hd) as [Hlo Hhi].
  fold n uncapped delay in Hlo, Hhi.
  assert (Hbelow : (n ≤ 8)%nat → (uncapped <= delay ∧ delay <= uncapped + 1000)%Q).
  { intros Hn. pose proof (uncapped_le_cap n Hn) as Hcap. fold uncapped in Hcap.
    rewrite (Q.min_l _ _ Hcap) in Hlo, Hhi. by split. }
  split_and!.
  - exact Hlo.
  - exact Hhi.
  - exact Hbelow.
  - intros Hn. pose proof (uncapped_gt_cap n Hn) as Hcap. fold uncapped in Hcap.
    rewrite (Q.min_r uncapped 30000) in Hlo, Hhi by lra.
    split_and!; [done|lra|lra].
  - reflexivity.
  - intros handlers reg r1 r2 Hs s'.
    destruct (two_failed_attempts handlers reg r1 r2)
      as (Hsock & Htm & Ha & Hm & _ & d1 & d2 & Hto & _ & _).
    rewrite <- Hs in Hsock, Htm, Ha, Hm, Hto. fold n in Ha.
    pose proof (connect_error_below handlers (calm rnd) "timeout" s Hsock
                  ltac:(lia)) as Hthird.
    cbv zeta in Hthird. fold s' in Hthird.
    destruct Hthird as [(_ & _ & _ & _ & _ & _ & Htm' & _) Htr].
    simpl in Htm', Htr. rewrite Htm in Htm'.
    split_and!; [exact Ha| | |exact Htm'|].
    + destruct (Hbelow ltac:(lia)) as [Hl _]. unfold uncapped in Hl. rewrite Ha in Hl.
      apply Qle_trans with (1000 * (3 # 2) ^ Z.of_nat 2)%Q; [done|exact Hl].
    + destruct (Hbelow ltac:(lia)) as [_ Hu]. unfold uncapped in Hu. rewrite Ha in Hu.
      apply Qle_trans with (1000 * (3 # 2) ^ Z.of_nat 2 + 1000)%Q; [exact Hu|done].
    + exists d1, d2. by rewrite (timeouts_grow _ _ _ Htr), Hto.
Qed.

Lemma calculateReconnectDelay_bounds_witness :
  let rnd := (4503599627370495 # 4503599627370496)%Q in
  let s := run quiet (replicate 9 (1 # 2)%Q ≫= failed_attempt) (opened ∅) in
  (30000 <= calculateReconnectDelay_rounded Binary64.double rnd s)%Q ∧
  (calculateReconnectDelay_rounded Binary64.double rnd s <= 31000)%Q.
Proof.
  intros rnd s.
  destruct (calculateReconnectDelay_bounds Binary64.double rnd s) as (_ & _ & Hcap & _).
  - exact double_rounding.
  - discriminate.
  - reflexivity.
  - by vm_compute.
  - destruct Hcap as (Hlo & Hhi & _); [vm_compute; lia|]. by split.
Defined.

(** The upper bounds are reached on doubles.  With [Math.random()] equal to
    [1 - 2 ^ -52], the double sum of 30000 and the jitter is exactly 31000 at
    the tenth scheduling, and that of 2250 and the jitter is exactly 3250 at
    the third, although the jitter itself is below 1000. *)
Lemma calculateReconnectDelay_rounded_reaches_bound :
  let rnd := (4503599627370495 # 4503599627370496)%Q in
  (rnd < 1)%Q ∧
  (Binary64.double (rnd * 1000) < 1000)%Q ∧
  (calculateReconnectDelay_rounded Binary64.double rnd
     (set_reconnectAttempts 9 constructed) == 31000)%Q ∧
  (calculateReconnectDelay_rounded Binary64.double rnd
     (set_reconnectAttempts 2 constructed) == 3250)%Q.
Proof. intros rnd. split_and!; vm_compute; reflexivity. Qed.

(** C1, as stated, fails at the tenth scheduling ([n = 9], still below the
    limit of 10): with a jitter factor of 1/2 the delay is 30500 ms, which is
    neither at least [1000 * 1.5 ^ 9] (about 38443) nor at most the cap. *)
Lemma calculateReconnectDelay_ninth_attempt :
  let s := run quiet (replicate 9 (1 # 2)%Q ≫= failed_attempt) (opened ∅) in
  reconnectAttempts s = 9 ∧
  (reconnectAttempts s < maxReconnectAttempts s)%nat ∧
  (calculateReconnectDelay (1 # 2) s == 30500)%Q ∧
  ¬ (1000 * (3 # 2) ^ 9 <= calculateReconnectDelay (1 # 2) s)%Q ∧
  ¬ (calculateReconnectDelay (1 # 2) s <= 30000)%Q.
Proof.
  intros s.
  assert (calculateReconnectDelay (1 # 2) s == 30500)%Q as Hd by (by vm_compute).
  split_and!; [by vm_compute|by vm_compute|exact Hd| |].
  - rewrite Hd. apply Qlt_not_le. reflexivity.
  - rewrite Hd. apply Qlt_not_le. reflexivity.
Qed.

(** ** Exhaustion and the polling fallback *)

Section exhaustion_facts.
Variable handlers : Handlers.


(** A [connect_error] at the limit goes through [handleReconnectFailed]. *)
Lemma connect_error_at_limit env error s :
  socket s = true →
  (maxReconnectAttempts s ≤ reconnectAttempts s)%nat →
  let s' := step handlers env (OnConnectError error) s in
  socket s' = true ∧ isConnected s' = isConnected s ∧ timers s' = timers s ∧
  reconnectAttempts s' = reconnectAttempts s ∧
  maxReconnectAttempts s' = maxReconnectAttempts s ∧
  intervals s' = intervals s ++ [nextHandle s] ∧
  nextHandle s' = S (nextHandle s) ∧
  pollingInterval s' = Some (nextHandle s) ∧
  silent (trace s') = silent (trace s) ++
    [Console "WebSocket connection error:";
     Dispatch "connection_error" (PError (Some error));
     Console "Max reconnection attempts reached";
     Dispatch "reconnect_failed" PUndefined;
     Console "Setting up polling fallback...";
     Dispatch "polling_started" PUndefined;
     SetInterval (nextHandle s) 5000].
Proof.
  intros Hsock Hle. cbv zeta. unfold step. rewrite Hsock. unfold handleConnectionError.
  pose proof (triggerEvent_similar handlers "connection_error" (PError (Some error))
                (log (Console "WebSocket connection error:") s)) as [Hsame Htr1].
  set (s1 := triggerEvent handlers "connection_error" (PError (Some error))
               (log (Console "WebSocket connection error:") s)) in *.
  clearbody s1.
  destruct Hsame as (H1 & H2 & H3 & H4 & H5 & H6 & H7 & H8 & H9).
  cbn [log socket reconnectAttempts maxReconnectAttempts reconnectDelay isConnected
       pollingInterval timers intervals nextHandle trace] in *.
  pose proof (scheduleReconnect_at_limit handlers env s1 ltac:(lia)) as Hlim.
  cbv zeta in Hlim.
  destruct Hlim as (G1 & G2 & G3 & G4 & G5 & _ & G7 & G8 & G9 & Htr2).
  split_and!; try congruence.
  rewrite Htr2, Htr1, !silent_app, H9. by rewrite <- !app_assoc.
Qed.


End exhaustion_facts.




(** ** Reconnect attempts and exceptions *)

(** [connect()] returns normally by construction of its [try]/[catch]: what
    [io] or the registrations raise ends in [handleConnectionError], whose own
    calls (dispatch with guarded callbacks, timers) raise nothing.  An
    exception leaves [attemptReconnect] exactly when it calls
    [this.socket.connect()] on an existing transport and that call raises. *)
Lemma attemptReconnect_throws_iff handlers env s :
  throws (attemptReconnect handlers env s) =
  negb (isConnected s) && socket s && socket_connect_throws env.
Proof.
  unfold attemptReconnect. cbn [socket log set_reconnectAttempts].
  by destruct (isConnected s), (socket s), (socket_connect_throws env).
Qed.

(** When a raising [io()] is caught by [connect()], the failure is dispatched
    as [connection_error] and a retry is scheduled. *)
Lemma connect_catches_io handlers env s :
  io_throws env = true →
  (reconnectAttempts s < maxReconnectAttempts s)%nat →
  let s' := connect handlers env s in
  socket s' = socket s ∧
  silent (trace s') = silent (trace s) ++
    [Console "Connecting to WebSocket server..."; IoOpen;
     Console "WebSocket connection failed:";
     Dispatch "connection_error" (PError None);
     ConsoleScheduling (calculateReconnectDelay (random env) s);
     SetTimeout (calculateReconnectDelay (random env) s)].
Proof.
  intros Hio Hlt. cbv zeta.
  pose proof (similar_connect quiet handlers env _ _ (strip_similar s)) as Hsim.
  set (s' := connect handlers env s) in *. clearbody s'.
  unfold connect in Hsim. rewrite Hio in Hsim. unfold handleConnectionError in Hsim.
  rewrite triggerEvent_empty in Hsim by done.
  rewrite scheduleReconnect_below in Hsim by (simpl; lia).
  destruct Hsim as [(H1 & _) Htr]. split; [exact H1|].
  rewrite Htr. cbn [trace log set_timers strip set_eventCallbacks].
  rewrite !silent_app. by rewrite <- !app_assoc.
Qed.

(** C3 at its failing input.  With a transport already created and not
    connected, [attemptReconnect] calls [this.socket.connect()] outside any
    [try]; when that call raises, the exception leaves [attemptReconnect] and
    nothing is dispatched: the trace only gains the console line of the
    attempt and the transport call.  The sibling path through [connect()]
    (no transport yet, [io] raising) returns normally and dispatches
    [connection_error]. *)
Theorem attemptReconnect_propagates_connect_exception :
  let s := opened ∅ in
  let c := attemptReconnect quiet (connect_raises 0) s in
  socket s = true ∧ isConnected s = false ∧
  throws c = true ∧
  since s (state_of c) = [ConsoleAttempt 1 10; SocketConnect] ∧
  let env := {| random := 0; io_throws := true; socket_on_throws := false;
                socket_connect_throws := true |} in
  let c' := attemptReconnect quiet env constructed in
  throws c' = false ∧
  dispatched "connection_error" (trace (state_of c')) = [PError None].
Proof.
  cbv zeta. rewrite !attemptReconnect_throws_iff.
  split_and!; by vm_compute.
Qed.

(** ** Transport events *)

Section transport_facts.
Variable handlers : Handlers.

(** What a dispatch leaves behind, callbacks aside. *)
Lemma triggerEvent_effect event data s :
  same_machine s (triggerEvent handlers event data s) ∧
  silent (trace (triggerEvent handlers event data s)) =
    silent (trace s) ++ [Dispatch event data].
Proof.
  destruct (triggerEvent_similar handlers event data s) as [Hsame Htr].
  split; [exact Hsame|]. rewrite Htr. cbn [trace log]. by rewrite silent_app.
Qed.

Lemma handleDisconnect_local env s :
  let s' := handleDisconnect handlers env "io client disconnect" s in
  same_machine (set_isConnected false s) s' ∧
  silent (trace s') = silent (trace s) ++
    [Dispatch "connection_change" (PConnection false (Some "io client disconnect"))].
Proof.
  cbv zeta. unfold handleDisconnect. rewrite decide_False by (by intros []).
  apply (triggerEvent_effect _ _ (set_isConnected false s)).
Qed.

Lemma handleDisconnect_other env reason s :
  reason ≠ "io client disconnect" →
  handleDisconnect handlers env reason s =
  scheduleReconnect handlers env
    (triggerEvent handlers "connection_change" (PConnection false (Some reason))
       (set_isConnected false s)).
Proof. intros Hne. unfold handleDisconnect. by rewrite decide_True. Qed.

Lemma handleDisconnect_other_below env reason s :
  reason ≠ "io client disconnect" →
  (reconnectAttempts s < maxReconnectAttempts s)%nat →
  let s' := handleDisconnect handlers env reason s in
  let delay := calculateReconnectDelay (random env) s in
  timers s' = timers s ++ [delay] ∧ isConnected s' = false ∧
  reconnectAttempts s' = reconnectAttempts s ∧
  silent (trace s') = silent (trace s) ++
    [Dispatch "connection_change" (PConnection false (Some reason));
     ConsoleScheduling delay; SetTimeout delay].
Proof.
  intros Hne Hlt. cbv zeta. rewrite (handleDisconnect_other _ _ _ Hne).
  destruct (triggerEvent_effect "connection_change" (PConnection false (Some reason))
              (set_isConnected false s)) as [Hsame Htr].
  set (s1 := triggerEvent handlers "connection_change" _ _) in *. clearbody s1.
  pose proof Hsame as (_ & Ha & Hm & _ & Hc & _ & Ht & _).
  cbn [set_isConnected reconnectAttempts maxReconnectAttempts isConnected timers trace]
    in Ha, Hm, Hc, Ht, Htr.
  rewrite scheduleReconnect_below by lia.
  rewrite (calculateReconnectDelay_same _ (set_isConnected false s) s1 Hsame).
  change (calculateReconnectDelay (random env) (set_isConnected false s))
    with (calculateReconnectDelay (random env) s).
  cbn [set_timers log timers isConnected reconnectAttempts trace].
  split_and!; [by rewrite Ht|done|done|].
  rewrite !silent_app, Htr. by rewrite <- !app_assoc.
Qed.

End transport_facts.

(** A [disconnect] for another reason than the local close, below the limit
    and at the limit. *)
Lemma handleDisconnect_other_limit handlers env reason s :
  reason ≠ "io client disconnect" →
  let s' := handleDisconnect handlers env reason s in
  isConnected s' = false ∧
  ((reconnectAttempts s < maxReconnectAttempts s)%nat →
     intervals s' = intervals s ∧
     dispatched "reconnect_failed" (trace s') = dispatched "reconnect_failed" (trace s)) ∧
  ((maxReconnectAttempts s ≤ reconnectAttempts s)%nat →
     timers s' = timers s ∧
     timeouts (trace s') = timeouts (trace s) ∧
     dispatched "reconnect_failed" (trace s') =
       dispatched "reconnect_failed" (trace s) ++ [PUndefined] ∧
     intervals s' = intervals s ++ [nextHandle s] ∧
     intervals_started (trace s') =
       intervals_started (trace s) ++ [(nextHandle s, 5000%Z)]).
Proof.
  intros Hne. cbv zeta. rewrite (handleDisconnect_other _ _ _ _ Hne).
  destruct (triggerEvent_effect handlers "connection_change"
              (PConnection false (Some reason)) (set_isConnected false s)) as [Hsame Htr].
  set (s1 := triggerEvent handlers "connection_change" _ _) in *. clearbody s1.
  destruct Hsame as (_ & Ha & Hm & _ & Hc & _ & Ht & Hi & Hn).
  cbn [set_isConnected reconnectAttempts maxReconnectAttempts isConnected timers
       intervals nextHandle trace] in Ha, Hm, Hc, Ht, Hi, Hn, Htr.
  split_and!.
  - destruct (Nat.leb_spec (maxReconnectAttempts s1) (reconnectAttempts s1)) as [Hle|Hlt].
    + destruct (scheduleReconnect_at_limit handlers env s1 Hle) as (_ & -> & _). done.
    + by rewrite scheduleReconnect_below.
  - intros Hlt. rewrite scheduleReconnect_below by lia.
    cbn [set_timers log intervals trace]. split; [done|].
    unfold dispatched. rewrite !omap_app. cbn [omap list_omap].
    rewrite !app_nil_r. fold (dispatched "reconnect_failed" (trace s1)).
    by rewrite (dispatched_grow _ _ _ _ Htr), app_nil_r.
  - intros Hle.
    destruct (scheduleReconnect_at_limit handlers env s1 ltac:(lia))
      as (_ & _ & Ht' & _ & _ & _ & Hi' & _ & _ & Htr').
    rewrite Htr in Htr'. rewrite <- app_assoc in Htr'.
    split_and!.
    + by rewrite Ht', Ht.
    + by rewrite (timeouts_grow _ _ _ Htr'), app_nil_r.
    + by rewrite (dispatched_grow _ _ _ _ Htr').
    + by rewrite Hi', Hi, Hn.
    + by rewrite (intervals_started_grow _ _ _ Htr'), Hn.
Qed.

(** C6, as amended.  A [disconnect] whose reason is ['io client disconnect']
    marks the manager as disconnected and dispatches [connection_change];
    that is all: [scheduleReconnect] does not run, so none of its console
    lines appears and no timeout is set.  For every other reason the handler
    ends with the call of [scheduleReconnect].  Below the limit of attempts
    that call sets the timeout of a retry, and starts no polling.  At the
    limit it schedules no retry: no timeout is set, [reconnect_failed] is
    dispatched and a polling interval is started instead.  The manager's own
    [disconnect()], followed by the event the transport reports for it,
    leaves the timers and the attempt counter as they were. *)
Theorem handleDisconnect_reconnects_unless_local handlers env reason s :
  let s' := handleDisconnect handlers env reason s in
  let delay := calculateReconnectDelay (random env) s in
  (reason = "io client disconnect" →
     same_machine (set_isConnected false s) s' ∧
     silent (trace s') =
       silent (trace s) ++ [Dispatch "connection_change" (PConnection false (Some reason))] ∧
     timeouts (trace s') = timeouts (trace s)) ∧
  (reason ≠ "io client disconnect" →
     s' = scheduleReconnect handlers env
            (triggerEvent handlers "connection_change" (PConnection false (Some reason))
               (set_isConnected false s)) ∧
     isConnected s' = false ∧
     ((reconnectAttempts s < maxReconnectAttempts s)%nat →
        timers s' = timers s ++ [delay] ∧
        timeouts (trace s') = timeouts (trace s) ++ [delay] ∧
        intervals s' = intervals s ∧
        dispatched "reconnect_failed" (trace s') =
          dispatched "reconnect_failed" (trace s)) ∧
     ((maxReconnectAttempts s ≤ reconnectAttempts s)%nat →
        timers s' = timers s ∧
        timeouts (trace s') = timeouts (trace s) ∧
        dispatched "reconnect_failed" (trace s') =
          dispatched "reconnect_failed" (trace s) ++ [PUndefined] ∧
        intervals s' = intervals s ++ [nextHandle s] ∧
        intervals_started (trace s') =
          intervals_started (trace s) ++ [(nextHandle s, 5000%Z)])) ∧
  (socket s = true →
     let s'' := step handlers env (OnDisconnect "io client disconnect") (disconnect s) in
     isConnected s'' = false ∧ timers s'' = timers s ∧
     reconnectAttempts s'' = reconnectAttempts s ∧
     timeouts (trace s'') = timeouts (trace s)).
Proof.
  cbv zeta. split_and!.
  - intros ->.
    destruct (handleDisconnect_local handlers env s) as [Hsame Htr].
    split_and!; [exact Hsame|exact Htr|].
    by rewrite (timeouts_grow _ _ _ Htr), app_nil_r.
  - intros Hne.
    pose proof (handleDisconnect_other_limit handlers env reason s Hne) as Hlimit.
    cbv zeta in Hlimit. destruct Hlimit as (Hc & Hbelow & Hat).
    split_and!; [by apply handleDisconnect_other|exact Hc| |exact Hat].
    intros Hlt. destruct (Hbelow Hlt) as [Hi Hd].
    pose proof (handleDisconnect_other_below handlers env reason s Hne Hlt) as Hb.
    cbv zeta in Hb. destruct Hb as (Ht & _ & _ & Htr).
    split_and!; [exact Ht| |exact Hi|exact Hd].
    by rewrite (timeouts_grow _ _ _ Htr).
  - intros Hsock. unfold step, disconnect. rewrite Hsock.
    cbn [socket set_isConnected log]. rewrite Hsock.
    destruct (handleDisconnect_local handlers env
                (log (Console "WebSocket disconnected:")
                   (set_isConnected false (log SocketDisconnect s))))
      as [(_ & Ha & _ & _ & Hc & _ & Ht & _) Htr'].
    cbn [timers reconnectAttempts isConnected set_isConnected log] in Ha, Hc, Ht.
    split_and!; [exact Hc|exact Ht|exact Ha|].
    rewrite (timeouts_grow _ _ _ Htr'). cbn [trace log set_isConnected].
    unfold timeouts. rewrite !omap_app. simpl. by rewrite !app_nil_r.
Qed.

Lemma handleDisconnect_reconnects_unless_local_witness :
  let s := opened {[ "connection_change" := [1; 2] ]} in
  let exhausted := run quiet (failures (replicate 10 0%Q) 0) (opened ∅) in
  timers (handleDisconnect second_raises (calm (1 # 2)) "io client disconnect" s) = [] ∧
  timers (handleDisconnect second_raises (calm (1 # 2)) "transport close" s) =
    [calculateReconnectDelay (1 # 2) s] ∧
  timers (handleDisconnect second_raises (calm (1 # 2)) "transport close" exhausted) =
    timers exhausted.
Proof.
  intros s exhausted.
  destruct (handleDisconnect_reconnects_unless_local second_raises (calm (1 # 2))
              "io client disconnect" s) as (Hlocal & _ & _).
  destruct (handleDisconnect_reconnects_unless_local second_raises (calm (1 # 2))
              "transport close" s) as (_ & Hother & _).
  destruct (handleDisconnect_reconnects_unless_local second_raises (calm (1 # 2))
              "transport close" exhausted) as (_ & Hlimit & _).
  destruct (Hlocal eq_refl) as ((_ & _ & _ & _ & _ & _ & Ht & _) & _).
  destruct (Hother ltac:(discriminate)) as (_ & _ & Hbelow & _).
  destruct Hbelow as (Ht' & _); [vm_compute; lia|].
  destruct (Hlimit ltac:(discriminate)) as (_ & _ & _ & Hat).
  destruct Hat as (Ht'' & _); [vm_compute; lia|].
  split_and!; [exact Ht|exact Ht'|exact Ht''].
Defined.

(** C6, as stated, fails at the limit of attempts: once ten attempts have
    failed (the counter stands at 10 and polling has started), a [disconnect]
    reported with the reason ['transport close'] schedules no retry.  No
    timeout is set or pending; [reconnect_failed] is dispatched once more and
    a second polling interval is started. *)
Lemma handleDisconnect_at_limit_schedules_no_retry :
  let s := run quiet (failures (replicate 10 0%Q) 0) (opened ∅) in
  let s' := step quiet (calm 0) (OnDisconnect "transport close") s in
  reconnectAttempts s = 10%nat ∧ maxReconnectAttempts s = 10%nat ∧
  timers s' = [] ∧ timeouts (trace s') = timeouts (trace s) ∧
  timers (handleDisconnect quiet (calm 0) "transport close" s) = [] ∧
  dispatched "reconnect_failed" (trace s') = [PUndefined; PUndefined] ∧
  intervals s = [1%nat] ∧ intervals s' = [1%nat; 2%nat].
Proof. intros s s'. split_and!; by vm_compute. Qed.




(** C9.  [emit(event, data)] is the identity on the manager unless the
    manager is connected and holds a transport; only then is the message
    handed to the transport, and nothing but the trace changes. *)
Theorem emit_only_when_connected event data s :
  (isConnected s = false ∨ socket s = false → emit event data s = s) ∧
  (isConnected s = true → socket s = true →
     trace (emit event data s) = trace s ++ [SocketEmit event data] ∧
     sent (trace (emit event data s)) = sent (trace s) ++ [(event, data)] ∧
     same_machine s (emit event data s) ∧
     eventCallbacks (emit event data s) = eventCallbacks s) ∧
  (sent (trace (emit event data s)) ≠ sent (trace s) →
     isConnected s = true ∧ socket s = true).
Proof.
  unfold emit. split_and!.
  - intros [-> | ->]; [done|]. by rewrite andb_false_r.
  - intros -> ->. cbn [andb log trace eventCallbacks]. split_and!; try done.
    unfold sent. by rewrite omap_app.
  - destruct (isConnected s), (socket s); try done.
Qed.

Lemma emit_only_when_connected_witness :
  let s := opened ∅ in
  emit "execute_command" (PData "restart") s = s ∧
  sent (trace (emit "execute_command" (PData "restart") (set_isConnected true s))) =
    [("execute_command", PData "restart")].
Proof.
  intros s.
  destruct (emit_only_when_connected "execute_command" (PData "restart") s)
    as (Hdrop & _ & _).
  destruct (emit_only_when_connected "execute_command" (PData "restart")
              (set_isConnected true s)) as (_ & Hsend & _).
  split; [apply Hdrop; by left|].
  destruct Hsend as (_ & Hsent & _); [reflexivity|reflexivity|exact Hsent].
Defined.

(** ** Polling fallback *)

Section polling_facts.
Variable handlers : Handlers.



End polling_facts.





(** ** The dashboard's command execution *)

(** C10.  For every command and every way the request can settle,
    [executeCommand] returns normally.  When the dashboard is not connected
    it issues no request and shows the single error notification
    ['Not connected to bot'].  When it is connected it POSTs the command to
    [/api/execute]; a fetch that rejects (or a body that cannot be read) is
    caught and shown as the error notification ['Failed to execute command'],
    and a JSON answer is shown with its message, as a success or an error. *)
Theorem executeCommand_guarded command r d :
  let o := MuseBotDashboard.executeCommand command r d in
  let d' := MuseBotDashboard.final o in
  o = MuseBotDashboard.Returned d' ∧
  (MuseBotDashboard.isConnected d = false →
     MuseBotDashboard.effects d' =
       MuseBotDashboard.effects d ++
       [MuseBotDashboard.ShowNotification (Some "Not connected to bot") "error"] ∧
     MuseBotDashboard.requests (MuseBotDashboard.effects d') =
       MuseBotDashboard.requests (MuseBotDashboard.effects d)) ∧
  (MuseBotDashboard.isConnected d = true →
     MuseBotDashboard.requests (MuseBotDashboard.effects d') =
       MuseBotDashboard.requests (MuseBotDashboard.effects d) ++ [("/api/execute", command)] ∧
     MuseBotDashboard.notifications (MuseBotDashboard.effects d') =
       MuseBotDashboard.notifications (MuseBotDashboard.effects d) ++
       match r with
       | MuseBotDashboard.JsonData message success =>
           [(message, if success then "success" else "error")]
       | _ => [(Some "Failed to execute command", "error")]
       end).
Proof.
  cbv zeta. unfold MuseBotDashboard.executeCommand.
  destruct (MuseBotDashboard.isConnected d) eqn:Hc; cbn [negb].
  - split_and!; [by destruct r|done|].
    intros _. unfold MuseBotDashboard.requests, MuseBotDashboard.notifications.
    destruct r; cbn [MuseBotDashboard.execute_try MuseBotDashboard.final
                     MuseBotDashboard.perform MuseBotDashboard.effects];
      rewrite !omap_app; simpl; by rewrite ?app_nil_r.
  - split_and!; [done| |done].
    intros _. cbn [MuseBotDashboard.final MuseBotDashboard.perform MuseBotDashboard.effects].
    split; [done|]. unfold MuseBotDashboard.requests. rewrite omap_app. simpl.
    by rewrite app_nil_r.
Qed.

Lemma executeCommand_guarded_witness :
  let offline := {| MuseBotDashboard.isConnected := false; MuseBotDashboard.effects := [] |} in
  let online := {| MuseBotDashboard.isConnected := true; MuseBotDashboard.effects := [] |} in
  MuseBotDashboard.requests
    (MuseBotDashboard.effects
       (MuseBotDashboard.final
          (MuseBotDashboard.executeCommand "restart" MuseBotDashboard.FetchRejects offline)))
    = [] ∧
  MuseBotDashboard.notifications
    (MuseBotDashboard.effects
       (MuseBotDashboard.final
          (MuseBotDashboard.executeCommand "restart" MuseBotDashboard.FetchRejects online)))
    = [(Some "Failed to execute command", "error")].
Proof.
  intros offline online.
  destruct (executeCommand_guarded "restart" MuseBotDashboard.FetchRejects offline)
    as (_ & Hoff & _).
  destruct (executeCommand_guarded "restart" MuseBotDashboard.FetchRejects online)
    as (_ & _ & Hon).
  destruct (Hoff eq_refl) as [_ Hreq]. destruct (Hon eq_refl) as [_ Hnote].
  split; [exact Hreq|exact Hnote].
Defined.

(** * Further properties of the manager *)

(** ** Subscribing and unsubscribing *)

Lemma registrations_cons cb c l :
  registrations cb (c :: l) = (if decide (c = cb) then 1 else 0) + registrations cb l.
Proof.
  unfold registrations. case_decide.
  - by rewrite filter_cons_True.
  - by rewrite filter_cons_False.
Qed.

(** X1.  [on(event, cb)] followed by [off(event, cb)].  When [cb] was not
    registered for the event before, the array of the event is as it was
    (an event unknown before keeps an empty array).  When it was, [off]
    removes the older registration, not the one just added: the callback
    moves to the end of the array.  In both cases every callback is
    registered as many times as before, and the other events are untouched. *)
Theorem off_after_on event cb (reg : gmap string (list CallbackId)) :
  let l := default [] (reg !! event) in
  let reg' := off event cb (on event cb reg) in
  (cb ∉ l → reg' !! event = Some l) ∧
  (∀ l1 l2, l = l1 ++ cb :: l2 → cb ∉ l1 → reg' !! event = Some (l1 ++ l2 ++ [cb])) ∧
  (∀ cb', registrations cb' (default [] (reg' !! event)) = registrations cb' l) ∧
  (∀ event', event ≠ event' → reg' !! event' = reg !! event').
Proof.
  intros l reg'.
  assert (on event cb reg !! event = Some (l ++ [cb])) as Hon by apply on_lookup.
  assert (∀ l1 l2, l = l1 ++ cb :: l2 → cb ∉ l1 → reg' !! event = Some (l1 ++ l2 ++ [cb]))
    as Hmoved.
  { intros l1 l2 Hl Hnin. unfold reg'.
    rewrite (off_first event cb _ l1 (l2 ++ [cb])); [by rewrite lookup_insert_eq| |done].
    rewrite Hon, Hl. by rewrite <- app_assoc. }
  assert (cb ∉ l → reg' !! event = Some l) as Hsame.
  { intros Hnin. unfold reg'.
    rewrite (off_first event cb _ l []); [|by rewrite Hon|done].
    by rewrite lookup_insert_eq, app_nil_r. }
  split_and!; [exact Hsame|exact Hmoved| |].
  - intros cb'. destruct (decide (cb ∈ l)) as [Hin|Hnin].
    + apply list_elem_of_split_l in Hin as (l1 & l2 & Hl & Hnin).
      rewrite (Hmoved l1 l2 Hl Hnin), Hl. cbn [default id].
      rewrite !registrations_app, !registrations_cons.
      change (registrations cb' []) with 0. lia.
    + by rewrite (Hsame Hnin).
  - intros event' Hne. unfold reg'. by rewrite off_lookup_ne, on_lookup_ne.
Qed.

Lemma off_after_on_witness :
  let reg : gmap string (list CallbackId) := {[ "stats_update" := [7; 3; 5] ]} in
  off "stats_update" 7 (on "stats_update" 7 reg) !! "stats_update" = Some [3; 5; 7] ∧
  off "stats_update" 4 (on "stats_update" 4 reg) !! "stats_update" = Some [7; 3; 5].
Proof.
  intros reg.
  destruct (off_after_on "stats_update" 7 reg) as (_ & Hmoved & _).
  destruct (off_after_on "stats_update" 4 reg) as (Hsame & _).
  split.
  - apply (Hmoved [] [3; 5]); [reflexivity|apply not_elem_of_nil].
  - apply Hsame. change (4 ∉ [7; 3; 5]). rewrite !not_elem_of_cons.
    split_and!; try discriminate. apply not_elem_of_nil.
Defined.

(** ** Dispatch with arbitrary callbacks *)

Lemma forEach_live_bounded handlers n : ∀ k event data s,
  ∃ visited, (length visited ≤ n)%nat ∧
    trace (forEach_live handlers n k event data s) =
    trace s ++ visits handlers event data visited.
Proof.
  induction n as [|n IH]; intros k event data s; cbn [forEach_live].
  - exists []. split; [done|]. by rewrite app_nil_r.
  - destruct (eventCallbacks s !! event) as [l|]; [destruct (l !! k) as [cb|]|].
    + destruct (IH (S k) event data (guarded_callback handlers cb event data s))
        as (visited & Hlen & Ht).
      exists (cb :: visited). split; [simpl; lia|].
      rewrite Ht, guarded_callback_trace, (visits_cons _ _ _ cb visited).
      by rewrite <- app_assoc.
    + destruct (IH (S k) event data s) as (visited & Hlen & Ht).
      exists visited. split; [lia|done].
    + destruct (IH (S k) event data s) as (visited & Hlen & Ht).
      exists visited. split; [lia|done].
Qed.

Lemma invoked_visits handlers event data l :
  invoked event (visits handlers event data l) = l.
Proof.
  induction l as [|cb l IH]; [done|].
  rewrite (visits_cons _ _ _ cb l). unfold invoked in *. rewrite omap_app, IH.
  unfold visits. simpl. rewrite decide_True by done.
  by destruct (raises (handlers cb data)).
Qed.

Lemma invocations_visits handlers event data l :
  invocations (visits handlers event data l) = (λ cb, (cb, event, data)) <$> l.
Proof.
  induction l as [|cb l IH]; [done|].
  rewrite (visits_cons _ _ _ cb l). unfold invocations in *. rewrite omap_app, IH.
  unfold visits. simpl. by destruct (raises (handlers cb data)).
Qed.

(** X2.  Whatever the callbacks do to the registry while they run, one call
    of [triggerEvent] invokes at most as many callbacks as the array of the
    event held when the call started ([forEach] reads the length once), each
    of them for this event and with this payload; for an event nobody has
    subscribed to it invokes nothing.  It changes no field of the manager
    other than the registry and the trace. *)
Theorem triggerEvent_bounded handlers event data s :
  let new := since s (triggerEvent handlers event data s) in
  (length (invoked event new) ≤ length (default [] (eventCallbacks s !! event)))%nat ∧
  invocations new = (λ cb, (cb, event, data)) <$> invoked event new ∧
  (eventCallbacks s !! event = None →
     triggerEvent handlers event data s = log (Dispatch event data) s) ∧
  same_machine s (triggerEvent handlers event data s).
Proof.
  cbv zeta.
  assert (∃ visited,
            (length visited ≤ length (default [] (eventCallbacks s !! event)))%nat ∧
            since s (triggerEvent handlers event data s) =
              Dispatch event data :: visits handlers event data visited)
    as (visited & Hlen & Hsince).
  { unfold triggerEvent. cbn [log eventCallbacks].
    destruct (eventCallbacks s !! event) as [l|].
    - destruct (forEach_live_bounded handlers (length l) 0 event data
                  (log (Dispatch event data) s)) as (visited & Hlen & Ht).
      exists visited. split; [done|]. apply since_app. rewrite Ht.
      cbn [log trace]. by rewrite <- app_assoc.
    - exists []. split; [done|]. by apply since_app. }
  rewrite Hsince.
  change (Dispatch event data :: visits handlers event data visited)
    with ([Dispatch event data] ++ visits handlers event data visited).
  unfold invoked, invocations. rewrite !omap_app.
  fold (invoked event (visits handlers event data visited)).
  fold (invocations (visits handlers event data visited)).
  rewrite invoked_visits, invocations_visits.
  split_and!; [done|done| |apply triggerEvent_frame].
  intros Hnone. unfold triggerEvent. cbn [log eventCallbacks]. by rewrite Hnone.
Qed.

Lemma triggerEvent_bounded_witness :
  let s := set_eventCallbacks {[ "stats_update" := [1; 2] ]} constructed in
  triggerEvent first_unsubscribes "system_alert" (PData "{}") s =
    log (Dispatch "system_alert" (PData "{}")) s.
Proof.
  intros s.
  destruct (triggerEvent_bounded first_unsubscribes "system_alert" (PData "{}") s)
    as (_ & _ & Hnone & _).
  apply Hnone. reflexivity.
Defined.

(** ** Invariants of the event loop *)

Section invariant_facts.
Variable handlers : Handlers.

Lemma well_formed_same s s' : same_machine s s' → well_formed s → well_formed s'.
Proof.
  intros (H1 & H2 & H3 & H4 & H5 & H6 & H7 & H8 & H9).
  unfold well_formed. by rewrite H1, H3, H4, H5, H6, H8.
Qed.

Lemma well_formed_triggerEvent event data s :
  well_formed s → well_formed (triggerEvent handlers event data s).
Proof. apply well_formed_same, triggerEvent_frame. Qed.

Lemma well_formed_setupPollingFallback s :
  well_formed s → well_formed (setupPollingFallback handlers s).
Proof.
  intros Hwf. unfold setupPollingFallback.
  assert (well_formed (triggerEvent handlers "polling_started" PUndefined
                         (log (Console "Setting up polling fallback...") s)))
    as (Ha & Hb & Hc & _) by by apply well_formed_triggerEvent.
  by unfold well_formed.
Qed.

Lemma well_formed_scheduleReconnect env s :
  well_formed s → well_formed (scheduleReconnect handlers env s).
Proof.
  intros Hwf. unfold scheduleReconnect.
  destruct (maxReconnectAttempts s <=? reconnectAttempts s)%nat; [|done].
  unfold handleReconnectFailed.
  by apply well_formed_setupPollingFallback, well_formed_triggerEvent.
Qed.

Lemma well_formed_handleConnectionError env error s :
  well_formed s → well_formed (handleConnectionError handlers env error s).
Proof.
  intros Hwf. unfold handleConnectionError.
  by apply well_formed_scheduleReconnect, well_formed_triggerEvent.
Qed.

Lemma well_formed_handleConnect s :
  socket s = true → well_formed s → well_formed (state_of (handleConnect handlers s)).
Proof.
  intros Hsock (Ha & Hb & Hc & Hd). unfold handleConnect.
  assert (well_formed (triggerEvent handlers "connection_change" (PConnection true None)
                         (set_reconnectAttempts 0 (set_isConnected true s)))) as Hwf.
  { by apply well_formed_triggerEvent. }
  by destruct (socket (triggerEvent _ _ _ _)).
Qed.

Lemma well_formed_handleDisconnect env reason s :
  well_formed s → well_formed (handleDisconnect handlers env reason s).
Proof.
  intros (Ha & Hb & Hc & Hd). unfold handleDisconnect.
  assert (well_formed (triggerEvent handlers "connection_change"
                         (PConnection false (Some reason)) (set_isConnected false s)))
    as Hwf by by apply well_formed_triggerEvent.
  case_decide; [by apply well_formed_scheduleReconnect|done].
Qed.

Lemma well_formed_connect env s : well_formed s → well_formed (connect handlers env s).
Proof.
  intros (Ha & Hb & Hc & Hd). unfold connect.
  destruct (io_throws env); [by apply well_formed_handleConnectionError|].
  destruct (socket_on_throws env); [by apply well_formed_handleConnectionError|done].
Qed.

Lemma well_formed_attemptReconnect env s :
  well_formed s → well_formed (state_of (attemptReconnect handlers env s)).
Proof.
  intros Hwf. pose proof Hwf as (Ha & Hb & Hc & Hd). unfold attemptReconnect.
  destruct (isConnected s) eqn:Hconn; [done|].
  cbn [socket log set_reconnectAttempts].
  destruct (socket s) eqn:Hsock.
  - destruct (socket_connect_throws env); cbn [state_of]; unfold well_formed;
      cbn [isConnected socket log set_reconnectAttempts maxReconnectAttempts
           reconnectDelay pollingInterval intervals]; by rewrite ?Hconn.
  - cbn [state_of]. apply well_formed_connect. unfold well_formed.
    cbn [isConnected socket log set_reconnectAttempts maxReconnectAttempts
         reconnectDelay pollingInterval intervals]. by rewrite ?Hconn.
Qed.

Lemma well_formed_clearInterval handle s :
  well_formed s → well_formed (clearInterval handle s).
Proof.
  intros (Ha & Hb & Hc & Hd). unfold well_formed. cbn. split_and!; try done.
  intros Hp. by rewrite (Hd Hp).
Qed.

Lemma well_formed_step env i s : well_formed s → well_formed (step handlers env i s).
Proof.
  intros Hwf. pose proof Hwf as (Ha & Hb & Hc & Hd). unfold step. destruct i.
  - destruct (socket s) eqn:Hsock; [|done]. by apply well_formed_handleConnect.
  - destruct (socket s); [|done]. by apply well_formed_handleDisconnect.
  - destruct (socket s); [|done]. by apply well_formed_handleConnectionError.
  - destruct (socket s); [|done]. by apply well_formed_triggerEvent.
  - destruct (socket s); [|done]. by apply well_formed_triggerEvent.
  - by destruct (socket s).
  - destruct (socket s); [|done]. unfold handleReconnectFailed.
    by apply well_formed_setupPollingFallback, well_formed_triggerEvent.
  - destruct (socket s); [|done]. case_decide; [|done].
    by apply well_formed_triggerEvent.
  - by apply well_formed_attemptReconnect.
  - by apply well_formed_triggerEvent.
  - destruct (negb hidden && negb (isConnected s)); [|done].
    by apply well_formed_attemptReconnect.
  - destruct (timers s !! k); [|done]. by apply well_formed_attemptReconnect.
  - case_decide; [|done]. unfold pollingTick, pollForUpdates.
    destruct (isConnected s); [by apply well_formed_clearInterval|done].
  - unfold pollForUpdates_settled. destruct r as [|[] []]; try done.
    by apply well_formed_triggerEvent.
Qed.

End invariant_facts.

(** X3.  From construction on, whatever the browser and the transport
    deliver, whatever the libraries answer and whatever is subscribed in
    between: the manager is never marked connected without holding a
    transport, [maxReconnectAttempts] stays 10 and [reconnectDelay] stays
    1000, and an interval is live only if [this.pollingInterval] has been
    set.  [destroy()] keeps this too.  So [emit] hands a message to the
    transport exactly when [isConnected] is set: its test of [this.socket]
    never decides. *)
Theorem manager_stays_well_formed handlers env0 inputs s :
  well_formed (new_SocketManager handlers env0) ∧
  (well_formed s →
     well_formed (run handlers inputs s) ∧
     (∀ reg, well_formed (set_eventCallbacks reg s)) ∧
     well_formed (destroy s) ∧
     (∀ event data,
        sent (trace (emit event data s)) ≠ sent (trace s) ↔ isConnected s = true)).
Proof.
  split.
  - unfold new_SocketManager. by apply well_formed_connect.
  - intros Hwf. split_and!.
    + revert s Hwf. induction inputs as [|[env i] inputs IH]; intros s Hwf; [done|].
      apply IH. by apply well_formed_step.
    + done.
    + destruct Hwf as (Ha & Hb & Hc & Hd). unfold destroy, disconnect.
      cbn [pollingInterval set_eventCallbacks set_isConnected].
      destruct (socket s); cbn [pollingInterval log];
        (destruct (pollingInterval s) as [h|] eqn:Hp;
         [case_decide; [|apply well_formed_clearInterval]|]); unfold well_formed; cbn;
        try done; rewrite ?Hp; done.
    + intros event data. destruct Hwf as (Ha & _). unfold emit.
      destruct (isConnected s) eqn:Hconn.
      * rewrite (Ha eq_refl). cbn [andb log trace]. unfold sent. rewrite omap_app.
        split; [done|]. intros _ Heq. simpl in Heq.
        apply (f_equal length) in Heq. rewrite length_app in Heq. simpl in Heq. lia.
      * cbn [andb]. split; [done|discriminate].
Qed.

Lemma manager_stays_well_formed_witness :
  let s := run second_raises
             (failures (replicate 10 (1 # 2)%Q) 0 ++ [(calm 0, OnConnect)])
             (opened {[ "connection_change" := [1; 2] ]}) in
  isConnected s = true ∧ socket s = true ∧ maxReconnectAttempts s = 10.
Proof.
  intros s.
  destruct (manager_stays_well_formed second_raises (calm 0)
              (failures (replicate 10 (1 # 2)%Q) 0 ++ [(calm 0, OnConnect)])
              (opened {[ "connection_change" := [1; 2] ]})) as [_ Hrun].
  destruct Hrun as ((Ha & Hb & _) & _).
  { unfold well_formed. split_and!; [done|reflexivity|reflexivity|done]. }
  assert (isConnected s = true) as Hconn by (by vm_compute).
  split_and!; [exact Hconn|exact (Ha Hconn)|exact Hb].
Defined.

(** ** Every scheduled delay is within the backoff range *)

Lemma base_delay_range (n : nat) :
  (1000 <= Qmin (1000 * (3 # 2) ^ Z.of_nat n) 30000)%Q ∧
  (Qmin (1000 * (3 # 2) ^ Z.of_nat n) 30000 <= 30000)%Q.
Proof.
  split; [|apply Q.le_min_r].
  apply Q.min_glb; [|by vm_compute].
  assert (1 <= (3 # 2) ^ Z.of_nat n)%Q as Hpow.
  { apply Qpower_1_le; [by vm_compute|lia]. }
  lra.
Qed.

Lemma calculateReconnectDelay_in_range env s :
  reconnectDelay s = 1000%Q → fair env →
  in_backoff_range (calculateReconnectDelay (random env) s).
Proof.
  intros Hd [H0 H1]. unfold in_backoff_range, calculateReconnectDelay. rewrite Hd.
  destruct (base_delay_range (reconnectAttempts s)) as [Hlo Hhi]. lra.
Qed.

(** The delay computed on doubles is in the backoff range as well. *)
Lemma calculateReconnectDelay_rounded_in_range fl env s :
  Binary64.rounding fl → fair env → reconnectDelay s = 1000%Q →
  in_backoff_range (calculateReconnectDelay_rounded fl (random env) s).
Proof.
  intros Hfl [H0 H1] Hd.
  destruct (calculateReconnectDelay_rounded_range fl (random env) s Hfl H0 H1 Hd)
    as [Hlo Hhi].
  destruct (base_delay_range (reconnectAttempts s)) as [Hb1 Hb2].
  unfold in_backoff_range. lra.
Qed.

Section delay_facts.
Variable handlers : Handlers.

Lemma delays_similar s s' : similar s s' → delays_in_range s → delays_in_range s'.
Proof.
  intros [(_ & _ & _ & _ & _ & _ & Ht & _) Htr] [H1 H2]. split; [|by rewrite Ht].
  unfold timeouts in *.
  rewrite <- (omap_silent _ (trace s')) by (by intros []).
  rewrite Htr. by rewrite omap_silent by (by intros []).
Qed.

Lemma delays_log e s :
  (∀ d, e ≠ SetTimeout d) → delays_in_range s → delays_in_range (log e s).
Proof.
  intros He [H1 H2]. split; [|done]. cbn [log trace]. unfold timeouts in *.
  rewrite omap_app. apply Forall_app. split; [done|].
  destruct e; simpl; try done. by destruct (He delay).
Qed.

Lemma delays_triggerEvent event data s :
  delays_in_range s → delays_in_range (triggerEvent handlers event data s).
Proof.
  intros Hd. apply (delays_similar _ _ (triggerEvent_similar handlers event data s)).
  by apply delays_log.
Qed.

Lemma reconnectDelay_triggerEvent event data s :
  reconnectDelay (triggerEvent handlers event data s) = reconnectDelay s.
Proof. by destruct (triggerEvent_frame handlers event data s) as ((_ & _ & _ & H & _) & _). Qed.

Lemma delays_setupPollingFallback s :
  delays_in_range s → delays_in_range (setupPollingFallback handlers s).
Proof.
  intros Hd. unfold setupPollingFallback.
  assert (delays_in_range (triggerEvent handlers "polling_started" PUndefined
                             (log (Console "Setting up polling fallback...") s)))
    as [H1 H2] by by apply delays_triggerEvent, delays_log.
  split; [|done]. cbn [start_interval trace]. unfold timeouts in *.
  rewrite omap_app. apply Forall_app. by split.
Qed.

Lemma delays_scheduleReconnect env s :
  reconnectDelay s = 1000%Q → fair env →
  delays_in_range s → delays_in_range (scheduleReconnect handlers env s).
Proof.
  intros Hrd Hfair Hd. unfold scheduleReconnect.
  destruct (maxReconnectAttempts s <=? reconnectAttempts s)%nat.
  - unfold handleReconnectFailed.
    by apply delays_setupPollingFallback, delays_triggerEvent, delays_log.
  - pose proof (calculateReconnectDelay_in_range env s Hrd Hfair) as Hin.
    destruct Hd as [H1 H2]. split.
    + cbn [set_timers log trace]. unfold timeouts in *. rewrite !omap_app.
      rewrite !Forall_app. split_and!; [done|done|]. by apply Forall_singleton.
    + cbn [set_timers log timers]. apply Forall_app. split; [done|].
      by apply Forall_singleton.
Qed.

Lemma delays_handleConnectionError env error s :
  reconnectDelay s = 1000%Q → fair env →
  delays_in_range s → delays_in_range (handleConnectionError handlers env error s).
Proof.
  intros Hrd Hfair Hd. unfold handleConnectionError.
  apply delays_scheduleReconnect; [by rewrite reconnectDelay_triggerEvent|done|].
  by apply delays_triggerEvent.
Qed.

Lemma delays_connect env s :
  reconnectDelay s = 1000%Q → fair env →
  delays_in_range s → delays_in_range (connect handlers env s).
Proof.
  intros Hrd Hfair Hd. unfold connect.
  assert (delays_in_range (log IoOpen (log (Console "Connecting to WebSocket server...") s)))
    as Hd1 by (apply delays_log; [done|]; by apply delays_log).
  destruct (io_throws env).
  { apply delays_handleConnectionError; [done|done|]. by apply delays_log. }
  assert (delays_in_range
            (log SocketHandlers
               (set_socket true
                  (log IoOpen (log (Console "Connecting to WebSocket server...") s)))))
    as Hd2 by (by apply delays_log).
  destruct (socket_on_throws env); [|done].
  apply delays_handleConnectionError; [done|done|]. by apply delays_log.
Qed.

Lemma delays_attemptReconnect env s :
  reconnectDelay s = 1000%Q → fair env →
  delays_in_range s → delays_in_range (state_of (attemptReconnect handlers env s)).
Proof.
  intros Hrd Hfair Hd. unfold attemptReconnect.
  destruct (isConnected s); [done|].
  assert (delays_in_range
            (log (ConsoleAttempt (S (reconnectAttempts s)) (maxReconnectAttempts s))
               (set_reconnectAttempts (S (reconnectAttempts s)) s))) as Hd1.
  { by apply delays_log. }
  cbn [socket log set_reconnectAttempts reconnectAttempts maxReconnectAttempts].
  destruct (socket s).
  - destruct (socket_connect_throws env); cbn [state_of]; by apply delays_log.
  - cbn [state_of]. by apply delays_connect.
Qed.

Lemma delays_step env i s :
  reconnectDelay s = 1000%Q → fair env →
  delays_in_range s → delays_in_range (step handlers env i s).
Proof.
  intros Hrd Hfair Hd. unfold step. destruct i.
  - destruct (socket s); [|done]. unfold handleConnect.
    assert (delays_in_range
              (triggerEvent handlers "connection_change" (PConnection true None)
                 (set_reconnectAttempts 0 (set_isConnected true
                    (log (Console "WebSocket connected successfully") s))))) as Hd1.
    { apply delays_triggerEvent.
      by apply (delays_log (Console "WebSocket connected successfully")) in Hd. }
    destruct (socket (triggerEvent _ _ _ _)); cbn [state_of]; [by apply delays_log|done].
  - destruct (socket s); [|done]. unfold handleDisconnect.
    assert (delays_in_range
              (triggerEvent handlers "connection_change" (PConnection false (Some reason))
                 (set_isConnected false (log (Console "WebSocket disconnected:") s))))
      as Hd1.
    { apply delays_triggerEvent.
      by apply (delays_log (Console "WebSocket disconnected:")) in Hd. }
    case_decide; [|done].
    apply delays_scheduleReconnect; [by rewrite reconnectDelay_triggerEvent|done|done].
  - destruct (socket s); [|done].
    apply delays_handleConnectionError; [done|done|by apply delays_log].
  - destruct (socket s); [|done]. unfold handleReconnect. apply delays_triggerEvent.
    by apply (delays_log (Console "Reconnected")) in Hd.
  - destruct (socket s); [|done]. unfold handleReconnectAttempt. apply delays_triggerEvent.
    by apply (delays_log (Console "Reconnection attempt")) in Hd.
  - destruct (socket s); [by apply delays_log|done].
  - destruct (socket s); [|done]. unfold handleReconnectFailed.
    by apply delays_setupPollingFallback, delays_triggerEvent, delays_log.
  - destruct (socket s); [|done]. case_decide; [|done]. by apply delays_triggerEvent.
  - apply delays_attemptReconnect; [done|done|by apply delays_log].
  - unfold handleOffline. by apply delays_triggerEvent, delays_log.
  - destruct (negb hidden && negb (isConnected s)); [|done].
    by apply delays_attemptReconnect.
  - destruct (timers s !! k); [|done].
    apply delays_attemptReconnect; [done|done|].
    destruct Hd as [H1 H2]. split; [done|]. cbn [set_timers timers].
    by apply Forall_delete.
  - case_decide; [|done]. unfold pollingTick, pollForUpdates.
    destruct (isConnected s); [|by apply delays_log].
    destruct Hd as [H1 H2]. split; [|done]. cbn [clearInterval trace].
    unfold timeouts in *. rewrite omap_app. apply Forall_app. by split.
  - unfold pollForUpdates_settled. destruct r as [|[] []]; try done;
      by (apply delays_triggerEvent || apply delays_log).
Qed.

End delay_facts.

(** X4.  Provided [Math.random()] answers in [0, 1), every reconnect timeout
    the manager ever sets, and every one that is pending, is at least 1000 ms
    and at most 31000 ms: at construction, and after any sequence of events,
    whatever the callbacks and the registry are.  In every state so reached,
    the delay that [calculateReconnectDelay] computes on doubles, whatever
    the rounding, is in that range too. *)
Theorem reconnect_delays_in_range handlers env0 inputs s :
  (fair env0 → delays_in_range (new_SocketManager handlers env0)) ∧
  (well_formed s → delays_in_range s → Forall (λ ei, fair ei.1) inputs →
     delays_in_range (run handlers inputs s) ∧
     (∀ reg, delays_in_range (set_eventCallbacks reg s)) ∧
     (∀ fl env, Binary64.rounding fl → fair env →
        in_backoff_range
          (calculateReconnectDelay_rounded fl (random env) (run handlers inputs s)))).
Proof.
  split.
  - intros Hfair. unfold new_SocketManager.
    apply delays_connect; [done|done|]. by split; apply Forall_nil.
  - intros Hwf Hd Hfair.
    assert (Hrun : well_formed (run handlers inputs s)
                   ∧ delays_in_range (run handlers inputs s)).
    { revert s Hwf Hd.
      induction Hfair as [|[env i] inputs Hf _ IH]; intros s Hwf Hd; [done|].
      apply IH; [by apply well_formed_step|].
      destruct Hwf as (_ & _ & Hrd & _). by apply delays_step. }
    destruct Hrun as [(_ & _ & Hrd & _) Hrange].
    split_and!; [exact Hrange|done|].
    intros fl env Hfl Hf. by apply calculateReconnectDelay_rounded_in_range.
Qed.

Lemma reconnect_delays_in_range_witness :
  let s := run second_raises (failures (replicate 9 (1 # 2)%Q) (3 # 4))
             (opened {[ "connection_error" := [1; 2] ]}) in
  Forall in_backoff_range (timers s) ∧ length (timers s) = 1 ∧
  in_backoff_range
    (calculateReconnectDelay_rounded Binary64.double
       (4503599627370495 # 4503599627370496) s).
Proof.
  intros s.
  destruct (reconnect_delays_in_range second_raises (calm 0)
              (failures (replicate 9 (1 # 2)%Q) (3 # 4))
              (opened {[ "connection_error" := [1; 2] ]})) as [_ Hrun].
  destruct Hrun as ([_ Ht] & _ & Hfl).
  - unfold well_formed. split_and!; [done|reflexivity|reflexivity|done].
  - split; vm_compute; constructor.
  - unfold failures, failed_attempt. simpl.
    repeat (apply Forall_cons; split; [split; by vm_compute|]). constructor.
  - split_and!; [exact Ht|by vm_compute|].
    apply (Hfl Binary64.double (calm (4503599627370495 # 4503599627370496)));
      [exact double_rounding|split; by vm_compute].
Defined.


(** ** The shape of the backoff *)

(** X5.  With the same jitter, a higher attempt count never gives a shorter
    delay, and from attempt 9 on the delay no longer grows: it is 30000 ms
    plus the jitter. *)
Theorem backoff_grows_then_saturates rnd s1 s2 :
  reconnectDelay s1 = 1000%Q → reconnectDelay s2 = 1000%Q →
  (reconnectAttempts s1 ≤ reconnectAttempts s2)%nat →
  (calculateReconnectDelay rnd s1 <= calculateReconnectDelay rnd s2)%Q ∧
  ((9 ≤ reconnectAttempts s1)%nat →
     (calculateReconnectDelay rnd s1 == 30000 + rnd * 1000)%Q ∧
     (calculateReconnectDelay rnd s2 == 30000 + rnd * 1000)%Q).
Proof.
  intros Hd1 Hd2 Hle. unfold calculateReconnectDelay. rewrite Hd1, Hd2.
  split.
  - apply Qplus_le_l. apply Q.min_le_compat_r.
    apply Qmult_le_l; [reflexivity|].
    apply Qpower_le_compat_l; [lia|by vm_compute].
  - intros H9.
    pose proof (uncapped_gt_cap (reconnectAttempts s1) H9) as Hc1.
    pose proof (uncapped_gt_cap (reconnectAttempts s2) ltac:(lia)) as Hc2.
    split; apply Qplus_inj_r, Q.min_r; lra.
Qed.

Lemma backoff_grows_then_saturates_witness :
  (calculateReconnectDelay (1 # 2) (set_reconnectAttempts 3 constructed) <=
   calculateReconnectDelay (1 # 2) (set_reconnectAttempts 7 constructed))%Q ∧
  (calculateReconnectDelay (1 # 2) (set_reconnectAttempts 12 constructed) == 30500)%Q.
Proof.
  destruct (backoff_grows_then_saturates (1 # 2) (set_reconnectAttempts 3 constructed)
              (set_reconnectAttempts 7 constructed)) as [Hle _];
    [reflexivity|reflexivity|simpl; lia|].
  destruct (backoff_grows_then_saturates (1 # 2) (set_reconnectAttempts 12 constructed)
              (set_reconnectAttempts 12 constructed)) as [_ Hsat];
    [reflexivity|reflexivity|simpl; lia|].
  destruct Hsat as [Heq _]; [simpl; lia|].
  split; [exact Hle|]. rewrite Heq. reflexivity.
Defined.

(** ** The transport's own reconnection events *)

(** X6.  The transport's [reconnect_attempt] event overwrites the manager's
    attempt counter with the transport's attempt number, and its [reconnect]
    event resets the counter to 0; both are dispatched to the subscribers.
    The next [connect_error] therefore backs off by the transport's number:
    below the limit it sets the timeout for that number, at or above the
    limit it starts the polling fallback at once. *)
Theorem transport_attempt_number_sets_backoff handlers env n error s :
  socket s = true →
  let s1 := step handlers env (OnReconnectAttempt n) s in
  let s2 := step handlers env (OnConnectError error) s1 in
  let s0 := step handlers env (OnReconnect n) s in
  (reconnectAttempts s1 = n ∧
   dispatched "reconnect_attempt" (trace s1) =
     dispatched "reconnect_attempt" (trace s) ++ [PAttempt n]) ∧
  (reconnectAttempts s0 = 0 ∧ isConnected s0 = isConnected s ∧
   dispatched "reconnect" (trace s0) = dispatched "reconnect" (trace s) ++ [PAttempt n]) ∧
  ((n < maxReconnectAttempts s)%nat →
     timers s2 = timers s ++ [calculateReconnectDelay (random env) s1] ∧
     dispatched "reconnect_failed" (trace s2) = dispatched "reconnect_failed" (trace s)) ∧
  ((maxReconnectAttempts s ≤ n)%nat →
     timers s2 = timers s ∧
     dispatched "reconnect_failed" (trace s2) =
       dispatched "reconnect_failed" (trace s) ++ [PUndefined] ∧
     intervals s2 = intervals s ++ [nextHandle s]).
Proof.
  intros Hsock. cbv zeta.
  assert (∀ event data v label,
            let s' := triggerEvent handlers event data
                        (set_reconnectAttempts v (log (Console label) s)) in
            socket s' = true ∧ reconnectAttempts s' = v ∧
            maxReconnectAttempts s' = maxReconnectAttempts s ∧
            isConnected s' = isConnected s ∧ timers s' = timers s ∧
            intervals s' = intervals s ∧ nextHandle s' = nextHandle s ∧
            silent (trace s') = silent (trace s) ++ [Console label; Dispatch event data])
    as Hevent.
  { intros event data v label. cbv zeta.
    destruct (triggerEvent_effect handlers event data
                (set_reconnectAttempts v (log (Console label) s)))
      as [(H1 & H2 & H3 & _ & H5 & _ & H7 & H8 & H9) Htr].
    cbn [set_reconnectAttempts log socket reconnectAttempts maxReconnectAttempts
         isConnected timers intervals nextHandle trace] in *.
    split_and!; try congruence.
    rewrite Htr, silent_app. by rewrite <- app_assoc. }
  assert (step handlers env (OnReconnectAttempt n) s =
          triggerEvent handlers "reconnect_attempt" (PAttempt n)
            (set_reconnectAttempts n (log (Console "Reconnection attempt") s))) as ->.
  { unfold step, handleReconnectAttempt. by rewrite Hsock. }
  assert (step handlers env (OnReconnect n) s =
          triggerEvent handlers "reconnect" (PAttempt n)
            (set_reconnectAttempts 0 (log (Console "Reconnected") s))) as ->.
  { unfold step, handleReconnect. by rewrite Hsock. }
  destruct (Hevent "reconnect_attempt" (PAttempt n) n "Reconnection attempt")
    as (Hs1 & Ha1 & Hm1 & Hc1 & Ht1 & Hi1 & Hn1 & Htr1).
  destruct (Hevent "reconnect" (PAttempt n) 0 "Reconnected")
    as (Hs0 & Ha0 & Hm0 & Hc0 & Ht0 & Hi0 & Hn0 & Htr0).
  set (s1 := triggerEvent handlers "reconnect_attempt" _ _) in *.
  set (s0 := triggerEvent handlers "reconnect" _ _) in *. clearbody s1 s0.
  split_and!.
  - exact Ha1.
  - by rewrite (dispatched_grow _ _ _ _ Htr1).
  - exact Ha0.
  - exact Hc0.
  - by rewrite (dispatched_grow _ _ _ _ Htr0).
  - intros Hlt.
    pose proof (connect_error_below handlers env error s1 Hs1 ltac:(lia)) as Hbelow.
    cbv zeta in Hbelow. destruct Hbelow as [(_ & _ & _ & _ & _ & _ & Ht & _) Htr].
    cbn [set_timers timers] in Ht. split; [by rewrite Ht, Ht1|].
    rewrite (dispatched_grow _ _ _ _ Htr), (dispatched_grow _ _ _ _ Htr1).
    by rewrite !app_nil_r.
  - intros Hge.
    pose proof (connect_error_at_limit handlers env error s1 Hs1 ltac:(lia)) as Hlim.
    cbv zeta in Hlim. destruct Hlim as (_ & _ & Ht & _ & _ & Hi & _ & _ & Htr).
    split_and!; [congruence| |congruence].
    rewrite (dispatched_grow _ _ _ _ Htr), (dispatched_grow _ _ _ _ Htr1).
    by rewrite app_nil_r.
Qed.

Lemma transport_attempt_number_sets_backoff_witness :
  let s := opened {[ "reconnect_attempt" := [1; 2] ]} in
  reconnectAttempts (step second_raises (calm 0) (OnReconnectAttempt 10) s) = 10 ∧
  intervals
    (step second_raises (calm 0) (OnConnectError "timeout")
       (step second_raises (calm 0) (OnReconnectAttempt 10) s)) = [1].
Proof.
  intros s.
  destruct (transport_attempt_number_sets_backoff second_raises (calm 0) 10 "timeout" s)
    as ((Ha & _) & _ & _ & Hlim); [reflexivity|].
  destruct Hlim as (_ & _ & Hi); [by vm_compute|].
  split; [exact Ha|exact Hi].
Defined.

(** ** Retries that are overtaken by a reconnection *)

Lemma connect_calls_grow s s' t :
  silent (trace s') = silent (trace s) ++ t →
  connect_calls (trace s') = connect_calls (trace s) + connect_calls t.
Proof.
  intros Htr. unfold connect_calls.
  rewrite (observe_silent _ s s' t) by (by intros [] || done). apply length_app.
Qed.

Section overtaken_facts.
Variable handlers : Handlers.

Lemma disconnect_event_below env reason s :
  socket s = true → reason ≠ "io client disconnect" →
  (reconnectAttempts s < maxReconnectAttempts s)%nat →
  let s' := step handlers env (OnDisconnect reason) s in
  let delay := calculateReconnectDelay (random env) s in
  same_machine (set_timers (timers s ++ [delay]) (set_isConnected false s)) s' ∧
  silent (trace s') = silent (trace s) ++
    [Console "WebSocket disconnected:";
     Dispatch "connection_change" (PConnection false (Some reason));
     ConsoleScheduling delay; SetTimeout delay].
Proof.
  intros Hsock Hne Hlt. cbv zeta. unfold step. rewrite Hsock.
  rewrite (handleDisconnect_other _ _ _ _ Hne).
  destruct (triggerEvent_effect handlers "connection_change"
              (PConnection false (Some reason))
              (set_isConnected false (log (Console "WebSocket disconnected:") s)))
    as [Hsame Htr].
  set (s1 := triggerEvent handlers "connection_change" _ _) in *. clearbody s1.
  pose proof Hsame as (H1 & H2 & H3 & H4 & H5 & H6 & H7 & H8 & H9).
  cbn [set_isConnected log socket reconnectAttempts maxReconnectAttempts reconnectDelay
       isConnected pollingInterval timers intervals nextHandle trace] in *.
  rewrite scheduleReconnect_below by lia.
  rewrite (calculateReconnectDelay_same _ _ s1 Hsame).
  change (calculateReconnectDelay (random env)
            (set_isConnected false (log (Console "WebSocket disconnected:") s)))
    with (calculateReconnectDelay (random env) s).
  split.
  - unfold same_machine.
    cbn [set_timers set_isConnected log socket reconnectAttempts maxReconnectAttempts
         reconnectDelay isConnected pollingInterval timers intervals nextHandle].
    rewrite H7. by split_and!.
  - cbn [set_timers log trace]. rewrite !silent_app, Htr, silent_app.
    by rewrite <- !app_assoc.
Qed.

Lemma connect_event_effect env s :
  socket s = true →
  let s' := step handlers env OnConnect s in
  same_machine (set_reconnectAttempts 0 (set_isConnected true s)) s' ∧
  silent (trace s') = silent (trace s) ++
    [Console "WebSocket connected successfully";
     Dispatch "connection_change" (PConnection true None);
     SocketEmit "get_initial_data" PUndefined].
Proof.
  intros Hsock. cbv zeta. unfold step. rewrite Hsock. unfold handleConnect.
  destruct (triggerEvent_effect handlers "connection_change" (PConnection true None)
              (set_reconnectAttempts 0 (set_isConnected true
                 (log (Console "WebSocket connected successfully") s))))
    as [Hsame Htr].
  set (s1 := triggerEvent handlers "connection_change" _ _) in *. clearbody s1.
  pose proof Hsame as (H1 & H2 & H3 & H4 & H5 & H6 & H7 & H8 & H9).
  cbn [set_isConnected set_reconnectAttempts log socket reconnectAttempts
       maxReconnectAttempts reconnectDelay isConnected pollingInterval timers intervals
       nextHandle trace] in *.
  rewrite H1, Hsock. cbn [state_of]. split.
  - unfold same_machine.
    cbn [set_isConnected set_reconnectAttempts log socket reconnectAttempts
         maxReconnectAttempts reconnectDelay isConnected pollingInterval timers intervals
         nextHandle].
    by split_and!.
  - cbn [log trace]. rewrite !silent_app, Htr, silent_app. by rewrite <- !app_assoc.
Qed.

End overtaken_facts.

(** X7.  A disconnect (other than the local close) below the limit sets a
    reconnect timeout.  If the transport reconnects by itself before that
    timeout expires, the expiry does nothing: [this.socket.connect()] is not
    called, the attempt counter stays at 0 and the manager stays connected.
    The same holds of the browser's [online] and [visibilitychange] events
    while the manager is connected. *)
Theorem reconnection_defuses_pending_retry handlers env reason hidden s :
  socket s = true → reason ≠ "io client disconnect" →
  (reconnectAttempts s < maxReconnectAttempts s)%nat →
  let delay := calculateReconnectDelay (random env) s in
  let s1 := run handlers [(env, OnDisconnect reason); (env, OnConnect)] s in
  let s2 := step handlers env (TimerFires (length (timers s))) s1 in
  (isConnected s1 = true ∧ reconnectAttempts s1 = 0 ∧ timers s1 = timers s ++ [delay]) ∧
  (isConnected s2 = true ∧ reconnectAttempts s2 = 0 ∧ timers s2 = timers s ∧
   connect_calls (trace s2) = connect_calls (trace s) ∧
   timeouts (trace s2) = timeouts (trace s) ++ [delay]) ∧
  connect_calls (trace (step handlers env BrowserOnline s1)) = connect_calls (trace s) ∧
  step handlers env (VisibilityChange hidden) s1 = s1.
Proof.
  intros Hsock Hne Hlt delay s1 s2.
  pose proof (disconnect_event_below handlers env reason s Hsock Hne Hlt) as Hdis.
  cbv zeta in Hdis. fold delay in Hdis.
  change s1 with (step handlers env OnConnect (step handlers env (OnDisconnect reason) s))
    in *.
  set (sa := step handlers env (OnDisconnect reason) s) in *. clearbody sa.
  destruct Hdis as [(A1 & A2 & A3 & A4 & A5 & A6 & A7 & A8 & A9) Atr].
  cbn [set_timers set_isConnected socket reconnectAttempts maxReconnectAttempts
       reconnectDelay isConnected pollingInterval timers intervals nextHandle] in *.
  pose proof (connect_event_effect handlers env sa ltac:(congruence)) as Hcon.
  cbv zeta in Hcon.
  set (sb := step handlers env OnConnect sa) in *. clearbody sb.
  destruct Hcon as [(B1 & B2 & B3 & B4 & B5 & B6 & B7 & B8 & B9) Btr].
  cbn [set_reconnectAttempts set_isConnected socket reconnectAttempts
       maxReconnectAttempts reconnectDelay isConnected pollingInterval timers intervals
       nextHandle] in *.
  assert (timers sb = timers s ++ [delay]) as Htm by congruence.
  assert (silent (trace sb) = silent (trace s) ++
            [Console "WebSocket disconnected:";
             Dispatch "connection_change" (PConnection false (Some reason));
             ConsoleScheduling delay; SetTimeout delay;
             Console "WebSocket connected successfully";
             Dispatch "connection_change" (PConnection true None);
             SocketEmit "get_initial_data" PUndefined]) as Htr.
  { rewrite Btr, Atr. by rewrite <- app_assoc. }
  assert (s2 = set_timers (timers s) sb) as Hs2.
  { unfold s2, step. rewrite Htm, (list_lookup_middle _ _ _ _ eq_refl).
    unfold attemptReconnect. cbn [isConnected set_timers]. rewrite B5. cbn [state_of].
    by rewrite delete_middle, app_nil_r. }
  rewrite Hs2. clearbody s2.
  cbn [set_timers trace isConnected reconnectAttempts timers].
  rewrite (connect_calls_grow _ _ _ Htr), (timeouts_grow _ _ _ Htr).
  split_and!; try done.
  - unfold step, attemptReconnect. cbn [isConnected log]. rewrite B5.
    cbn [state_of log trace]. unfold connect_calls at 1. rewrite omap_app, length_app.
    fold (connect_calls (trace sb)).
    rewrite (connect_calls_grow _ _ _ Htr). cbn. lia.
  - unfold step. rewrite B5. by rewrite andb_false_r.
Qed.

Lemma reconnection_defuses_pending_retry_witness :
  let s := set_isConnected true (opened {[ "connection_change" := [1; 2] ]}) in
  let s1 := run second_raises
              [(calm (1 # 2), OnDisconnect "transport close"); (calm (1 # 2), OnConnect)] s in
  connect_calls (trace (step second_raises (calm (1 # 2)) (TimerFires 0) s1)) = 0 ∧
  reconnectAttempts (step second_raises (calm (1 # 2)) (TimerFires 0) s1) = 0.
Proof.
  intros s s1.
  destruct (reconnection_defuses_pending_retry second_raises (calm (1 # 2))
              "transport close" false s) as (_ & (_ & Ha & _ & Hc & _) & _);
    [reflexivity|discriminate|vm_compute; lia|].
  split; [exact Hc|exact Ha].
Defined.

(** ** A page without the transport library *)

Lemma observe_similar {B} (f : Effect → option B) s s' :
  (∀ e, is_callback_effect e = true → f e = None) →
  similar s s' → omap f (trace s') = omap f (trace s).
Proof.
  intros Hf [_ Htr].
  by rewrite <- (omap_silent f (trace s')), Htr, omap_silent.
Qed.

Lemma io_calls_similar s s' : similar s s' → io_calls (trace s') = io_calls (trace s).
Proof. intros Hsim. unfold io_calls. by rewrite (observe_similar _ s s') by (by intros [] || done). Qed.

Lemma connect_calls_similar s s' :
  similar s s' → connect_calls (trace s') = connect_calls (trace s).
Proof.
  intros Hsim. unfold connect_calls.
  by rewrite (observe_similar _ s s') by (by intros [] || done).
Qed.

Lemma sent_similar s s' : similar s s' → sent (trace s') = sent (trace s).
Proof. intros Hsim. apply observe_similar; [by intros []|done]. Qed.

Lemma dispatched_similar event s s' :
  similar s s' → dispatched event (trace s') = dispatched event (trace s).
Proof. intros Hsim. apply observe_similar; [by intros []|done]. Qed.

Lemma timeouts_similar s s' : similar s s' → timeouts (trace s') = timeouts (trace s).
Proof. intros Hsim. apply observe_similar; [by intros []|done]. Qed.

Lemma similar_subscribed reg s s' : similar s s' → similar s (set_eventCallbacks reg s').
Proof. intros [(? & ? & ? & ? & ? & ? & ? & ? & ?) ?]. by split. Qed.

(** X8.  When every call of [io] raises (the library is missing), the
    constructor and each of the ten retries call [io] once, none of them
    raises to its caller, [this.socket] stays null and nothing is ever asked
    of a transport; every failure is dispatched as [connection_error] with an
    undefined error.  The tenth retry finds the limit reached:
    [reconnect_failed] is dispatched once, one polling interval is started
    and no timeout is left pending. *)
Theorem missing_io_ends_in_polling handlers reg rnd0 rnds :
  length rnds = 10 →
  let s0 := set_eventCallbacks reg (new_SocketManager handlers (no_io rnd0)) in
  let s := run handlers (io_retries rnds) s0 in
  (socket s = false ∧ isConnected s = false ∧ reconnectAttempts s = 10) ∧
  (io_calls (trace s) = 11 ∧ connect_calls (trace s) = 0 ∧ sent (trace s) = []) ∧
  dispatched "connection_error" (trace s) = replicate 11 (PError None) ∧
  (dispatched "reconnect_failed" (trace s) = [PUndefined] ∧
   intervals s = [1] ∧ timers s = [] ∧ length (timeouts (trace s)) = 10).
Proof.
  intros Hlen s0 s.
  destruct rnds as [|r1 [|r2 [|r3 [|r4 [|r5 [|r6 [|r7 [|r8 [|r9 [|r10 [|]]]]]]]]]]];
    try discriminate Hlen. clear Hlen.
  assert (similar (new_SocketManager quiet (no_io rnd0)) s0) as Hsim0.
  { apply similar_subscribed, similar_connect, similar_refl. }
  pose proof (similar_run quiet handlers
                (io_retries [r1; r2; r3; r4; r5; r6; r7; r8; r9; r10]) _ _ Hsim0) as Hsim.
  fold s in Hsim. clearbody s. clear Hsim0 s0.
  pose proof Hsim as [(H1 & H2 & _ & _ & H5 & _ & H7 & H8 & _) _].
  rewrite (io_calls_similar _ _ Hsim), (connect_calls_similar _ _ Hsim),
    (sent_similar _ _ Hsim), !(dispatched_similar _ _ _ Hsim),
    (timeouts_similar _ _ Hsim), H1, H2, H5, H7, H8.
  clear. vm_compute. by split_and!.
Qed.

Lemma missing_io_ends_in_polling_witness :
  let s := run second_raises (io_retries (replicate 10 (1 # 2)%Q))
             (set_eventCallbacks {[ "connection_error" := [1; 2] ]}
                (new_SocketManager second_raises (no_io 0))) in
  socket s = false ∧ io_calls (trace s) = 11 ∧ intervals s = [1].
Proof.
  intros s.
  destruct (missing_io_ends_in_polling second_raises {[ "connection_error" := [1; 2] ]}
              0 (replicate 10 (1 # 2)%Q) eq_refl)
    as ((Hs & _) & (Hio & _) & _ & (_ & Hi & _)).
  split_and!; [exact Hs|exact Hio|exact Hi].
Defined.

(** ** Teardown *)

Section teardown_facts.
Variable handlers : Handlers.

Lemma mute_refl s : eventCallbacks s = ∅ → mute_after s s.
Proof. by split. Qed.

Lemma mute_trans s1 s2 s3 : mute_after s1 s2 → mute_after s2 s3 → mute_after s1 s3.
Proof. intros [H1 H2] [H3 H4]. split; [done|congruence]. Qed.

Lemma mute_log e s :
  is_callback_effect e = false → eventCallbacks s = ∅ → mute_after s (log e s).
Proof.
  intros He Hreg. split; [done|]. cbn [log trace]. unfold invocations.
  rewrite omap_app. destruct e; try discriminate He; simpl; by rewrite app_nil_r.
Qed.

Lemma mute_triggerEvent event data s :
  eventCallbacks s = ∅ → mute_after s (triggerEvent handlers event data s).
Proof. intros Hreg. rewrite triggerEvent_empty by done. by apply mute_log. Qed.

Lemma mute_setupPollingFallback s :
  eventCallbacks s = ∅ → mute_after s (setupPollingFallback handlers s).
Proof.
  intros Hreg. unfold setupPollingFallback. rewrite triggerEvent_empty by done.
  split; [done|]. cbn [start_interval log trace]. unfold invocations.
  rewrite !omap_app. simpl. by rewrite !app_nil_r.
Qed.

Lemma mute_scheduleReconnect env s :
  eventCallbacks s = ∅ → mute_after s (scheduleReconnect handlers env s).
Proof.
  intros Hreg. unfold scheduleReconnect.
  destruct (maxReconnectAttempts s <=? reconnectAttempts s)%nat.
  - unfold handleReconnectFailed. rewrite triggerEvent_empty by done.
    eapply mute_trans; [|by apply mute_setupPollingFallback].
    split; [done|]. cbn [log trace]. unfold invocations.
    rewrite !omap_app. simpl. by rewrite !app_nil_r.
  - split; [done|]. cbn [set_timers log trace]. unfold invocations.
    rewrite !omap_app. simpl. by rewrite !app_nil_r.
Qed.

Lemma mute_handleConnectionError env error s :
  eventCallbacks s = ∅ → mute_after s (handleConnectionError handlers env error s).
Proof.
  intros Hreg. unfold handleConnectionError.
  eapply mute_trans; [by apply (mute_triggerEvent "connection_error")|].
  apply mute_scheduleReconnect. by rewrite triggerEvent_empty.
Qed.

Lemma mute_connect env s :
  eventCallbacks s = ∅ → mute_after s (connect handlers env s).
Proof.
  intros Hreg. unfold connect.
  assert (∀ s', mute_after s s' →
            mute_after s (handleConnectionError handlers env None
                            (log (Console "WebSocket connection failed:") s'))) as Hfail.
  { intros s' [Hr Hi]. eapply mute_trans; [by split|].
    eapply mute_trans; [by apply (mute_log (Console "WebSocket connection failed:"))|].
    by apply mute_handleConnectionError. }
  assert (mute_after s (log IoOpen (log (Console "Connecting to WebSocket server...") s)))
    as H1.
  { split; [done|]. cbn [log trace]. unfold invocations. rewrite !omap_app. simpl.
    by rewrite !app_nil_r. }
  destruct (io_throws env); [by apply Hfail|].
  assert (mute_after s
            (log SocketHandlers
               (set_socket true
                  (log IoOpen (log (Console "Connecting to WebSocket server...") s)))))
    as H2.
  { split; [done|]. cbn [log set_socket trace]. unfold invocations. rewrite !omap_app.
    simpl. by rewrite !app_nil_r. }
  destruct (socket_on_throws env); [by apply Hfail|done].
Qed.

Lemma mute_attemptReconnect env s :
  eventCallbacks s = ∅ → mute_after s (state_of (attemptReconnect handlers env s)).
Proof.
  intros Hreg. unfold attemptReconnect.
  destruct (isConnected s); [by apply mute_refl|].
  assert (mute_after s
            (log (ConsoleAttempt (S (reconnectAttempts s)) (maxReconnectAttempts s))
               (set_reconnectAttempts (S (reconnectAttempts s)) s))) as H1.
  { split; [done|]. cbn [log set_reconnectAttempts trace]. unfold invocations.
    rewrite !omap_app. simpl. by rewrite !app_nil_r. }
  cbn [socket log set_reconnectAttempts reconnectAttempts maxReconnectAttempts].
  destruct (socket s).
  - destruct (socket_connect_throws env); cbn [state_of];
      (eapply mute_trans; [exact H1|]; apply mute_log; [done|apply H1]).
  - cbn [state_of]. eapply mute_trans; [exact H1|]. apply mute_connect. apply H1.
Qed.

Lemma mute_step env i s :
  eventCallbacks s = ∅ → mute_after s (step handlers env i s).
Proof.
  intros Hreg. unfold step. destruct i.
  - destruct (socket s); [|by apply mute_refl]. unfold handleConnect.
    rewrite triggerEvent_empty by done.
    cbn [socket log set_reconnectAttempts set_isConnected].
    destruct (socket s); cbn [state_of]; split; try done;
      cbn [log set_reconnectAttempts set_isConnected trace]; unfold invocations;
      rewrite !omap_app; simpl; by rewrite !app_nil_r.
  - destruct (socket s); [|by apply mute_refl]. unfold handleDisconnect.
    rewrite triggerEvent_empty by done.
    assert (mute_after s
              (log (Dispatch "connection_change" (PConnection false (Some reason)))
                 (set_isConnected false (log (Console "WebSocket disconnected:") s))))
      as H1.
    { split; [done|]. cbn [log set_isConnected trace]. unfold invocations.
      rewrite !omap_app. simpl. by rewrite !app_nil_r. }
    case_decide; [|done].
    eapply mute_trans; [exact H1|]. apply mute_scheduleReconnect, H1.
  - destruct (socket s); [|by apply mute_refl].
    eapply mute_trans; [by apply (mute_log (Console "WebSocket connection error:"))|].
    by apply mute_handleConnectionError.
  - destruct (socket s); [|by apply mute_refl]. unfold handleReconnect.
    rewrite triggerEvent_empty by done. split; [done|].
    cbn [log set_reconnectAttempts trace]. unfold invocations.
    rewrite !omap_app. simpl. by rewrite !app_nil_r.
  - destruct (socket s); [|by apply mute_refl]. unfold handleReconnectAttempt.
    rewrite triggerEvent_empty by done. split; [done|].
    cbn [log set_reconnectAttempts trace]. unfold invocations.
    rewrite !omap_app. simpl. by rewrite !app_nil_r.
  - destruct (socket s); [by apply mute_log|by apply mute_refl].
  - destruct (socket s); [|by apply mute_refl]. unfold handleReconnectFailed.
    rewrite triggerEvent_empty by done.
    eapply mute_trans; [|by apply mute_setupPollingFallback].
    split; [done|]. cbn [log trace]. unfold invocations.
    rewrite !omap_app. simpl. by rewrite !app_nil_r.
  - destruct (socket s); [|by apply mute_refl].
    case_decide; [by apply mute_triggerEvent|by apply mute_refl].
  - eapply mute_trans;
      [by apply (mute_log (Console "Browser came online, attempting reconnect..."))|].
    by apply mute_attemptReconnect.
  - unfold handleOffline. rewrite triggerEvent_empty by done. split; [done|].
    cbn [log trace]. unfold invocations. rewrite !omap_app. simpl. by rewrite !app_nil_r.
  - destruct (negb hidden && negb (isConnected s)); [|by apply mute_refl].
    by apply mute_attemptReconnect.
  - destruct (timers s !! k); [|by apply mute_refl].
    by apply (mute_attemptReconnect env (set_timers (delete k (timers s)) s)).
  - case_decide; [|by apply mute_refl]. unfold pollingTick, pollForUpdates.
    destruct (isConnected s); [|by apply mute_log].
    split; [done|]. cbn [clearInterval trace]. unfold invocations.
    rewrite omap_app. simpl. by rewrite app_nil_r.
  - unfold pollForUpdates_settled.
    destruct r as [|[] []]; try (by apply mute_refl); try (by apply mute_log).
    by apply mute_triggerEvent.
Qed.

Lemma mute_run inputs : ∀ s,
  eventCallbacks s = ∅ → mute_after s (run handlers inputs s).
Proof.
  induction inputs as [|[env i] inputs IH]; intros s Hreg; [by apply mute_refl|].
  cbn [run foldl fst snd]. pose proof (mute_step env i s Hreg) as Hstep.
  eapply mute_trans; [exact Hstep|]. apply IH, Hstep.
Qed.

End teardown_facts.

(** X9.  [destroy()] empties the registry, marks the manager disconnected and
    clears the interval whose handle is in [this.pollingInterval]; intervals
    started by earlier fallbacks stay live, and so do pending reconnect
    timeouts.  Whatever arrives afterwards, no callback is invoked any more
    (until something subscribes again).  A reconnect timeout that expires
    after [destroy()] still counts an attempt and calls
    [this.socket.connect()]. *)
Theorem destroy_silences_callbacks handlers env inputs s :
  let s' := destroy s in
  (eventCallbacks s' = ∅ ∧ isConnected s' = false ∧ socket s' = socket s ∧
   timers s' = timers s ∧ reconnectAttempts s' = reconnectAttempts s) ∧
  (∀ h, h ∈ intervals s' ↔ h ∈ intervals s ∧ (pollingInterval s = Some h → h = 0)) ∧
  invocations (trace (run handlers inputs s')) = invocations (trace s) ∧
  (socket s = true → timers s ≠ [] → socket_connect_throws env = false →
     let s'' := step handlers env (TimerFires 0) s' in
     reconnectAttempts s'' = S (reconnectAttempts s) ∧
     connect_calls (trace s'') = S (connect_calls (trace s'))).
Proof.
  intros s'.
  assert (eventCallbacks s' = ∅ ∧ isConnected s' = false ∧ socket s' = socket s ∧
          timers s' = timers s ∧ reconnectAttempts s' = reconnectAttempts s ∧
          maxReconnectAttempts s' = maxReconnectAttempts s ∧
          invocations (trace s') = invocations (trace s) ∧
          ∀ h, h ∈ intervals s' ↔ h ∈ intervals s ∧ (pollingInterval s = Some h → h = 0))
    as (Hreg & Hconn & Hsock & Htm & Ha & Hm & Hinv & Hint).
  { unfold s', destroy.
    set (d := set_eventCallbacks ∅ (disconnect s)).
    assert (eventCallbacks d = ∅ ∧ isConnected d = false ∧ socket d = socket s ∧
            timers d = timers s ∧ reconnectAttempts d = reconnectAttempts s ∧
            maxReconnectAttempts d = maxReconnectAttempts s ∧
            pollingInterval d = pollingInterval s ∧ intervals d = intervals s ∧
            invocations (trace d) = invocations (trace s))
      as (D1 & D2 & D3 & D4 & D5 & D6 & D7 & D8 & D9).
    { unfold d, disconnect. destruct (socket s) eqn:Hs; cbn; rewrite ?Hs;
        split_and!; try done.
      unfold invocations. rewrite omap_app. simpl. by rewrite app_nil_r. }
    clearbody d. rewrite D7.
    destruct (pollingInterval s) as [h0|] eqn:Hp; [case_decide as H0|].
    - split_and!; try done. intros h. rewrite D8. subst h0.
      split; [intros Hin; split; [done|congruence]|by intros [Hin _]].
    - cbn [clearInterval eventCallbacks isConnected socket timers reconnectAttempts
           maxReconnectAttempts intervals trace].
      split_and!; try done.
      + unfold invocations. rewrite omap_app. simpl. by rewrite app_nil_r.
      + intros h. rewrite list_elem_of_filter, D8. split.
        * intros [Hne Hin]. split; [done|]. intros [= ->]. by destruct Hne.
        * intros [Hin Hz]. split; [|done]. intros ->. by apply H0, Hz.
    - split_and!; try done. intros h. rewrite D8.
      split; [intros Hin; split; [done|discriminate]|by intros [Hin _]]. }
  split_and!.
  - done.
  - done.
  - done.
  - done.
  - done.
  - exact Hint.
  - destruct (mute_run handlers inputs s' Hreg) as [_ Hrun]. by rewrite Hrun.
  - intros Hs Hne Hthrow. cbv zeta. unfold step. rewrite Htm.
    destruct (timers s) as [|d rest] eqn:Ht; [done|]. cbn [lookup list_lookup].
    unfold attemptReconnect. cbn [isConnected set_timers]. rewrite Hconn.
    cbn [socket log set_reconnectAttempts set_timers reconnectAttempts].
    rewrite Hsock, Hs, Hthrow, Ha. cbn [state_of log trace reconnectAttempts
      set_reconnectAttempts set_timers].
    split; [done|]. unfold connect_calls. rewrite !omap_app, !length_app. simpl. lia.
Qed.

Lemma destroy_silences_callbacks_witness :
  let s := run quiet
             (failures (replicate 10 0%Q) 0 ++
              [(calm 0, OnConnectError "timeout"); (calm 0, OnReconnect 1);
               (calm 0, OnConnectError "timeout")])
             (opened {[ "stats_update" := [1; 2] ]}) in
  intervals s = [1; 2] ∧ intervals (destroy s) = [1] ∧
  reconnectAttempts (step quiet (calm 0) (TimerFires 0) (destroy s)) = 1.
Proof.
  intros s.
  destruct (destroy_silences_callbacks quiet (calm 0) [] s) as (_ & _ & _ & Hfire).
  destruct Hfire as [Ha _]; [by vm_compute|vm_compute; discriminate|reflexivity|].
  split_and!; [by vm_compute|by vm_compute|].
  rewrite Ha. by vm_compute.
Defined.

(** * Further properties of the dashboard page *)

Lemma remove_apostrophes_app (s t : string) :
  Page.remove_apostrophes (s +:+ t) = Page.remove_apostrophes s +:+ Page.remove_apostrophes t.
Proof.
  induction s as [|c s IH]; [reflexivity|].
  change (String c s +:+ t) with (String c (s +:+ t)).
  cbn [Page.remove_apostrophes]. destruct (Ascii.eqb c "'"); [exact IH|].
  change (String c ?x +:+ ?y) with (String c (x +:+ y)). by rewrite IH.
Qed.

Lemma remove_apostrophes_clean (s : string) :
  "'"%char ∉ String.list_ascii_of_string (Page.remove_apostrophes s).
Proof.
  induction s as [|c s IH]; cbn [Page.remove_apostrophes].
  - apply not_elem_of_nil.
  - destruct (Ascii.eqb c "'") eqn:E; [done|].
    cbn [String.list_ascii_of_string]. apply not_elem_of_cons. split; [|done].
    intros <-. by rewrite Ascii.eqb_refl in E.
Qed.

Lemma replace_first_absent (pat s : string) :
  Page.occurs pat s = false → Page.replace_first pat s = s.
Proof.
  induction s as [|c s IH]; cbn [Page.occurs Page.replace_first]; intros H;
    apply orb_false_iff in H as [-> H]; [done|].
  by rewrite IH.
Qed.

Section page_facts.
Variable b : Page.Browser.

Lemma act_window_dashboard (a : Page.Action) (p : Page.Page) :
  Page.window_dashboard (Page.act b a p) = Page.window_dashboard p.
Proof.
  destruct a as [ev|onclick r|command r|]; cbn [Page.act].
  - unfold Page.on_socket_event, Page.updateConnectionStatus.
    destruct (Page.socket p); [|done].
    destruct ev, (Page.has_indicator b); reflexivity.
  - unfold Page.click_action_button.
    destruct (Page.listeners p); [|done].
    destruct onclick as [action|]; [|done].
    by destruct (String.eqb action "").
  - unfold Page.executeCommand. by destruct (Page.window_dashboard p) eqn:E; cbn.
  - unfold Page.refreshCommands. by destruct (Page.window_dashboard p) eqn:E; cbn.
Qed.

Lemma act_listeners (a : Page.Action) (p : Page.Page) :
  Page.listeners (Page.act b a p) = Page.listeners p.
Proof.
  destruct a as [ev|onclick r|command r|]; cbn [Page.act].
  - unfold Page.on_socket_event, Page.updateConnectionStatus.
    destruct (Page.socket p); [|done].
    destruct ev, (Page.has_indicator b); reflexivity.
  - unfold Page.click_action_button.
    destruct (Page.listeners p) eqn:E; [|done].
    destruct onclick as [action|]; [|done].
    by destruct (String.eqb action "").
  - unfold Page.executeCommand. by destruct (Page.window_dashboard p) eqn:E; cbn.
  - unfold Page.refreshCommands. by destruct (Page.window_dashboard p) eqn:E; cbn.
Qed.

Lemma session_snoc (actions : list Page.Action) (a : Page.Action) :
  Page.session b (actions ++ [a]) = Page.act b a (Page.session b actions).
Proof. unfold Page.session. by rewrite foldl_app. Qed.

Lemma domContentLoaded_unpublished :
  Page.window_dashboard (Page.domContentLoaded b) = false
  ∧ Page.listeners (Page.domContentLoaded b) = true.
Proof.
  unfold Page.domContentLoaded, Page.init, Page.connectWebSocket.
  by destruct (Page.storage_throws b), (Page.io_throws b).
Qed.

Lemma session_unpublished (actions : list Page.Action) :
  Page.window_dashboard (Page.session b actions) = false
  ∧ Page.listeners (Page.session b actions) = true.
Proof.
  induction actions as [|a actions IH] using rev_ind.
  - apply domContentLoaded_unpublished.
  - rewrite session_snoc, act_window_dashboard, act_listeners. exact IH.
Qed.

End page_facts.

(** X10.  The page never publishes its dashboard.  [init] ends in an exception
    (a raising [localStorage], else the call of the undefined
    [loadInitialData]), so the assignment to [window.dashboard] is never
    reached: the load ends with an uncaught error, and after any series of
    socket events, clicks, inline calls and refreshes the global
    [executeCommand] and [refreshCommands] still change nothing, while the
    click listeners installed before the exception stay in place. *)
Theorem window_dashboard_never_published (b : Page.Browser) (actions : list Page.Action)
    (command : string) (r : MuseBotDashboard.ExecuteResult) :
  (∃ error, last (Page.page_log (Page.domContentLoaded b)) = Some (Page.Uncaught error))
  ∧ Page.window_dashboard (Page.session b actions) = false
  ∧ Page.listeners (Page.session b actions) = true
  ∧ Page.executeCommand command r (Page.session b actions) = Page.session b actions
  ∧ Page.refreshCommands (Page.session b actions) = Page.session b actions.
Proof.
  destruct (session_unpublished b actions) as [Hw Hl].
  split_and!; [|done|done| |].
  - unfold Page.domContentLoaded, Page.init, Page.connectWebSocket.
    destruct (Page.storage_throws b), (Page.io_throws b); eexists; reflexivity.
  - unfold Page.executeCommand. by rewrite Hw.
  - unfold Page.refreshCommands. by rewrite Hw.
Qed.

(** X11.  The command a click listener derives from an [onclick] attribute
    never holds an apostrophe; when the attribute does not contain the text
    [onclick=] it is the attribute without its apostrophes.  For the
    attribute [executeCommand('c')] that is the text [executeCommand(c)], and
    a click on a connected dashboard posts that text to /api/execute. *)
Theorem button_command_is_call_text (cmd : string) (r : MuseBotDashboard.ExecuteResult)
    (p : Page.Page) :
  let action := "executeCommand('" +:+ cmd +:+ "')" in
  Page.occurs "onclick=" action = false →
  Page.listeners p = true →
  MuseBotDashboard.isConnected (Page.instance p) = true →
  ("'"%char ∉ String.list_ascii_of_string (Page.button_command action))
  ∧ Page.button_command action = "executeCommand(" +:+ Page.remove_apostrophes cmd +:+ ")"
  ∧ MuseBotDashboard.requests
      (MuseBotDashboard.effects (Page.instance (Page.click_action_button (Some action) r p)))
    = MuseBotDashboard.requests (MuseBotDashboard.effects (Page.instance p))
      ++ [("/api/execute", "executeCommand(" +:+ Page.remove_apostrophes cmd +:+ ")")].
Proof.
  intros action Hocc Hl Hc.
  assert (Hcmd : Page.button_command action
                 = "executeCommand(" +:+ Page.remove_apostrophes cmd +:+ ")").
  { unfold Page.button_command. rewrite (replace_first_absent _ _ Hocc).
    unfold action. by rewrite !remove_apostrophes_app. }
  split_and!; [apply remove_apostrophes_clean|done|].
  unfold Page.click_action_button. rewrite Hl.
  replace (String.eqb action "") with false by done.
  rewrite Hcmd.
  unfold MuseBotDashboard.executeCommand, MuseBotDashboard.execute_try. rewrite Hc.
  cbn [negb]. unfold MuseBotDashboard.requests.
  destruct r; cbn [MuseBotDashboard.final Page.with_instance Page.instance
                   MuseBotDashboard.perform MuseBotDashboard.effects];
    rewrite ?omap_app; cbn [omap list_omap]; by rewrite ?app_nil_r.
Qed.

Lemma button_command_is_call_text_witness :
  Page.button_command "executeCommand('play')" = "executeCommand(play)"
  ∧ MuseBotDashboard.requests
      (MuseBotDashboard.effects
         (Page.instance
            (Page.click_action_button (Some "executeCommand('play')")
               MuseBotDashboard.FetchRejects
               (Page.on_socket_event
                  {| Page.storage_throws := false; Page.io_throws := false;
                     Page.has_indicator := true |}
                  Page.Connect
                  (Page.domContentLoaded
                     {| Page.storage_throws := false; Page.io_throws := false;
                        Page.has_indicator := true |})))))
    = [("/api/execute", "executeCommand(play)")].
Proof.
  pose proof (button_command_is_call_text "play" MuseBotDashboard.FetchRejects
    (Page.on_socket_event
       {| Page.storage_throws := false; Page.io_throws := false;
          Page.has_indicator := true |}
       Page.Connect
       (Page.domContentLoaded
          {| Page.storage_throws := false; Page.io_throws := false;
             Page.has_indicator := true |}))
    ltac:(reflexivity) ltac:(reflexivity) ltac:(reflexivity)) as (_ & H1 & H2).
  split; [exact H1 | exact H2].
Defined.

Section connection_facts.
Variable b : Page.Browser.

Lemma requests_perform_notification (m : option string) (type : string)
    (d : MuseBotDashboard.Dashboard) :
  MuseBotDashboard.requests
    (MuseBotDashboard.effects (MuseBotDashboard.perform (MuseBotDashboard.ShowNotification m type) d))
  = MuseBotDashboard.requests (MuseBotDashboard.effects d).
Proof.
  unfold MuseBotDashboard.requests. cbn [MuseBotDashboard.perform MuseBotDashboard.effects].
  rewrite omap_app. cbn [omap list_omap]. by rewrite app_nil_r.
Qed.

Lemma executeCommand_disconnected (command : string) (r : MuseBotDashboard.ExecuteResult)
    (d : MuseBotDashboard.Dashboard) :
  MuseBotDashboard.isConnected d = false →
  MuseBotDashboard.final (MuseBotDashboard.executeCommand command r d)
  = MuseBotDashboard.perform
      (MuseBotDashboard.ShowNotification (Some "Not connected to bot") "error") d.
Proof. intros H. unfold MuseBotDashboard.executeCommand. by rewrite H. Qed.

Lemma executeCommand_connected (command : string) (r : MuseBotDashboard.ExecuteResult)
    (d : MuseBotDashboard.Dashboard) :
  MuseBotDashboard.isConnected d = true →
  let d' := MuseBotDashboard.final (MuseBotDashboard.executeCommand command r d) in
  MuseBotDashboard.isConnected d' = true
  ∧ MuseBotDashboard.requests (MuseBotDashboard.effects d')
    = MuseBotDashboard.requests (MuseBotDashboard.effects d) ++ [("/api/execute", command)].
Proof.
  intros H. unfold MuseBotDashboard.executeCommand, MuseBotDashboard.execute_try.
  rewrite H. cbn [negb]. unfold MuseBotDashboard.requests.
  destruct r; cbn [MuseBotDashboard.final MuseBotDashboard.perform
                   MuseBotDashboard.effects MuseBotDashboard.isConnected];
    rewrite ?omap_app; cbn [omap list_omap]; by rewrite ?app_nil_r.
Qed.

Lemma offline_act (a : Page.Action) (p : Page.Page) :
  Page.offline p → Page.offline (Page.act b a p).
Proof.
  intros (Hs & Hw & Hc & Hr).
  destruct a as [ev|onclick r|command r|]; cbn [Page.act].
  - unfold Page.on_socket_event. by rewrite Hs.
  - unfold Page.click_action_button.
    destruct (Page.listeners p); [|done].
    destruct onclick as [action|]; [|done].
    destruct (String.eqb action ""); [done|].
    rewrite (executeCommand_disconnected _ _ _ Hc).
    split_and!; try done.
    cbn [Page.with_instance Page.instance]. by rewrite requests_perform_notification.
  - unfold Page.executeCommand. by rewrite Hw.
  - unfold Page.refreshCommands. by rewrite Hw.
Qed.

Lemma offline_loaded :
  Page.storage_throws b = true ∨ Page.io_throws b = true →
  Page.offline (Page.domContentLoaded b).
Proof.
  unfold Page.domContentLoaded, Page.init, Page.connectWebSocket.
  destruct (Page.storage_throws b), (Page.io_throws b); intros [?|?]; done.
Qed.

Lemma socket_events_snoc (evs : list Page.SocketEvent) (ev : Page.SocketEvent)
    (p : Page.Page) :
  Page.socket_events b (evs ++ [ev]) p = Page.on_socket_event b ev (Page.socket_events b evs p).
Proof. unfold Page.socket_events. by rewrite foldl_app. Qed.

Lemma on_socket_event_socket (ev : Page.SocketEvent) (p : Page.Page) :
  Page.socket (Page.on_socket_event b ev p) = Page.socket p.
Proof.
  unfold Page.on_socket_event, Page.updateConnectionStatus.
  destruct (Page.socket p) eqn:E; [|done].
  destruct ev, (Page.has_indicator b); cbn; done.
Qed.

Lemma on_socket_event_listeners (ev : Page.SocketEvent) (p : Page.Page) :
  Page.listeners (Page.on_socket_event b ev p) = Page.listeners p.
Proof. apply (act_listeners b (Page.Socket ev)). Qed.

Lemma on_socket_event_requests (ev : Page.SocketEvent) (p : Page.Page) :
  MuseBotDashboard.requests (MuseBotDashboard.effects (Page.instance (Page.on_socket_event b ev p)))
  = MuseBotDashboard.requests (MuseBotDashboard.effects (Page.instance p)).
Proof.
  unfold Page.on_socket_event, Page.updateConnectionStatus.
  destruct (Page.socket p); [|done].
  destruct ev, (Page.has_indicator b);
    cbn [Page.with_instance Page.instance Page.say Page.set_connected
         MuseBotDashboard.effects];
    by rewrite ?requests_perform_notification.
Qed.

Lemma on_socket_event_report (ev : Page.SocketEvent) (p : Page.Page) :
  Page.socket p = true →
  Page.reports_connection ev = true →
  MuseBotDashboard.isConnected (Page.instance (Page.on_socket_event b ev p))
  = Page.connected_by ev
  ∧ (Page.has_indicator b = true →
     Page.indicator (Page.on_socket_event b ev p) = Some (Page.connected_by ev)).
Proof.
  intros Hs Hev. unfold Page.on_socket_event, Page.updateConnectionStatus. rewrite Hs.
  destruct ev; try done; destruct (Page.has_indicator b); done.
Qed.

Lemma on_socket_event_other (ev : Page.SocketEvent) (p : Page.Page) :
  Page.reports_connection ev = false →
  MuseBotDashboard.isConnected (Page.instance (Page.on_socket_event b ev p))
  = MuseBotDashboard.isConnected (Page.instance p)
  ∧ Page.indicator (Page.on_socket_event b ev p) = Page.indicator p.
Proof.
  intros Hev. unfold Page.on_socket_event.
  destruct (Page.socket p); [|done]. by destruct ev.
Qed.

Lemma socket_events_socket (evs : list Page.SocketEvent) (p : Page.Page) :
  Page.socket (Page.socket_events b evs p) = Page.socket p
  ∧ Page.listeners (Page.socket_events b evs p) = Page.listeners p
  ∧ MuseBotDashboard.requests (MuseBotDashboard.effects (Page.instance (Page.socket_events b evs p)))
    = MuseBotDashboard.requests (MuseBotDashboard.effects (Page.instance p)).
Proof.
  induction evs as [|ev evs IH] using rev_ind; [done|].
  rewrite socket_events_snoc, on_socket_event_socket, on_socket_event_listeners,
    on_socket_event_requests. exact IH.
Qed.

Lemma socket_events_others (evs : list Page.SocketEvent) (p : Page.Page) :
  Forall (λ ev, Page.reports_connection ev = false) evs →
  MuseBotDashboard.isConnected (Page.instance (Page.socket_events b evs p))
  = MuseBotDashboard.isConnected (Page.instance p)
  ∧ Page.indicator (Page.socket_events b evs p) = Page.indicator p.
Proof.
  induction evs as [|ev evs IH] using rev_ind; [done|].
  intros [H1 H2]%Forall_app. apply Forall_inv in H2.
  rewrite socket_events_snoc.
  destruct (on_socket_event_other ev (Page.socket_events b evs p) H2) as [-> ->].
  by apply IH.
Qed.

End connection_facts.

(** X12.  A dashboard that got no socket can never send a command.  When
    [localStorage] raises (the constructor stops before [connectWebSocket]) or
    [io] raises (the [catch] starts polling), the page has no socket, so
    [isConnected] stays false whatever happens: no click, inline call or
    refresh ever issues a request, and every click on a button with an
    [onclick] attribute only adds the notification "Not connected to bot". *)
Theorem no_socket_no_commands (b : Page.Browser) (actions : list Page.Action)
    (action : string) (r : MuseBotDashboard.ExecuteResult) :
  Page.storage_throws b = true ∨ Page.io_throws b = true →
  action ≠ "" →
  let p := Page.session b actions in
  MuseBotDashboard.isConnected (Page.instance p) = false
  ∧ MuseBotDashboard.requests (MuseBotDashboard.effects (Page.instance p)) = []
  ∧ MuseBotDashboard.effects (Page.instance (Page.click_action_button (Some action) r p))
    = MuseBotDashboard.effects (Page.instance p)
      ++ [MuseBotDashboard.ShowNotification (Some "Not connected to bot") "error"].
Proof.
  intros Hb Ha p.
  assert (Hoff : Page.offline p).
  { unfold p. induction actions as [|a actions IH] using rev_ind.
    - by apply offline_loaded.
    - rewrite session_snoc. by apply offline_act. }
  destruct Hoff as (_ & _ & Hc & Hr). split_and!; [done|done|].
  unfold Page.click_action_button.
  destruct (session_unpublished b actions) as [_ Hl]. fold p in Hl. rewrite Hl.
  apply String.eqb_neq in Ha. rewrite Ha.
  by rewrite (executeCommand_disconnected _ _ _ Hc).
Qed.

Lemma no_socket_no_commands_witness :
  let b := {| Page.storage_throws := false; Page.io_throws := true;
              Page.has_indicator := true |} in
  let p := Page.session b [Page.Socket Page.Connect;
                           Page.Click (Some "executeCommand('play')") MuseBotDashboard.JsonNull] in
  MuseBotDashboard.isConnected (Page.instance p) = false
  ∧ MuseBotDashboard.requests (MuseBotDashboard.effects (Page.instance p)) = [].
Proof.
  intros b p.
  pose proof (no_socket_no_commands b
    [Page.Socket Page.Connect;
     Page.Click (Some "executeCommand('play')") MuseBotDashboard.JsonNull]
    "executeCommand('stop')" MuseBotDashboard.FetchRejects
    ltac:(right; reflexivity) ltac:(discriminate)) as (H1 & H2 & _).
  split; [exact H1 | exact H2].
Defined.

(** X13.  The dashboard's connection is what its socket last reported.  On a
    page that has a socket, after any series of socket events the field
    [isConnected] (and the indicator, when the page has one) is decided by
    the last 'connect' or 'disconnect' among them; events of other kinds in
    between or after change neither.  A click on a button then posts its
    command exactly when that last report was 'connect'. *)
Theorem connection_follows_last_report (b : Page.Browser) (p : Page.Page)
    (before after : list Page.SocketEvent) (ev : Page.SocketEvent)
    (action : string) (r : MuseBotDashboard.ExecuteResult) :
  Page.socket p = true →
  Page.listeners p = true →
  Page.reports_connection ev = true →
  Forall (λ e, Page.reports_connection e = false) after →
  action ≠ "" →
  let p' := Page.socket_events b (before ++ ev :: after) p in
  MuseBotDashboard.isConnected (Page.instance p') = Page.connected_by ev
  ∧ (Page.has_indicator b = true → Page.indicator p' = Some (Page.connected_by ev))
  ∧ MuseBotDashboard.requests
      (MuseBotDashboard.effects (Page.instance (Page.click_action_button (Some action) r p')))
    = MuseBotDashboard.requests (MuseBotDashboard.effects (Page.instance p))
      ++ (if Page.connected_by ev then [("/api/execute", Page.button_command action)] else []).
Proof.
  intros Hs Hl Hev Hafter Ha p'.
  assert (Hp' : p' = Page.socket_events b after
                       (Page.on_socket_event b ev (Page.socket_events b before p))).
  { unfold p', Page.socket_events. by rewrite foldl_app. }
  destruct (socket_events_socket b before p) as (Hs1 & _ & _).
  rewrite Hs in Hs1.
  destruct (on_socket_event_report b ev _ Hs1 Hev) as [Hc Hi].
  destruct (socket_events_others b after
              (Page.on_socket_event b ev (Page.socket_events b before p)) Hafter)
    as [Hc' Hi'].
  rewrite <- Hp' in Hc', Hi'. rewrite Hc in Hc'.
  destruct (socket_events_socket b (before ++ ev :: after) p) as (_ & Hl' & Hr').
  fold p' in Hl', Hr'. rewrite Hl in Hl'.
  split_and!; [done| |].
  - intros Hb. rewrite Hi'. by apply Hi.
  - unfold Page.click_action_button. rewrite Hl'.
    apply String.eqb_neq in Ha. rewrite Ha.
    cbn [Page.with_instance Page.instance].
    destruct (Page.connected_by ev) eqn:E.
    + destruct (executeCommand_connected (Page.button_command action) r _ Hc') as [_ ->].
      by rewrite Hr'.
    + rewrite (executeCommand_disconnected _ _ _ Hc'), requests_perform_notification, Hr'.
      by rewrite app_nil_r.
Qed.

Lemma connection_follows_last_report_witness :
  let b := {| Page.storage_throws := false; Page.io_throws := false;
              Page.has_indicator := true |} in
  let p' := Page.socket_events b
              ([Page.Connect; Page.StatsUpdate] ++ Page.Disconnect :: [Page.SocketError])
              (Page.domContentLoaded b) in
  MuseBotDashboard.isConnected (Page.instance p') = false
  ∧ MuseBotDashboard.requests
      (MuseBotDashboard.effects
         (Page.instance
            (Page.click_action_button (Some "executeCommand('play')")
               MuseBotDashboard.FetchRejects p'))) = [].
Proof.
  intros b p'.
  pose proof (connection_follows_last_report b (Page.domContentLoaded b)
    [Page.Connect; Page.StatsUpdate] [Page.SocketError] Page.Disconnect
    "executeCommand('play')" MuseBotDashboard.FetchRejects
    ltac:(reflexivity) ltac:(reflexivity) ltac:(reflexivity)
    ltac:(repeat constructor) ltac:(discriminate)) as (H1 & _ & H3).
  split; [exact H1 | exact H3].
Defined.

(** * Further properties of the animated counters *)

Section counter_facts.
Variable fl : Q → Q.
Variables start end_ : Z.
Variable duration : Q.
Hypothesis fl_rounding : Binary64.rounding fl.
Hypothesis duration_double : Binary64.representable duration.
Hypothesis duration_positive : (0 < duration)%Q.
Hypothesis start_safe : (Z.abs start < 2 ^ 53)%Z.
Hypothesis end_safe : (Z.abs end_ < 2 ^ 53)%Z.
Hypothesis span_safe : (Z.abs (end_ - start) < 2 ^ 53)%Z.

Lemma span_representable :
  Binary64.representable (inject_Z end_ - inject_Z start)%Q.
Proof.
  destruct (representable_Z _ span_safe) as (m & e & Hm & Hr & He).
  exists m, e. split_and!; [done|lia|lia|]. rewrite <- He. unfold Zminus.
  rewrite inject_Z_plus, inject_Z_opp. ring.
Qed.

Lemma zero_representable : Binary64.representable 0.
Proof. by apply (representable_Z 0). Qed.

Lemma one_representable : Binary64.representable 1.
Proof. by apply (representable_Z 1). Qed.

(** The progress of a frame at or after the start is between 0 and 1, and
    it is 1 once the duration has passed. *)
Lemma progress_range (t0 t : Q) :
  (t0 <= t)%Q →
  let progress := Qmin (fl (fl (t - t0) / duration)) 1 in
  (0 <= progress)%Q ∧ (progress <= 1)%Q ∧ ((t0 + duration <= t)%Q → (progress == 1)%Q).
Proof.
  intros Ht progress. pose proof fl_rounding as [Hmono Hexact].
  assert (Hx : (0 <= fl (t - t0))%Q).
  { rewrite <- (Hexact _ zero_representable). apply Hmono. lra. }
  assert (Hq : (0 <= fl (fl (t - t0) / duration))%Q).
  { rewrite <- (Hexact _ zero_representable). apply Hmono.
    apply Qle_shift_div_l; [done|]. lra. }
  split_and!.
  - apply Q.min_glb; [done|lra].
  - apply Q.le_min_r.
  - intros Hlate. apply Q.min_r.
    assert (Hx' : (duration <= fl (t - t0))%Q).
    { rewrite <- (Hexact _ duration_double) at 1. apply Hmono. lra. }
    rewrite <- (Hexact _ one_representable). apply Hmono.
    apply Qle_shift_div_l; [done|]. lra.
Qed.

(** The number written for a progress between 0 and 1 lies between [start]
    and [end_], and it is [end_] when the progress is 1. *)
Lemma value_range (progress : Q) :
  (0 <= progress)%Q → (progress <= 1)%Q →
  let value :=
    Qfloor (fl (fl (progress * fl (inject_Z end_ - inject_Z start)) + inject_Z start)) in
  Counter.between start end_ value ∧ ((progress == 1)%Q → value = end_).
Proof.
  intros H0 H1 value. pose proof fl_rounding as [Hmono Hexact].
  pose proof span_representable as Hrep.
  pose proof (Hexact _ Hrep) as Hspan.
  pose proof (representable_Z _ start_safe) as Hs.
  pose proof (representable_Z _ end_safe) as He.
  unfold value. clear value.
  set (S := inject_Z start) in *. set (E := inject_Z end_) in *.
  set (d := fl (E - S)%Q) in *.
  split.
  - unfold Counter.between.
    destruct (Z.le_ge_cases start end_) as [Hle|Hle]; [left|right];
      rewrite Zle_Qle in Hle; fold S E in Hle.
    + assert (Hp : (0 <= fl (progress * d))%Q ∧ (fl (progress * d) <= E - S)%Q).
      { apply rounding_between; [done|exact zero_representable|exact Hrep| |]; nra. }
      destruct Hp as [Hp1 Hp2]. set (p := fl (progress * d)%Q) in *.
      assert (Hv : (S <= fl (p + S))%Q ∧ (fl (p + S) <= E)%Q).
      { apply rounding_between; [done|done|done| |]; lra. }
      destruct Hv as [Hv1 Hv2]. apply Qfloor_resp_le in Hv1, Hv2.
      unfold S, E in Hv1, Hv2. by rewrite Qfloor_Z in Hv1, Hv2.
    + assert (Hp : (E - S <= fl (progress * d))%Q ∧ (fl (progress * d) <= 0)%Q).
      { apply rounding_between; [done|exact Hrep|exact zero_representable| |]; nra. }
      destruct Hp as [Hp1 Hp2]. set (p := fl (progress * d)%Q) in *.
      assert (Hv : (E <= fl (p + S))%Q ∧ (fl (p + S) <= S)%Q).
      { apply rounding_between; [done|done|done| |]; lra. }
      destruct Hv as [Hv1 Hv2]. apply Qfloor_resp_le in Hv1, Hv2.
      unfold S, E in Hv1, Hv2. by rewrite Qfloor_Z in Hv1, Hv2.
  - intros Hone.
    assert (Hp : (fl (progress * d) == E - S)%Q).
    { apply rounding_exact; [done|exact Hrep|]. rewrite Hone, Hspan. ring. }
    assert (Hv : (fl (fl (progress * d) + S) == E)%Q).
    { apply rounding_exact; [done|done|]. rewrite Hp. ring. }
    rewrite (Qfloor_comp _ _ Hv). apply Qfloor_Z.
Qed.

Lemma step_frame (t0 t : Q) (a : Counter.Animation) :
  (0 < t0)%Q →
  Counter.startTimestamp a = Some t0 →
  (t0 <= t)%Q →
  let a' := Counter.step fl start end_ duration t a in
  Counter.on_course start end_ t0 a' ∧ ((t0 + duration <= t)%Q → Counter.pending a' = false).
Proof.
  intros Hpos Hst Ht. cbv zeta. unfold Counter.step. rewrite Hst.
  assert (E0 : Qeq_bool t0 0 = false).
  { apply not_true_is_false. intros E%Qeq_bool_iff. lra. }
  rewrite E0.
  destruct (progress_range t0 t Ht) as (Hp0 & Hp1 & Hlate).
  set (progress := Qmin (fl (fl (t - t0) / duration)) 1) in *.
  destruct (value_range progress Hp0 Hp1) as [Hbetween Hone].
  split.
  - split; [done|]. eexists. split_and!; [reflexivity|exact Hbetween|].
    cbn [Counter.pending]. intros Hpend%negb_false_iff%Qle_bool_iff.
    apply Hone. by apply Qle_antisym.
  - intros Hl. cbn [Counter.pending]. apply negb_false_iff, Qle_bool_iff.
    rewrite (Hlate Hl). apply Qle_refl.
Qed.

Lemma step_first (t0 : Q) :
  Counter.step fl start end_ duration t0 Counter.begun
  = {| Counter.startTimestamp := Some t0; Counter.shown := Some start;
       Counter.pending := true |}.
Proof.
  pose proof fl_rounding as [Hmono Hexact].
  unfold Counter.step, Counter.begun. cbn [Counter.startTimestamp].
  assert (Hx : (fl (t0 - t0) == 0)%Q).
  { apply rounding_exact; [done|exact zero_representable|ring]. }
  assert (Hq : (fl (fl (t0 - t0) / duration) == 0)%Q).
  { apply rounding_exact; [done|exact zero_representable|].
    rewrite Hx. unfold Qdiv. ring. }
  assert (Hp : (Qmin (fl (fl (t0 - t0) / duration)) 1 == 0)%Q).
  { rewrite Q.min_l; [done|]. rewrite Hq. done. }
  set (progress := Qmin (fl (fl (t0 - t0) / duration)) 1) in *.
  f_equal.
  - f_equal. transitivity (Qfloor (inject_Z start)); [|apply Qfloor_Z].
    apply Qfloor_comp.
    assert (Hprod : (fl (progress * fl (inject_Z end_ - inject_Z start)) == 0)%Q).
    { apply rounding_exact; [done|exact zero_representable|]. rewrite Hp. ring. }
    apply rounding_exact; [done|by apply representable_Z|]. rewrite Hprod. ring.
  - apply negb_true_iff, not_true_is_false. intros E%Qle_bool_iff. lra.
Qed.

Lemma frames_snoc (ts : list Q) (t : Q) (a : Counter.Animation) :
  Counter.frames fl start end_ duration (ts ++ [t]) a
  = (let a' := Counter.frames fl start end_ duration ts a in
     if Counter.pending a' then Counter.step fl start end_ duration t a' else a').
Proof. unfold Counter.frames. by rewrite foldl_app. Qed.

Lemma frames_app (ts1 ts2 : list Q) (a : Counter.Animation) :
  Counter.frames fl start end_ duration (ts1 ++ ts2) a
  = Counter.frames fl start end_ duration ts2 (Counter.frames fl start end_ duration ts1 a).
Proof. unfold Counter.frames. by rewrite foldl_app. Qed.

Lemma frames_idle (ts : list Q) (a : Counter.Animation) :
  Counter.pending a = false → Counter.frames fl start end_ duration ts a = a.
Proof.
  intros H. induction ts as [|t ts IH]; [done|].
  unfold Counter.frames in *. cbn [foldl]. by rewrite H.
Qed.

Lemma frames_invariant (t0 : Q) (mid : list Q) :
  (0 < t0)%Q →
  Forall (λ t, (t0 <= t)%Q) mid →
  Counter.on_course start end_ t0 (Counter.frames fl start end_ duration (t0 :: mid) Counter.begun).
Proof.
  intros Hpos. induction mid as [|t mid IH] using rev_ind; intros Hmid.
  - unfold Counter.frames. cbn [foldl Counter.pending Counter.begun].
    fold Counter.begun. rewrite step_first. split; [done|].
    exists start. split_and!; [done|unfold Counter.between; lia|done].
  - apply Forall_app in Hmid as [Hmid Ht]. apply Forall_inv in Ht.
    specialize (IH Hmid). rewrite app_comm_cons, frames_snoc. cbv zeta.
    destruct (Counter.pending _) eqn:Hpend; [|done].
    destruct IH as [Hst _]. by apply step_frame.
Qed.

End counter_facts.

(** X14.  An animated counter never stops short of its target.  On doubles
    (any rounding [fl]), with [start], [end_] and their difference safe
    integers, a first frame at a positive timestamp [t0] shows [start] and
    asks for another frame.  After any frames that do not precede [t0] the
    counter shows a whole number between [start] and [end_], and if it asks
    for no further frame that number is [end_].  A frame at or after
    [t0 + duration] shows exactly [end_] and asks for none, so that later
    frames change nothing. *)
Theorem animateValue_lands_on_end (fl : Q → Q) (start end_ : Z) (duration t0 t : Q)
    (mid later : list Q) :
  Binary64.rounding fl →
  Binary64.representable duration → (0 < duration)%Q →
  (Z.abs start < 2 ^ 53)%Z → (Z.abs end_ < 2 ^ 53)%Z →
  (Z.abs (end_ - start) < 2 ^ 53)%Z →
  (0 < t0)%Q →
  Forall (λ t', (t0 <= t')%Q) mid →
  (t0 + duration <= t)%Q →
  let animation ts := Counter.frames fl start end_ duration ts Counter.begun in
  (Counter.shown (animation [t0]) = Some start
   ∧ Counter.pending (animation [t0]) = true)
  ∧ (∃ v, Counter.shown (animation (t0 :: mid)) = Some v
          ∧ Counter.between start end_ v
          ∧ (Counter.pending (animation (t0 :: mid)) = false → v = end_))
  ∧ (Counter.shown (animation (t0 :: mid ++ t :: later)) = Some end_
     ∧ Counter.pending (animation (t0 :: mid ++ t :: later)) = false).
Proof.
  intros Hfl Hdd Hd Hs He Hspan Hpos Hmid Ht animation.
  pose proof (frames_invariant fl start end_ duration Hfl Hdd Hd Hs He Hspan t0 mid
                Hpos Hmid) as Hinv.
  fold (animation (t0 :: mid)) in Hinv.
  assert (Hend : Counter.shown (animation (t0 :: mid ++ t :: later)) = Some end_
                 ∧ Counter.pending (animation (t0 :: mid ++ t :: later)) = false).
  { unfold animation.
    replace (t0 :: mid ++ t :: later) with (((t0 :: mid) ++ [t]) ++ later)
      by (by rewrite <- app_assoc).
    rewrite !(frames_app fl start end_ duration _ later), !frames_snoc. cbv zeta.
    fold (animation (t0 :: mid)).
    destruct Hinv as (Hst & v & Hv & _ & Hdone).
    destruct (Counter.pending (animation (t0 :: mid))) eqn:Hpend.
    - destruct (step_frame fl start end_ duration Hfl Hdd Hd Hs He Hspan t0 t
                  (animation (t0 :: mid)) Hpos Hst ltac:(lra))
        as [(_ & v' & Hv' & _ & Hdone') Hlate].
      specialize (Hlate Ht). rewrite frames_idle by done.
      split; [|done]. rewrite Hv'. f_equal. by apply Hdone'.
    - rewrite frames_idle by done. split; [|done]. rewrite Hv. f_equal. by apply Hdone. }
  destruct Hinv as [_ Hinv]. destruct Hend as [Hend1 Hend2].
  split_and!; [| |exact Hinv|exact Hend1|exact Hend2].
  - unfold animation, Counter.frames. cbn [foldl Counter.pending Counter.begun].
    fold Counter.begun. by rewrite step_first.
  - unfold animation, Counter.frames. cbn [foldl Counter.pending Counter.begun].
    fold Counter.begun. by rewrite step_first.
Qed.

Lemma animateValue_lands_on_end_witness :
  let t0 := (2343279181116211 # 70368744177664)%Q in
  let t1 := (4544501459923763 # 4398046511104)%Q in
  let a := Counter.frames Binary64.double 0 100 1000%Q (t0 :: [t1] ++ 2000%Q :: [2016%Q])
             Counter.begun in
  Counter.shown a = Some 100%Z ∧ Counter.pending a = false.
Proof.
  intros t0 t1 a.
  pose proof (animateValue_lands_on_end Binary64.double 0 100 1000%Q t0 2000%Q
    [t1] [2016%Q] double_rounding (representable_Z 1000 ltac:(reflexivity))
    ltac:(reflexivity) ltac:(reflexivity) ltac:(reflexivity) ltac:(reflexivity)
    ltac:(reflexivity) ltac:(repeat constructor; discriminate) ltac:(discriminate))
    as (_ & _ & H3).
  exact H3.
Defined.

(** On doubles the counter can land before [t0 + duration], and the numbers
    it shows on the way differ from those of exact arithmetic.  With the
    doubles nearest to 33.3 and 1033.3 as timestamps and a duration of 1000,
    the second frame comes before [t0 + duration]; its progress is rounded to
    1, so the counter shows 100 and asks for no further frame, where exact
    arithmetic gives 99 and another frame.  With frames at 16 and 306 the
    counter shows 28 on doubles and 29 in exact arithmetic. *)
Lemma animateValue_lands_early_on_doubles :
  let t0 := (2343279181116211 # 70368744177664)%Q in
  let t1 := (4544501459923763 # 4398046511104)%Q in
  (Binary64.double (333 # 10) == t0)%Q ∧ (Binary64.double (10333 # 10) == t1)%Q ∧
  (t1 < t0 + 1000)%Q ∧
  Counter.frames Binary64.double 0 100 1000%Q [t0; t1] Counter.begun =
    {| Counter.startTimestamp := Some t0; Counter.shown := Some 100%Z;
       Counter.pending := false |} ∧
  Counter.frames id 0 100 1000%Q [t0; t1] Counter.begun =
    {| Counter.startTimestamp := Some t0; Counter.shown := Some 99%Z;
       Counter.pending := true |} ∧
  Counter.shown (Counter.frames Binary64.double 0 100 1000%Q [16%Q; 306%Q] Counter.begun)
    = Some 28%Z ∧
  Counter.shown (Counter.frames id 0 100 1000%Q [16%Q; 306%Q] Counter.begun)
    = Some 29%Z.
Proof. intros t0 t1. split_and!; vm_compute; reflexivity. Qed.

(** * Further properties of the charts *)

Lemma draw_range (lo span : Z) (rnd : Q) :
  (0 < span)%Z → (0 <= rnd)%Q → (rnd < 1)%Q →
  ChartManager.integer_in lo (lo + span - 1) (ChartManager.draw lo span rnd).
Proof.
  intros Hspan H0 H1. unfold ChartManager.integer_in, ChartManager.draw.
  eexists. split; [reflexivity|].
  rewrite Zlt_Qlt in Hspan. change (inject_Z 0) with 0%Q in Hspan.
  assert (Hlow : (0 ≤ Qfloor (rnd * inject_Z span))%Z).
  { rewrite <- (Qfloor_Z 0). apply Qfloor_resp_le. change (inject_Z 0) with 0%Q. nra. }
  assert (Hhigh : (Qfloor (rnd * inject_Z span) < span)%Z).
  { rewrite Zlt_Qlt. eapply Qle_lt_trans; [apply Qfloor_le|]. nra. }
  lia.
Qed.

Lemma ticks_snoc (randoms : list (nat → Q)) (random : nat → Q) (c : ChartManager.Charts) :
  ChartManager.ticks (randoms ++ [random]) c
  = ChartManager.updateChartsWithRandomData random (ChartManager.ticks randoms c).
Proof. unfold ChartManager.ticks. by rewrite foldl_app. Qed.

Lemma command_redrawn (random : nat → Q) (c : ChartManager.Charts) (data : list Q) :
  ChartManager.fair random →
  ChartManager.commandChart c = Some data →
  ∃ data', ChartManager.commandChart (ChartManager.updateChartsWithRandomData random c)
           = Some data'
           ∧ length data' = length data
           ∧ Forall (ChartManager.integer_in 20 119) data'.
Proof.
  intros Hfair Hc. unfold ChartManager.updateChartsWithRandomData.
  cbn [ChartManager.commandChart]. rewrite Hc. cbn [fmap option_fmap option_map].
  eexists. split_and!; [reflexivity|apply length_imap|].
  apply Forall_forall. intros x (i & y & -> & _)%elem_of_lookup_imap.
  destruct (Hfair i) as [H0 H1]. by apply (draw_range 20 100).
Qed.

Lemma command_length (randoms : list (nat → Q)) (c : ChartManager.Charts) (data : list Q) :
  ChartManager.commandChart c = Some data →
  ∃ data', ChartManager.commandChart (ChartManager.ticks randoms c) = Some data'
           ∧ length data' = length data.
Proof.
  intros Hc. induction randoms as [|random randoms IH] using rev_ind.
  - by exists data.
  - destruct IH as (d & Hd & Hlen). rewrite ticks_snoc.
    unfold ChartManager.updateChartsWithRandomData. cbn [ChartManager.commandChart].
    rewrite Hd. cbn [fmap option_fmap option_map].
    eexists. split; [reflexivity|]. by rewrite length_imap.
Qed.

Lemma growth_slides_once (random : nat → Q) (c : ChartManager.Charts) (data : list Q) :
  ChartManager.fair random →
  ChartManager.growthChart c = Some data →
  ∃ x, ChartManager.integer_in 80 129 x
       ∧ ChartManager.growthChart (ChartManager.updateChartsWithRandomData random c)
         = Some (drop 1 data ++ [x]).
Proof.
  intros Hfair Hc. unfold ChartManager.updateChartsWithRandomData.
  cbn [ChartManager.growthChart]. rewrite Hc. cbn [fmap option_fmap option_map].
  eexists. split; [|reflexivity].
  match goal with |- context [random ?i] => destruct (Hfair i) as [H0 H1] end.
  by apply (draw_range 80 50).
Qed.

(** X15.  Every tick redraws the command chart inside its range.  After one
    or more ticks of the update timer, with [Math.random] answering in
    [0, 1), the command chart has as many points as before and every point is
    a whole number from 20 to 119. *)
Theorem command_chart_stays_in_range (randoms : list (nat → Q)) (c : ChartManager.Charts)
    (data : list Q) :
  randoms ≠ [] →
  Forall ChartManager.fair randoms →
  ChartManager.commandChart c = Some data →
  ∃ data', ChartManager.commandChart (ChartManager.ticks randoms c) = Some data'
           ∧ length data' = length data
           ∧ Forall (ChartManager.integer_in 20 119) data'.
Proof.
  intros Hne Hfair Hc.
  destruct randoms as [|random randoms _] using rev_ind; [done|].
  apply Forall_app in Hfair as [_ Hfair]. apply Forall_inv in Hfair.
  destruct (command_length randoms c data Hc) as (d & Hd & Hlen).
  rewrite ticks_snoc.
  destruct (command_redrawn random _ d Hfair Hd) as (d' & Hd' & Hlen' & Hrange).
  exists d'. split_and!; [done|congruence|done].
Qed.

Lemma command_chart_stays_in_range_witness :
  ∃ data', ChartManager.commandChart
             (ChartManager.ticks [λ _, (1 # 2)%Q; λ _, (99 # 100)%Q]
                (ChartManager.createCharts true true)) = Some data'
           ∧ length data' = length (inject_Z <$> [65; 59; 80; 81; 56; 55]%Z)
           ∧ Forall (ChartManager.integer_in 20 119) data'.
Proof.
  apply (command_chart_stays_in_range [λ _, (1 # 2)%Q; λ _, (99 # 100)%Q]
           (ChartManager.createCharts true true)
           (inject_Z <$> [65; 59; 80; 81; 56; 55]%Z)).
  - discriminate.
  - repeat constructor; discriminate.
  - reflexivity.
Defined.

(** X16.  The growth chart is a sliding window.  Each tick drops the oldest
    point and appends a whole number from 80 to 129: after [n] ticks a chart
    that was not empty still has its number of points, and shows what is left
    of the old series after its first [n] points followed by the new
    numbers, oldest first. *)
Theorem growth_chart_slides (randoms : list (nat → Q)) (c : ChartManager.Charts)
    (data : list Q) :
  Forall ChartManager.fair randoms →
  ChartManager.growthChart c = Some data →
  data ≠ [] →
  ∃ news, ChartManager.growthChart (ChartManager.ticks randoms c)
          = Some (drop (length randoms) (data ++ news))
          ∧ length news = length randoms
          ∧ Forall (ChartManager.integer_in 80 129) news
          ∧ length (drop (length randoms) (data ++ news)) = length data.
Proof.
  intros Hfair Hc Hne.
  induction randoms as [|random randoms IH] using rev_ind.
  - exists []. rewrite app_nil_r. by split_and!.
  - apply Forall_app in Hfair as [Hfair Hr]. apply Forall_inv in Hr.
    destruct (IH Hfair) as (news & Hg & Hlen & Hrange & _).
    rewrite ticks_snoc.
    destruct (growth_slides_once random _ _ Hr Hg) as (x & Hx & ->).
    assert (Hdata : (0 < length data)%nat) by (destruct data; [done|cbn; lia]).
    exists (news ++ [x]). rewrite !length_app. cbn [length]. split_and!.
    + f_equal. rewrite drop_drop.
      rewrite (app_assoc data news [x]).
      by rewrite (drop_app_le (data ++ news) [x]) by (rewrite length_app; lia).
    + lia.
    + apply Forall_app. split; [done|]. by constructor.
    + rewrite length_drop, !length_app. cbn [length]. lia.
Qed.

Lemma growth_chart_slides_witness :
  ∃ news, ChartManager.growthChart
            (ChartManager.ticks [λ _, (1 # 2)%Q; λ _, (99 # 100)%Q]
               (ChartManager.createCharts true true))
          = Some (drop 2 ((inject_Z <$> [65; 78; 90; 81; 96; 105; 120]%Z) ++ news))
          ∧ length news = 2%nat.
Proof.
  destruct (growth_chart_slides [λ _, (1 # 2)%Q; λ _, (99 # 100)%Q]
              (ChartManager.createCharts true true)
              (inject_Z <$> [65; 78; 90; 81; 96; 105; 120]%Z)
              ltac:(repeat constructor; discriminate) ltac:(reflexivity)
              ltac:(discriminate)) as (news & H1 & H2 & _).
  exists news. split; [exact H1 | exact H2].
Defined.

(** X17.  Server data on the command chart lasts one tick.  Whatever series
    [updateChartsWithRealData] puts on the command chart, the next tick of
    the update timer replaces each of its points by a random whole number
    from 20 to 119: only the number of points of the server series is left,
    so two series of the same length give the same chart. *)
Theorem real_data_lost_at_next_tick (random : nat → Q) (c : ChartManager.Charts)
    (old real real' : list Q) (growth : option (list Q)) :
  ChartManager.fair random →
  ChartManager.commandChart c = Some old →
  length real = length real' →
  ∃ data', ChartManager.commandChart
             (ChartManager.updateChartsWithRandomData random
                (ChartManager.updateChartsWithRealData (Some real) growth c)) = Some data'
           ∧ ChartManager.commandChart
               (ChartManager.updateChartsWithRandomData random
                  (ChartManager.updateChartsWithRealData (Some real') growth c)) = Some data'
           ∧ length data' = length real
           ∧ Forall (ChartManager.integer_in 20 119) data'.
Proof.
  intros Hfair Hc Hlen.
  assert (Hreal : ∀ series, ChartManager.commandChart
                    (ChartManager.updateChartsWithRealData (Some series) growth c)
                  = Some series).
  { intros series. unfold ChartManager.updateChartsWithRealData.
    cbn [ChartManager.commandChart]. by rewrite Hc. }
  destruct (command_redrawn random _ real Hfair (Hreal real)) as (d & Hd & Hl & Hrange).
  exists d. split_and!; [done| |done|done].
  rewrite <- Hd. unfold ChartManager.updateChartsWithRandomData.
  cbn [ChartManager.commandChart]. rewrite !Hreal.
  cbn [fmap option_fmap option_map]. f_equal.
  by rewrite !imap_seq_0, Hlen.
Qed.

Lemma real_data_lost_at_next_tick_witness :
  ∃ data', ChartManager.commandChart
             (ChartManager.updateChartsWithRandomData (λ _, (1 # 2)%Q)
                (ChartManager.updateChartsWithRealData (Some [3%Q; 1000%Q]) None
                   (ChartManager.createCharts true true))) = Some data'
           ∧ ChartManager.commandChart
               (ChartManager.updateChartsWithRandomData (λ _, (1 # 2)%Q)
                  (ChartManager.updateChartsWithRealData (Some [0%Q; 7%Q]) None
                     (ChartManager.createCharts true true))) = Some data'.
Proof.
  destruct (real_data_lost_at_next_tick (λ _, (1 # 2)%Q)
              (ChartManager.createCharts true true)
              (inject_Z <$> [65; 59; 80; 81; 56; 55]%Z) [3%Q; 1000%Q] [0%Q; 7%Q] None
              ltac:(split; discriminate || reflexivity) ltac:(reflexivity)
              ltac:(reflexivity)) as (d & H1 & H2 & _).
  exists d. split; [exact H1 | exact H2].
Defined.
